(** * Wedding gallery: the media registry, its blob store and its HTTP surface

    A shallow embedding of the class [MemStorage] of [server/storage.ts] and
    of the route handlers of [registerRoutes], in the two variants the
    repository has (the plain one, and the one whose upload route mirrors
    each file to Cloudinary), followed by the properties the specification
    states about them.

    Conventions of the embedding.
    - A JavaScript number that holds an id, a counter or a size is a [Z].
      Numbers are IEEE doubles in the program; they are exact on integers
      below 2^53, which is the range an id counter started at 1 and advanced
      by one per call stays in.
    - A JavaScript string is a [string]; a [Buffer] is a [list byte].
    - A [Map] is an insertion-ordered association list ([JsMap]): the order
      of [Map.prototype.values] is observable through [getAllMedia].
    - A function that may throw returns a [Completion]; code that reads or
      writes the process state is written in the state-and-exception monad
      [M] over the record [World].
    - A route returns [res] as its handler leaves it ([Response]); [send]
      is what [res.json] and [res.send] of Express then put on the wire for
      a given request ([Wire]).
    - What the program reaches through Node, Cloudinary and zod is a
      parameter ([Platform]): every theorem holds whatever those do, unless
      it says otherwise. [Sim.platform] is one concrete platform, used to
      run the model on examples. *)

From Stdlib Require Import ZArith String Ascii List Sorted Lia.
From Stdlib Require Import Strings.Byte.
From stdpp Require Import base tactics option list gmap strings pretty.

Local Open Scope string_scope.
Local Open Scope Z_scope.

(** ** JavaScript values *)

Definition bytes := list byte.

(** What a [throw] carries: an instance of [Error] with its [message], or any
    other value (the handlers tell them apart with [instanceof Error]). *)
Inductive thrown :=
| ErrorObject (message : string)
| OtherValue.

(** The outcome of evaluating a call: it returns, or it throws. *)
Inductive Completion (A : Type) :=
| Normal (a : A)
| Throw (e : thrown).
Arguments Normal {A} a.
Arguments Throw {A} e.

(** A JSON value, for the [jsonb] column [metadata]. An object keeps its
    properties in insertion order. *)
#[warnings="-register-all"]
Inductive Json :=
| JNull
| JBool (b : bool)
| JNum (n : Z)
| JStr (s : string)
| JArr (items : list Json)
| JObj (props : list (string * Json)).

(** [obj.key = v] on the property list of an object. *)
Fixpoint obj_set (key : string) (v : Json) (props : list (string * Json))
  : list (string * Json) :=
  match props with
  | [] => [(key, v)]
  | (k, x) :: rest =>
      if String.eqb k key then (k, v) :: rest else (k, x) :: obj_set key v rest
  end.

(** ** [Map<number, V>] *)

Module JsMap.
Definition t (V : Type) := list (Z * V).

Definition empty {V} : t V := [].

Fixpoint get {V} (k : Z) (m : t V) : option V :=
  match m with
  | [] => None
  | (k', v) :: m' => if Z.eqb k' k then Some v else get k m'
  end.

(** [set] keeps the position of a key that is present and appends a new
    key at the end. *)
Fixpoint set {V} (k : Z) (v : V) (m : t V) : t V :=
  match m with
  | [] => [(k, v)]
  | (k', v') :: m' =>
      if Z.eqb k' k then (k', v) :: m' else (k', v') :: set k v m'
  end.

(** [delete] removes the entry of the key; a map built from [empty] with
    [set] and [delete] has at most one. *)
Definition delete {V} (k : Z) (m : t V) : t V :=
  List.filter (fun kv => negb (Z.eqb (fst kv) k)) m.

Definition keys {V} (m : t V) : list Z := List.map fst m.

Definition values {V} (m : t V) : list V := List.map snd m.
End JsMap.

(** ** shared/schema.ts *)

Module User.
Record t := mk { id : Z; username : string; password : string }.
End User.

Module InsertUser.
Record t := mk { username : string; password : string }.
End InsertUser.

(** [InsertMedia]: a row of [media_files] without its [id]. [metadata] is
    [None] when the property is absent. *)
Module InsertMedia.
Record t := mk {
  fileName : string;
  fileType : string;
  fileSize : Z;
  uploadDate : string;
  metadata : option Json
}.
End InsertMedia.

Module MediaFile.
Record t := mk {
  id : Z;
  fileName : string;
  fileType : string;
  fileSize : Z;
  uploadDate : string;
  metadata : option Json
}.
End MediaFile.

(** [{ ...insertMedia, id }] *)
Definition spread_with_id (insertMedia : InsertMedia.t) (id : Z) : MediaFile.t :=
  {| MediaFile.id := id;
     MediaFile.fileName := InsertMedia.fileName insertMedia;
     MediaFile.fileType := InsertMedia.fileType insertMedia;
     MediaFile.fileSize := InsertMedia.fileSize insertMedia;
     MediaFile.uploadDate := InsertMedia.uploadDate insertMedia;
     MediaFile.metadata := InsertMedia.metadata insertMedia |}.

(** [{ ...insertUser, id }] *)
Definition spread_user_with_id (insertUser : InsertUser.t) (id : Z) : User.t :=
  {| User.id := id;
     User.username := InsertUser.username insertUser;
     User.password := InsertUser.password insertUser |}.

(** ** The state-and-exception monad

    [M S A]: a computation over a state [S] that returns an [A] or throws.
    The state a computation leaves behind is kept when it throws, as the
    side effects of a JavaScript function are. *)

Definition M (S A : Type) : Type := S -> Completion A * S.

Definition ret {S A} (a : A) : M S A := fun w => (Normal a, w).

Definition bind {S A B} (c : M S A) (k : A -> M S B) : M S B :=
  fun w =>
    match c w with
    | (Normal a, w') => k a w'
    | (Throw e, w') => (Throw e, w')
    end.

(** [try { body } catch (error) { handler }] *)
Definition try_catch {S A} (body : M S A) (handler : thrown -> M S A) : M S A :=
  fun w =>
    match body w with
    | (Normal a, w') => (Normal a, w')
    | (Throw e, w') => handler e w'
    end.

(** A call that does not touch the state. *)
Definition lift {S A} (c : Completion A) : M S A := fun w => (c, w).

Notation "x <- c ;; k" := (bind c (fun x => k))
  (at level 100, c at next level, right associativity).
Notation "'_' <- c ;; k" := (bind c (fun _ => k))
  (at level 100, c at next level, right associativity).

(** ** Built-ins of the language *)

(** [StrWhiteSpaceChar] of ECMA-262, among the code units below 256: TAB,
    LF, VT, FF, CR, SP and NBSP. *)
Definition is_white_space (c : ascii) : bool :=
  let n := N_of_ascii c in
  ((n =? 9) || (n =? 10) || (n =? 11) || (n =? 12) || (n =? 13) || (n =? 32)
   || (n =? 160))%N.

Fixpoint trim_start (s : string) : string :=
  match s with
  | EmptyString => EmptyString
  | String c rest => if is_white_space c then trim_start rest else s
  end.

(** The value of a character as a digit: [0-9], then [a-z] or [A-Z] for
    10 to 35. *)
Definition digit_value (c : ascii) : option Z :=
  let n := Z.of_N (N_of_ascii c) in
  if (48 <=? n) && (n <=? 57) then Some (n - 48)
  else if (97 <=? n) && (n <=? 122) then Some (n - 87)
  else if (65 <=? n) && (n <=? 90) then Some (n - 55)
  else None.

(** The values of the longest prefix of [s] made of digits of the radix. *)
Fixpoint leading_digits (radix : Z) (s : string) : list Z :=
  match s with
  | EmptyString => []
  | String c rest =>
      match digit_value c with
      | Some d => if d <? radix then d :: leading_digits radix rest else []
      | None => []
      end
  end.

Definition digits_value (radix : Z) (ds : list Z) : Z :=
  fold_left (fun acc d => acc * radix + d) ds 0.

(** [parseInt(input)], with no radix given: leading white space is skipped,
    a sign is read, [0x] or [0X] selects radix 16, and the longest prefix of
    digits is the value; what follows the digits is ignored. [None] is
    [NaN]: there was no digit to read. *)
Definition parseInt (input : string) : option Z :=
  let s := trim_start input in
  let '(sign, s) :=
    match s with
    | String "-"%char rest => (-1, rest)
    | String "+"%char rest => (1, rest)
    | _ => (1, s)
    end in
  let '(radix, s) :=
    match s with
    | String "0"%char (String x rest) =>
        if Ascii.eqb x "x"%char || Ascii.eqb x "X"%char then (16, rest)
        else (10, s)
    | _ => (10, s)
    end in
  match leading_digits radix s with
  | [] => None
  | ds => Some (sign * digits_value radix ds)
  end.

(** [text.startsWith(start)] *)
Definition startsWith (text start : string) : bool := String.prefix start text.

Definition reverse (s : string) : string :=
  string_of_list_ascii (rev (list_ascii_of_string s)).

(** [text.trim()]: white space and line terminators are the characters of
    [is_white_space]. *)
Definition trim (text : string) : string :=
  reverse (trim_start (reverse (trim_start text))).

(** [text.toLowerCase()] on the letters [A-Z]. *)
Fixpoint toLowerCase (text : string) : string :=
  match text with
  | EmptyString => EmptyString
  | String c rest =>
      let n := N_of_ascii c in
      String (if ((65 <=? n) && (n <=? 90))%N then ascii_of_N (n + 32) else c)
        (toLowerCase rest)
  end.

(** ** multer *)

(** A file part of the field [media], as busboy reports it to multer:
    [originalname] is the base name of the file name the client declared,
    [mimetype] the declared type in lower case and without parameters, and
    [content] the bytes of the part. *)
Module Part.
Record t := mk {
  originalname : string;
  mimetype : string;
  content : bytes
}.
End Part.

(** [Express.Multer.File], as [multer.memoryStorage()] fills it. *)
Module File.
Record t := mk {
  originalname : string;
  mimetype : string;
  size : Z;
  buffer : bytes
}.
End File.

(** [limits.fileSize] *)
Definition fileSizeLimit : Z := 50 * 1024 * 1024.

(** [fileFilter]: [true] stands for [cb(null, true)]. *)
Definition fileFilter (file : Part.t) : bool :=
  startsWith (Part.mimetype file) "image/"
  || startsWith (Part.mimetype file) "video/".

Definition memoryStorage (file : Part.t) : File.t :=
  {| File.originalname := Part.originalname file;
     File.mimetype := Part.mimetype file;
     File.size := Z.of_nat (length (Part.content file));
     File.buffer := Part.content file |}.

(** What [upload.array("media")] hands to the route: [req.files], or the
    error it passes to [next] without calling the route. *)
Inductive MulterResult :=
| MulterError (code : string)
| MulterFiles (files : list File.t).

(** [upload.array("media")] on the parts of the field [media]: a part the
    filter refuses is skipped; an accepted part that reaches the limit ends
    the request with [LIMIT_FILE_SIZE] (busboy 1.x raises [limit] as soon as
    the bytes read equal [limits.fileSize], so a part of exactly that size
    is refused). *)
Definition upload_array (parts : list Part.t) : MulterResult :=
  let accepted := List.filter fileFilter parts in
  if forallb (fun p => Z.of_nat (length (Part.content p)) <? fileSizeLimit)
       accepted
  then MulterFiles (List.map memoryStorage accepted)
  else MulterError "LIMIT_FILE_SIZE".

(** ** Responses *)

(** One element of [uploadResults]; an absent property is [None]. *)
Module UploadResult.
Record t := mk {
  id : option Z;
  fileName : string;
  cloudinaryUrl : option string;
  status : string;
  message : option string
}.
End UploadResult.

(** What a handler passes to [res.json] or [res.send]. *)
Inductive Body :=
| NoBody
| JsonMessage (message : string)
| JsonFailure (message error : string)
| JsonMedia (items : list MediaFile.t)
| JsonUpload (message : string) (results : list UploadResult.t)
| SendBuffer (data : bytes)
| SendText (text : string).

(** [res] as the handler leaves it: the status code, the headers it set
    with [res.setHeader], and the value it passed to [res.json] or
    [res.send]. What Express makes of it on the wire is [send], below. *)
Record Response := {
  statusCode : Z;
  headers : list (string * string);
  body : Body
}.

Definition dq : string := String (ascii_of_nat 34) EmptyString.

(** A fresh [res]. *)
Definition res : Response :=
  {| statusCode := 200; headers := []; body := NoBody |}.

Definition res_status (code : Z) (r : Response) : Response :=
  {| statusCode := code; headers := headers r; body := body r |}.

(** The characters Node accepts in the value of a header: TAB, and the
    code units from 0x20 to 0xFF but DEL. *)
Definition legal_header_char (c : ascii) : bool :=
  let n := N_of_ascii c in
  ((n =? 9) || ((32 <=? n) && (n <=? 126)) || (128 <=? n))%N.

Definition legal_header_value (value : string) : bool :=
  forallb legal_header_char (list_ascii_of_string value).

(** The [TypeError] with code [ERR_INVALID_CHAR]. *)
Definition ERR_INVALID_CHAR (name : string) : thrown :=
  ErrorObject
    ("Invalid character in header content [" ++ dq ++ name ++ dq ++ "]").

(** [res.setHeader(name, value)] of Node, for a header name that is legal:
    it throws on a value with a character that is not, and leaves [res] as
    it was then. *)
Definition res_setHeader (name value : string) (r : Response)
  : Completion Response :=
  if legal_header_value value then
    Normal
      {| statusCode := statusCode r;
         headers :=
           List.filter (fun h => negb (String.eqb (fst h) name)) (headers r)
           ++ [(name, value)];
         body := body r |}
  else Throw (ERR_INVALID_CHAR name).

(** [res.json(b)] and [res.send(b)], as the last call of a handler: the
    value that was passed. *)
Definition res_end (b : Body) (r : Response) : Response :=
  {| statusCode := statusCode r; headers := headers r; body := b |}.

Definition getHeader (name : string) (r : Response) : option string :=
  option_map snd
    (List.find (fun h => String.eqb (fst h) name) (headers r)).

(** [error instanceof Error ? error.message : "Unknown error"] *)
Definition error_message (error : thrown) : string :=
  match error with
  | ErrorObject message => message
  | OtherValue => "Unknown error"
  end.

Definition nl : string := String (ascii_of_nat 10) EmptyString.

Definition attr (name value : string) : string :=
  name ++ "=" ++ dq ++ value ++ dq.

(** The template literal [placeholderSvg] of the thumbnail route: the text
    before [${mediaInfo.fileName}], and the text after it. *)
Definition placeholderSvg_head : string :=
  nl ++
  "          <svg " ++ attr "xmlns" "http://www.w3.org/2000/svg" ++ " "
    ++ attr "width" "400" ++ " " ++ attr "height" "300" ++ " "
    ++ attr "viewBox" "0 0 400 300" ++ ">" ++ nl ++
  "            <rect " ++ attr "width" "400" ++ " " ++ attr "height" "300"
    ++ " " ++ attr "fill" "#333333" ++ " />" ++ nl ++
  "            <text " ++ attr "x" "50%" ++ " " ++ attr "y" "50%" ++ " "
    ++ attr "fill" "#ffffff" ++ " " ++ attr "font-family" "Arial" ++ " "
    ++ attr "font-size" "24" ++ " " ++ attr "text-anchor" "middle" ++ ">"
    ++ nl ++
  "              Video: ".

Definition placeholderSvg_tail : string :=
  nl ++
  "            </text>" ++ nl ++
  "          </svg>" ++ nl ++
  "        ".

Definition placeholderSvg (fileName : string) : string :=
  placeholderSvg_head ++ fileName ++ placeholderSvg_tail.

(** [text] occurs in [whole]. *)
Definition contains (whole text : string) : Prop :=
  exists before after, whole = before ++ text ++ after.

(** ** The platform *)

(** How Cloudinary's [upload_stream] calls its callback [(error, result)]. *)
Inductive CloudOutcome :=
| CloudFailed (error : thrown)
| CloudNoResult
| CloudUploaded (secure_url : string).

(** The services the program calls and does not define. [Disk] is the state
    of the file system and [Cloud] the state of the Cloudinary account.
    - [fs]: [existsSync] never throws and, like [readFileSync], leaves the
      disk as it is; [writeFileSync] and [unlinkSync] return the disk they
      leave behind, also when they throw.
    - [path.join], and the directory [mediaDir] computed at start-up.
    - [cloudinary.uploader.upload_stream] with [resource_type: "auto"], fed
      the whole buffer: how it calls its callback (it is taken to call
      it).
    - [toISOString]: the text of the date the clock shows.
    - [insertMediaSchema.parse], the zod schema drizzle derives from the
      table [media_files]: it returns or throws.
    - [contentType_setCharset]: what the package content-type, which
      [res.send] calls on the [Content-Type] of a text body, makes of a
      type that has parameters: the type with [charset=utf-8], or a
      [TypeError]. *)
Class Platform (Disk Cloud : Type) := {
  existsSync : string -> Disk -> bool;
  readFileSync : string -> Disk -> Completion bytes;
  writeFileSync : string -> bytes -> Disk -> Completion unit * Disk;
  unlinkSync : string -> Disk -> Completion unit * Disk;
  path_join : string -> string -> string;
  mediaDir : string;
  upload_stream : bytes -> Cloud -> CloudOutcome * Cloud;
  toISOString : nat -> string;
  insertMediaSchema_parse : InsertMedia.t -> Completion unit;
  contentType_setCharset : string -> Completion string
}.

(** The contract of a file system the round trip relies on: a file that was
    written without an error is there and reads back as written. *)
Definition write_then_read {Disk Cloud} `{Platform Disk Cloud} : Prop :=
  forall path data (d d' : Disk),
    writeFileSync path data d = (Normal tt, d') ->
    existsSync path d' = true /\ readFileSync path d' = Normal data.

(** ** server/storage.ts *)

Record MemStorage := {
  users : JsMap.t User.t;
  media : JsMap.t MediaFile.t;
  userCurrentId : Z;
  mediaCurrentId : Z
}.

(** [constructor()] *)
Definition new_MemStorage : MemStorage :=
  {| users := JsMap.empty;
     media := JsMap.empty;
     userCurrentId := 1;
     mediaCurrentId := 1 |}.

Definition set_users (us : JsMap.t User.t) (s : MemStorage) : MemStorage :=
  {| users := us; media := media s; userCurrentId := userCurrentId s;
     mediaCurrentId := mediaCurrentId s |}.

Definition set_media (ms : JsMap.t MediaFile.t) (s : MemStorage) : MemStorage :=
  {| users := users s; media := ms; userCurrentId := userCurrentId s;
     mediaCurrentId := mediaCurrentId s |}.

Definition set_userCurrentId (n : Z) (s : MemStorage) : MemStorage :=
  {| users := users s; media := media s; userCurrentId := n;
     mediaCurrentId := mediaCurrentId s |}.

Definition set_mediaCurrentId (n : Z) (s : MemStorage) : MemStorage :=
  {| users := users s; media := media s; userCurrentId := userCurrentId s;
     mediaCurrentId := n |}.

Section Server.
Context {Disk Cloud : Type} `{Platform Disk Cloud}.

(** One argument of a [console.error] call. *)
Inductive console_arg :=
| Str (s : string)
| Err (e : thrown).

(** The state of the process and of what it talks to: the singleton
    [storage], the disk, the calls of [console.error] (most recent last),
    the clock and the Cloudinary account. *)
Record World := {
  storage : MemStorage;
  disk : Disk;
  console : list (list console_arg);
  clock : nat;
  cloud : Cloud
}.

(** The process right after start-up, on a given disk and account. *)
Definition boot (d : Disk) (c : Cloud) : World :=
  {| storage := new_MemStorage; disk := d; console := []; clock := 0%nat;
     cloud := c |}.

Definition with_storage (s : MemStorage) (w : World) : World :=
  {| storage := s; disk := disk w; console := console w; clock := clock w;
     cloud := cloud w |}.

Definition with_disk (d : Disk) (w : World) : World :=
  {| storage := storage w; disk := d; console := console w; clock := clock w;
     cloud := cloud w |}.

Definition with_console (lines : list (list console_arg)) (w : World) : World :=
  {| storage := storage w; disk := disk w; console := lines; clock := clock w;
     cloud := cloud w |}.

Definition with_clock (t : nat) (w : World) : World :=
  {| storage := storage w; disk := disk w; console := console w; clock := t;
     cloud := cloud w |}.

Definition with_cloud (c : Cloud) (w : World) : World :=
  {| storage := storage w; disk := disk w; console := console w;
     clock := clock w; cloud := c |}.

(** *** Calls into the platform *)

Definition fs_existsSync (path : string) : M World bool :=
  fun w => (Normal (existsSync path (disk w)), w).

Definition fs_readFileSync (path : string) : M World bytes :=
  fun w => (readFileSync path (disk w), w).

Definition fs_writeFileSync (path : string) (data : bytes) : M World unit :=
  fun w => let (r, d) := writeFileSync path data (disk w) in (r, with_disk d w).

Definition fs_unlinkSync (path : string) : M World unit :=
  fun w => let (r, d) := unlinkSync path (disk w) in (r, with_disk d w).

Definition console_error (args : list console_arg) : M World unit :=
  fun w => (Normal tt, with_console (console w ++ [args]) w).

(** [new Date().toISOString()]: reads the clock, and time passes. *)
Definition Date_toISOString : M World string :=
  fun w => (Normal (toISOString (clock w)), with_clock (S (clock w)) w).

(** *** class MemStorage *)

(** [this.media.get(id)] *)
Definition media_get (id : Z) : M World (option MediaFile.t) :=
  fun w => (Normal (JsMap.get id (media (storage w))), w).

(** [this.media.set(id, media)] *)
Definition media_set (id : Z) (m : MediaFile.t) : M World unit :=
  fun w =>
    let s := storage w in
    (Normal tt, with_storage (set_media (JsMap.set id m (media s)) s) w).

(** [this.media.delete(id)] *)
Definition media_delete (id : Z) : M World unit :=
  fun w =>
    let s := storage w in
    (Normal tt, with_storage (set_media (JsMap.delete id (media s)) s) w).

(** [this.mediaCurrentId++] *)
Definition mediaCurrentId_post_incr : M World Z :=
  fun w =>
    let s := storage w in
    (Normal (mediaCurrentId s),
     with_storage (set_mediaCurrentId (mediaCurrentId s + 1) s) w).

(** [this.userCurrentId++] *)
Definition userCurrentId_post_incr : M World Z :=
  fun w =>
    let s := storage w in
    (Normal (userCurrentId s),
     with_storage (set_userCurrentId (userCurrentId s + 1) s) w).

Definition getUser (id : Z) : M World (option User.t) :=
  fun w => (Normal (JsMap.get id (users (storage w))), w).

Definition getUserByUsername (username : string) : M World (option User.t) :=
  fun w =>
    (Normal
       (List.find (fun user => String.eqb (User.username user) username)
          (JsMap.values (users (storage w)))),
     w).

Definition createUser (insertUser : InsertUser.t) : M World User.t :=
  id <- userCurrentId_post_incr ;;
  let user := spread_user_with_id insertUser id in
  fun w =>
    let s := storage w in
    (Normal user, with_storage (set_users (JsMap.set id user (users s)) s) w).

(** [path.join(mediaDir, `${id}_${fileName}`)]: where the blob of a record
    lives. [pretty id] is the decimal numeral of [id]. *)
Definition filePath (id : Z) (fileName : string) : string :=
  path_join mediaDir (pretty id ++ "_" ++ fileName).

Definition getAllMedia : M World (list MediaFile.t) :=
  fun w => (Normal (JsMap.values (media (storage w))), w).

Definition getMediaById (id : Z) : M World (option MediaFile.t) :=
  media_get id.

Definition createMedia (insertMedia : InsertMedia.t) (fileData : bytes)
  : M World MediaFile.t :=
  id <- mediaCurrentId_post_incr ;;
  let media := spread_with_id insertMedia id in
  let filePath := filePath id (MediaFile.fileName media) in
  _ <- fs_writeFileSync filePath fileData ;;
  _ <- media_set id media ;;
  ret media.

Definition deleteMedia (id : Z) : M World bool :=
  media <- media_get id ;;
  match media with
  | None => ret false
  | Some media =>
      try_catch
        (let filePath := filePath id (MediaFile.fileName media) in
         present <- fs_existsSync filePath ;;
         _ <- (if present then fs_unlinkSync filePath else ret tt) ;;
         _ <- media_delete id ;;
         ret true)
        (fun error =>
           _ <- console_error [Str "Error deleting media:"; Err error] ;;
           ret false)
  end.

(** The result is [None] for [undefined], and otherwise the pair
    [{ data, mediaInfo }]. *)
Definition getMediaFile (id : Z) : M World (option (bytes * MediaFile.t)) :=
  media <- media_get id ;;
  match media with
  | None => ret None
  | Some media =>
      try_catch
        (let filePath := filePath id (MediaFile.fileName media) in
         present <- fs_existsSync filePath ;;
         if negb present then ret None
         else
           data <- fs_readFileSync filePath ;;
           ret (Some (data, media)))
        (fun error =>
           _ <- console_error [Str "Error reading media file:"; Err error] ;;
           ret None)
  end.

(** *** server/routes.ts *)


(** A handler and its [res]. [res] is one object that the handler changes
    in place: what a [catch] block sends goes out with the headers the
    [try] block had set before it threw. A handler that sets headers is
    therefore a computation on the world and [res] together. *)
Definition Handler (A : Type) : Type := M (World * Response) A.

Definition on_world {A} (c : M World A) : Handler A :=
  fun s => let (a, w) := c (fst s) in (a, (w, snd s)).

(** [res.status(code).json(b)], [res.json(b)] and [res.send(b)] *)
Definition on_res (f : Response -> Response) : Handler unit :=
  fun s => (Normal tt, (fst s, f (snd s))).

(** [res.setHeader(name, value)] *)
Definition setHeader (name value : string) : Handler unit :=
  fun s =>
    match res_setHeader name value (snd s) with
    | Normal r => (Normal tt, (fst s, r))
    | Throw error => (Throw error, s)
    end.

(** The handler, called with a fresh [res]. *)
Definition handle (h : Handler unit) : M World Response :=
  fun w =>
    match h (w, res) with
    | (Normal _, (w', r)) => (Normal r, w')
    | (Throw error, (w', _)) => (Throw error, w')
    end.

(** [GET /api/media/:id] *)
Definition get_media (id_param : string) : M World Response :=
  handle
    (try_catch
       (match parseInt id_param with
        | None =>
            on_res (fun r =>
              res_end (JsonMessage "Invalid ID format") (res_status 400 r))
        | Some id =>
            mediaData <- on_world (getMediaFile id) ;;
            match mediaData with
            | None =>
                on_res (fun r =>
                  res_end (JsonMessage "Media not found") (res_status 404 r))
            | Some (data, mediaInfo) =>
                _ <- setHeader "Content-Type" (MediaFile.fileType mediaInfo) ;;
                on_res (res_end (SendBuffer data))
            end
        end)
       (fun error =>
          _ <- on_world (console_error [Str "Error serving media:"; Err error]) ;;
          on_res (fun r =>
            res_end (JsonMessage "Failed to serve media file")
              (res_status 500 r)))).

(** [GET /api/media/:id/download] *)
Definition download_media (id_param : string) : M World Response :=
  handle
    (try_catch
       (match parseInt id_param with
        | None =>
            on_res (fun r =>
              res_end (JsonMessage "Invalid ID format") (res_status 400 r))
        | Some id =>
            mediaData <- on_world (getMediaFile id) ;;
            match mediaData with
            | None =>
                on_res (fun r =>
                  res_end (JsonMessage "Media not found") (res_status 404 r))
            | Some (data, mediaInfo) =>
                _ <- setHeader "Content-Type" (MediaFile.fileType mediaInfo) ;;
                _ <- setHeader "Content-Disposition"
                       ("attachment; filename=" ++ dq
                          ++ MediaFile.fileName mediaInfo ++ dq) ;;
                on_res (res_end (SendBuffer data))
            end
        end)
       (fun error =>
          _ <- on_world
                 (console_error [Str "Error downloading media:"; Err error]) ;;
          on_res (fun r =>
            res_end (JsonMessage "Failed to download media file")
              (res_status 500 r)))).

(** [GET /api/media/:id/thumbnail] *)
Definition thumbnail_media (id_param : string) : M World Response :=
  handle
    (try_catch
       (match parseInt id_param with
        | None =>
            on_res (fun r =>
              res_end (JsonMessage "Invalid ID format") (res_status 400 r))
        | Some id =>
            mediaInfo <- on_world (getMediaById id) ;;
            match mediaInfo with
            | None =>
                on_res (fun r =>
                  res_end (JsonMessage "Media not found") (res_status 404 r))
            | Some mediaInfo =>
                if startsWith (MediaFile.fileType mediaInfo) "video/" then
                  _ <- setHeader "Content-Type" "image/svg+xml" ;;
                  on_res
                    (res_end
                       (SendText
                          (placeholderSvg (MediaFile.fileName mediaInfo))))
                else
                  mediaData <- on_world (getMediaFile id) ;;
                  match mediaData with
                  | None =>
                      on_res (fun r =>
                        res_end (JsonMessage "Media file not found")
                          (res_status 404 r))
                  | Some (data, _) =>
                      _ <- setHeader "Content-Type"
                             (MediaFile.fileType mediaInfo) ;;
                      on_res (res_end (SendBuffer data))
                  end
            end
        end)
       (fun error =>
          _ <- on_world
                 (console_error [Str "Error serving thumbnail:"; Err error]) ;;
          on_res (fun r =>
            res_end (JsonMessage "Failed to serve thumbnail")
              (res_status 500 r)))).

(** [DELETE /api/media/:id] *)
Definition delete_media (id_param : string) : M World Response :=
  try_catch
    (match parseInt id_param with
     | None =>
         ret (res_end (JsonMessage "Invalid ID format") (res_status 400 res))
     | Some id =>
         deleted <- deleteMedia id ;;
         if negb deleted then
           ret (res_end (JsonMessage "Media not found or already deleted")
                  (res_status 404 res))
         else ret (res_end (JsonMessage "Media deleted successfully") res)
     end)
    (fun error =>
       _ <- console_error [Str "Error deleting media:"; Err error] ;;
       ret (res_end (JsonMessage "Failed to delete media")
              (res_status 500 res))).

(** The object literal [mediaData] of the upload routes. *)
Definition mediaData_of (file : File.t) (now : string) : InsertMedia.t :=
  {| InsertMedia.fileName := File.originalname file;
     InsertMedia.fileType := File.mimetype file;
     InsertMedia.fileSize := File.size file;
     InsertMedia.uploadDate := now;
     InsertMedia.metadata :=
       Some (JObj [("originalName", JStr (File.originalname file))]) |}.

(** The element pushed for a file that was stored. *)
Definition result_success (mediaRecord : MediaFile.t)
    (cloudinaryUrl : option string) : UploadResult.t :=
  {| UploadResult.id := Some (MediaFile.id mediaRecord);
     UploadResult.fileName := MediaFile.fileName mediaRecord;
     UploadResult.cloudinaryUrl := cloudinaryUrl;
     UploadResult.status := "success";
     UploadResult.message := None |}.

(** The element pushed for a file whose processing threw. *)
Definition result_error (file : File.t) (error : thrown) : UploadResult.t :=
  {| UploadResult.id := None;
     UploadResult.fileName := File.originalname file;
     UploadResult.cloudinaryUrl := None;
     UploadResult.status := "error";
     UploadResult.message := Some (error_message error) |}.

(** The body of the [for] loop of [POST /api/media/upload]; the result is
    the element it pushes on [uploadResults]. *)
Definition upload_file (file : File.t) : M World UploadResult.t :=
  now <- Date_toISOString ;;
  let mediaData := mediaData_of file now in
  try_catch
    (_ <- lift (insertMediaSchema_parse mediaData) ;;
     mediaRecord <- createMedia mediaData (File.buffer file) ;;
     ret (result_success mediaRecord None))
    (fun error =>
       _ <- console_error
              [Str "Error processing file:"; Str (File.originalname file);
               Err error] ;;
       ret (result_error file error)).

(** The promise around [cloudinary.uploader.upload_stream]: it rejects with
    the error of the callback, or with a new [Error] when the callback got
    neither an error nor a result, and resolves to [result.secure_url]. *)
Definition cloudinary_upload (data : bytes) : M World string :=
  fun w =>
    let (outcome, c) := upload_stream data (cloud w) in
    let w' := with_cloud c w in
    match outcome with
    | CloudFailed error => (Throw error, w')
    | CloudNoResult => (Throw (ErrorObject "No result from Cloudinary"), w')
    | CloudUploaded secure_url => (Normal secure_url, w')
    end.

(** [mediaData.metadata.cloudinaryUrl = cloudinaryUrl] *)
Definition set_cloudinaryUrl (cloudinaryUrl : string)
    (mediaData : InsertMedia.t) : InsertMedia.t :=
  {| InsertMedia.fileName := InsertMedia.fileName mediaData;
     InsertMedia.fileType := InsertMedia.fileType mediaData;
     InsertMedia.fileSize := InsertMedia.fileSize mediaData;
     InsertMedia.uploadDate := InsertMedia.uploadDate mediaData;
     InsertMedia.metadata :=
       match InsertMedia.metadata mediaData with
       | Some (JObj props) =>
           Some (JObj (obj_set "cloudinaryUrl" (JStr cloudinaryUrl) props))
       | other => other
       end |}.

(** The body of the [for] loop of the route that mirrors to Cloudinary. *)
Definition upload_file_mirrored (file : File.t) : M World UploadResult.t :=
  try_catch
    (now <- Date_toISOString ;;
     let mediaData := mediaData_of file now in
     _ <- lift (insertMediaSchema_parse mediaData) ;;
     cloudinaryUrl <- cloudinary_upload (File.buffer file) ;;
     let mediaData := set_cloudinaryUrl cloudinaryUrl mediaData in
     mediaRecord <- createMedia mediaData (File.buffer file) ;;
     ret (result_success mediaRecord (Some cloudinaryUrl)))
    (fun fileError =>
       _ <- console_error
              [Str "Error processing file:"; Str (File.originalname file);
               Err fileError] ;;
       ret (result_error file fileError)).

(** [for (const file of uploadedFiles) { ... uploadResults.push(...) }] *)
Fixpoint for_each_file (step : File.t -> M World UploadResult.t)
    (uploadedFiles : list File.t) (uploadResults : list UploadResult.t)
  : M World (list UploadResult.t) :=
  match uploadedFiles with
  | [] => ret uploadResults
  | file :: rest =>
      r <- step file ;;
      for_each_file step rest (uploadResults ++ [r])
  end.

(** The handler of [POST /api/media/upload] around a loop body;
    [req_files] is [None] when [req.files] is not an array. *)
Definition upload_handler (step : File.t -> M World UploadResult.t)
    (req_files : option (list File.t)) : M World Response :=
  try_catch
    (match req_files with
     | None | Some [] =>
         ret (res_end (JsonMessage "No files uploaded") (res_status 400 res))
     | Some uploadedFiles =>
         uploadResults <- for_each_file step uploadedFiles [] ;;
         ret (res_end (JsonUpload "Files processed" uploadResults)
                (res_status 201 res))
     end)
    (fun error =>
       _ <- console_error [Str "Error uploading files:"; Err error] ;;
       ret (res_end
              (JsonFailure "Failed to process uploaded files"
                 (error_message error))
              (res_status 500 res))).

(** [POST /api/media/upload] *)
Definition upload_media : option (list File.t) -> M World Response :=
  upload_handler upload_file.

(** [POST /api/media/upload], mirroring to Cloudinary. *)
Definition upload_media_mirrored : option (list File.t) -> M World Response :=
  upload_handler upload_file_mirrored.

(** *** express: what [res.json] and [res.send] put on the wire *)

(** A character of a [token] of RFC 7230. *)
Definition is_token_char (c : ascii) : bool :=
  let n := N_of_ascii c in
  ((n =? 33) || ((35 <=? n) && (n <=? 39)) || (n =? 42) || (n =? 43)
   || (n =? 45) || (n =? 46) || ((48 <=? n) && (n <=? 57))
   || ((65 <=? n) && (n <=? 90)) || ((94 <=? n) && (n <=? 122))
   || (n =? 124) || (n =? 126))%N.

Definition is_token (s : string) : bool :=
  negb (String.eqb s "") && forallb is_token_char (list_ascii_of_string s).

Fixpoint before_slash (s : string) : string :=
  match s with
  | EmptyString => EmptyString
  | String c rest =>
      if Ascii.eqb c "/" then EmptyString else String c (before_slash rest)
  end.

Fixpoint after_slash (s : string) : option string :=
  match s with
  | EmptyString => None
  | String c rest => if Ascii.eqb c "/" then Some rest else after_slash rest
  end.

(** The test of content-type on a type without parameters:
    [token "/" token]. *)
Definition is_media_type (s : string) : bool :=
  match after_slash s with
  | Some subtype => is_token (before_slash s) && is_token subtype
  | None => false
  end.

Definition has_parameters (type : string) : bool :=
  existsb (Ascii.eqb ";") (list_ascii_of_string type).

(** [setCharset(type, "utf-8")] of Express: content-type parses the type
    and formats it again with the charset. A type without parameters is
    trimmed, must be a media type, and comes back in lower case. *)
Definition setCharset (type : string) : Completion string :=
  if String.eqb type "" then Normal type
  else if has_parameters type then contentType_setCharset type
  else
    let media_type := trim type in
    if is_media_type media_type
    then Normal (toLowerCase media_type ++ "; charset=utf-8")
    else Throw (ErrorObject "invalid media type").

(** [!res.get(name)] *)
Definition unset (value : option string) : bool :=
  match value with
  | None => true
  | Some v => String.eqb v ""
  end.

(** The [Content-Type] that [res.json] and [res.send] settle on, or the
    error they throw on the way. [res.json] and [res.send] of a string
    fill in [application/json] and [text/html] when the handler set no
    type, and put [charset=utf-8] on the type in either case; [res.send]
    of a [Buffer] fills in [application/octet-stream] and leaves a type
    that is set alone. *)
Definition sent_type (r : Response) : Completion (option string) :=
  let type := getHeader "Content-Type" r in
  let with_charset (default : string) :=
    match type with
    | Some t =>
        if String.eqb t "" then Normal (Some default)
        else
          match setCharset t with
          | Normal t' => Normal (Some t')
          | Throw error => Throw error
          end
    | None => Normal (Some default)
    end in
  match body r with
  | NoBody => Normal type
  | SendBuffer _ =>
      Normal (if unset type then Some "application/octet-stream" else type)
  | SendText _ => with_charset "text/html; charset=utf-8"
  | JsonMessage _ | JsonFailure _ _ | JsonMedia _ | JsonUpload _ _ =>
      with_charset "application/json; charset=utf-8"
  end.

Inductive Method := GET | HEAD | POST | DELETE.

(** The request, as far as [res.send] looks at it: its method, and
    whether its validators ([If-None-Match], [If-Modified-Since],
    [Cache-Control]) are met by the [ETag] that [res.send] computes from
    the body, as the package fresh decides it. The handlers set neither
    [ETag] nor [Last-Modified]. *)
Record Request := {
  method : Method;
  validators_met : Body -> bool
}.

(** A [GET] without validators. *)
Definition plain_get : Request :=
  {| method := GET; validators_met := fun _ => false |}.

(** [req.fresh], when [res.send] reads it. *)
Definition req_fresh (req : Request) (r : Response) : bool :=
  match method req with
  | GET | HEAD =>
      (((200 <=? statusCode r) && (statusCode r <? 300))
       || (statusCode r =? 304))
      && validators_met req (body r)
  | POST | DELETE => false
  end.

(** What goes out: the status line, the two headers the handlers deal
    with, and the body ([NoBody]: none). *)
Record Wire := {
  wire_status : Z;
  wire_Content_Type : option string;
  wire_Content_Disposition : option string;
  wire_body : Body
}.

(** The rest of [res.send]: a fresh request is answered 304; a 204 or a
    304 goes out without [Content-Type] and without body; and a [HEAD]
    goes out without body. *)
Definition send (req : Request) (r : Response) : Completion Wire :=
  match sent_type r with
  | Throw error => Throw error
  | Normal type =>
      let status := if req_fresh req r then 304 else statusCode r in
      let bare := (status =? 204) || (status =? 304) in
      Normal
        {| wire_status := status;
           wire_Content_Type := if bare then None else type;
           wire_Content_Disposition := getHeader "Content-Disposition" r;
           wire_body :=
             match method req with
             | HEAD => NoBody
             | _ => if bare then NoBody else body r
             end |}
  end.

(** A route on a request. [res.json] or [res.send] is the last call of the
    [try] block or of the [catch] block of a handler: an error it throws
    in a [catch] block leaves the handler, and nothing is sent. *)
Definition respond (route : M World Response) (req : Request)
  : M World Wire :=
  fun w =>
    match route w with
    | (Normal r, w') => (send req r, w')
    | (Throw error, w') => (Throw error, w')
    end.

(** *** Histories of the registry *)

(** One thing that happens to the registry or its disk: a call of a method
    of [storage], or a change of the disk made by something else than the
    process. *)
Inductive Call :=
| GetAllMedia
| GetMediaById (id : Z)
| CreateMedia (insertMedia : InsertMedia.t) (fileData : bytes)
| DeleteMedia (id : Z)
| GetMediaFile (id : Z)
| DiskChanged (d : Disk).

(** What the caller gets back. *)
Inductive Outcome :=
| Listed (r : Completion (list MediaFile.t))
| Found (r : Completion (option MediaFile.t))
| Created (r : Completion MediaFile.t)
| Deleted (r : Completion bool)
| Read (r : Completion (option (bytes * MediaFile.t)))
| Elsewhere.

Definition call (c : Call) (w : World) : Outcome * World :=
  match c with
  | GetAllMedia => let (r, w') := getAllMedia w in (Listed r, w')
  | GetMediaById id => let (r, w') := getMediaById id w in (Found r, w')
  | CreateMedia insertMedia fileData =>
      let (r, w') := createMedia insertMedia fileData w in (Created r, w')
  | DeleteMedia id => let (r, w') := deleteMedia id w in (Deleted r, w')
  | GetMediaFile id => let (r, w') := getMediaFile id w in (Read r, w')
  | DiskChanged d => (Elsewhere, with_disk d w)
  end.

(** The calls one after the other, with what each returned, and the world
    they leave. *)
Fixpoint run (calls : list Call) (w : World) : list (Call * Outcome) * World :=
  match calls with
  | [] => ([], w)
  | c :: rest =>
      let (o, w1) := call c w in
      let (history, w2) := run rest w1 in
      ((c, o) :: history, w2)
  end.

(** The records the successful [createMedia] calls of a history returned,
    oldest first. *)
Fixpoint created_records (history : list (Call * Outcome)) : list MediaFile.t :=
  match history with
  | [] => []
  | (_, Created (Normal r)) :: rest => r :: created_records rest
  | _ :: rest => created_records rest
  end.

Definition created_ids (history : list (Call * Outcome)) : list Z :=
  List.map MediaFile.id (created_records history).

(** Some [deleteMedia(id)] of the history returned [true]. *)
Fixpoint was_deleted (id : Z) (history : list (Call * Outcome)) : bool :=
  match history with
  | [] => false
  | (DeleteMedia id', Deleted (Normal true)) :: rest =>
      Z.eqb id' id || was_deleted id rest
  | _ :: rest => was_deleted id rest
  end.

(** Every [createMedia] of the history returned a record. *)
Fixpoint all_created (history : list (Call * Outcome)) : bool :=
  match history with
  | [] => true
  | (CreateMedia _ _, Created (Normal _)) :: rest => all_created rest
  | (CreateMedia _ _, _) :: _ => false
  | _ :: rest => all_created rest
  end.

(** The records [createMedia] makes of [ms] when it numbers them from
    [first]. *)
Fixpoint numbered (first : Z) (ms : list InsertMedia.t) : list MediaFile.t :=
  match ms with
  | [] => []
  | m :: rest => spread_with_id m first :: numbered (first + 1) rest
  end.

(** The registry is consistent with its counter: a record is filed under
    its own id, the counter is past every id in use, and no id is used
    twice. *)
Definition registry_ok (s : MemStorage) : Prop :=
  Forall (fun kv => MediaFile.id (snd kv) = fst kv /\ fst kv < mediaCurrentId s)
    (media s)
  /\ List.NoDup (JsMap.keys (media s)).

(** *** What the routes report about one file of a batch *)

Definition is_success (r : UploadResult.t) : Prop :=
  UploadResult.status r = "success"
  /\ (exists id, UploadResult.id r = Some id)
  /\ UploadResult.message r = None.

Definition is_error (r : UploadResult.t) : Prop :=
  UploadResult.status r = "error"
  /\ UploadResult.id r = None
  /\ (exists message, UploadResult.message r = Some message).

End Server.

(** ** A platform to run the model on

    A disk made of regular files, some of them locked (present, but every
    access to them is refused), which may also be full; a Cloudinary account
    that answers the uploads with a prepared sequence of outcomes; a
    schema that refuses a [fileSize] outside the range of an [integer]
    column; [path.join] as POSIX has it; and a content-type that meets no
    type with parameters it would have to change. *)

Module Sim.

Inductive node :=
| Regular (data : bytes)
| Locked (data : bytes).

Record Disk := {
  nodes : gmap string node;
  full : bool
}.

Definition Cloud := list CloudOutcome.

Definition EACCES : thrown := ErrorObject "EACCES: permission denied".
Definition ENOENT : thrown := ErrorObject "ENOENT: no such file or directory".
Definition ENOSPC : thrown := ErrorObject "ENOSPC: no space left on device".

Definition sim_existsSync (path : string) (d : Disk) : bool :=
  match nodes d !! path with
  | Some _ => true
  | None => false
  end.

Definition sim_readFileSync (path : string) (d : Disk) : Completion bytes :=
  match nodes d !! path with
  | Some (Regular data) => Normal data
  | Some (Locked _) => Throw EACCES
  | None => Throw ENOENT
  end.

Definition sim_writeFileSync (path : string) (data : bytes) (d : Disk)
  : Completion unit * Disk :=
  if full d then (Throw ENOSPC, d)
  else
    match nodes d !! path with
    | Some (Locked _) => (Throw EACCES, d)
    | _ => (Normal tt, {| nodes := <[path := Regular data]> (nodes d);
                          full := full d |})
    end.

Definition sim_unlinkSync (path : string) (d : Disk) : Completion unit * Disk :=
  match nodes d !! path with
  | Some (Regular _) =>
      (Normal tt, {| nodes := delete path (nodes d); full := full d |})
  | Some (Locked _) => (Throw EACCES, d)
  | None => (Throw ENOENT, d)
  end.

(** The segments of a path between its [/]; [current] is the segment being
    read. *)
Fixpoint segments (current path : string) : list string :=
  match path with
  | EmptyString => [current]
  | String c rest =>
      if Ascii.eqb c "/" then current :: segments "" rest
      else segments (current ++ String c "") rest
  end.

(** The segments that stay, last first in [kept]: an empty segment and [.]
    go, and [..] takes the segment before it with it. *)
Fixpoint normalizeString (kept rest : list string) : list string :=
  match rest with
  | [] => rev kept
  | segment :: rest' =>
      if String.eqb segment "" || String.eqb segment "."
      then normalizeString kept rest'
      else if String.eqb segment ".."
      then normalizeString (tl kept) rest'
      else normalizeString (segment :: kept) rest'
  end.

(** [path.posix.join(dir, name)] for an absolute [dir]. *)
Definition sim_join (dir name : string) : string :=
  let joined := if String.eqb name "" then dir else dir ++ "/" ++ name in
  let parts := segments "" joined in
  let kept := normalizeString [] parts in
  let trailing :=
    match kept with
    | [] => false
    | _ => String.eqb (List.last parts "") ""
    end in
  "/" ++ String.concat "/" kept ++ (if trailing then "/" else "").

Definition sim_upload_stream (data : bytes) (c : Cloud) : CloudOutcome * Cloud :=
  match c with
  | [] => (CloudFailed OtherValue, [])
  | outcome :: rest => (outcome, rest)
  end.

Definition sim_parse (mediaData : InsertMedia.t) : Completion unit :=
  if InsertMedia.fileSize mediaData <=? 2147483647 then Normal tt
  else Throw (ErrorObject "Number must be less than or equal to 2147483647").

#[global] Instance platform : Platform Disk Cloud := {|
  existsSync := sim_existsSync;
  readFileSync := sim_readFileSync;
  writeFileSync := sim_writeFileSync;
  unlinkSync := sim_unlinkSync;
  path_join := sim_join;
  mediaDir := "/srv/media_storage";
  upload_stream := sim_upload_stream;
  toISOString := fun n => "2025-06-14T12:00:" ++ pretty (Z.of_nat n) ++ ".000Z";
  insertMediaSchema_parse := sim_parse;
  contentType_setCharset := fun type => Normal type
|}.

(** An empty disk with room on it, and the same disk when it is full. *)
Definition empty_disk : Disk := {| nodes := ∅; full := false |}.
Definition full_disk : Disk := {| nodes := ∅; full := true |}.

(** [chmod 000] on a file. *)
Definition lock (path : string) (d : Disk) : Disk :=
  {| nodes :=
       match nodes d !! path with
       | Some (Regular data) => <[path := Locked data]> (nodes d)
       | _ => nodes d
       end;
     full := full d |}.

Definition photo : InsertMedia.t :=
  {| InsertMedia.fileName := "beach.jpg";
     InsertMedia.fileType := "image/jpeg";
     InsertMedia.fileSize := 3;
     InsertMedia.uploadDate := "2025-06-14T12:00:00.000Z";
     InsertMedia.metadata := Some (JObj [("originalName", JStr "beach.jpg")]) |}.

Definition clip : InsertMedia.t :=
  {| InsertMedia.fileName := "dance.mp4";
     InsertMedia.fileType := "video/mp4";
     InsertMedia.fileSize := 2;
     InsertMedia.uploadDate := "2025-06-14T12:05:00.000Z";
     InsertMedia.metadata := None |}.

Definition photo_bytes : bytes := [xff; xd8; xff].
Definition clip_bytes : bytes := [x00; x01].

(** The process after start-up on the empty disk. *)
Definition fresh : @World Disk Cloud := boot empty_disk [].

(** The world a computation leaves behind. *)
Definition after {A} (c : M (@World Disk Cloud) A) (w : @World Disk Cloud)
  : @World Disk Cloud := snd (c w).

(** [beach.jpg] was stored as record 1. *)
Definition one_photo : @World Disk Cloud :=
  after (createMedia photo photo_bytes) fresh.

(** The same, after the blob of record 1 was locked from outside. *)
Definition one_photo_locked : @World Disk Cloud :=
  with_disk (lock (filePath 1 "beach.jpg") (disk one_photo)) one_photo.

(** [beach.jpg] is record 1 and [dance.mp4] record 2. *)
Definition album : @World Disk Cloud :=
  after (createMedia clip clip_bytes) one_photo.

(** A photo of exactly [limits.fileSize] bytes. *)
Definition large_photo : Part.t :=
  {| Part.originalname := "large.jpg"; Part.mimetype := "image/jpeg";
     Part.content := List.repeat x00 (Z.to_nat fileSizeLimit) |}.

(** A batch of three parts: a photo, a text file and a video. *)
Definition batch : list Part.t :=
  [ {| Part.originalname := "beach.jpg"; Part.mimetype := "image/jpeg";
       Part.content := photo_bytes |};
    {| Part.originalname := "notes.txt"; Part.mimetype := "text/plain";
       Part.content := [x68; x69] |};
    {| Part.originalname := "dance.mp4"; Part.mimetype := "video/mp4";
       Part.content := clip_bytes |} ].

End Sim.

(** ** The claims as the specification words them, where the program
    differs *)

(** [deleteMedia] as specified: [false] when there is no such record, and
    otherwise [true] with the registry entry gone, whatever happened to the
    blob. *)
Definition deleteMedia_as_specified {Disk Cloud} `{Platform Disk Cloud}
    (id : Z) (w : @World Disk Cloud) : Prop :=
  match JsMap.get id (media (storage w)) with
  | None => fst (deleteMedia id w) = Normal false
  | Some _ =>
      fst (deleteMedia id w) = Normal true
      /\ JsMap.get id (media (storage (snd (deleteMedia id w)))) = None
  end.

(** The thumbnail of an image as specified: when the record is registered,
    is not a video and its blob exists, the body is the body of the direct
    get. *)
Definition image_thumbnail_as_specified {Disk Cloud} `{Platform Disk Cloud}
    (id_param : string) (w : @World Disk Cloud) : Prop :=
  forall id m,
    parseInt id_param = Some id ->
    JsMap.get id (media (storage w)) = Some m ->
    startsWith (MediaFile.fileType m) "video/" = false ->
    existsSync (filePath id (MediaFile.fileName m)) (disk w) = true ->
    forall r_thumbnail r_get,
      fst (thumbnail_media id_param w) = Normal r_thumbnail ->
      fst (get_media id_param w) = Normal r_get ->
      body r_thumbnail = body r_get.

(** A numeric string: one or more decimal digits. *)
Definition is_decimal_digit (c : ascii) : bool :=
  let n := N_of_ascii c in ((48 <=? n) && (n <=? 57))%N.

Definition is_numeric (s : string) : bool :=
  negb (String.eqb s "") && forallb is_decimal_digit (list_ascii_of_string s).

(** The three read routes answer [code]. *)
Definition read_routes_answer {Disk Cloud} `{Platform Disk Cloud}
    (code : Z) (id_param : string) (w : @World Disk Cloud) : Prop :=
  (exists r, fst (get_media id_param w) = Normal r /\ statusCode r = code)
  /\ (exists r, fst (download_media id_param w) = Normal r /\ statusCode r = code)
  /\ (exists r, fst (thumbnail_media id_param w) = Normal r /\ statusCode r = code).

(** Invalid ids as specified: every string that is not numeric is answered
    400. *)
Definition non_numeric_is_400_as_specified {Disk Cloud} `{Platform Disk Cloud}
    (id_param : string) (w : @World Disk Cloud) : Prop :=
  is_numeric id_param = false -> read_routes_answer 400 id_param w.

(** ** server/index.ts *)

(** An error that reaches the error middleware: [err.status],
    [err.statusCode] and [err.message], [None] for [undefined]. *)
Record ErrorValue := {
  err_status : option Z;
  err_statusCode : option Z;
  err_message : option string
}.

(** The [MulterError] of a code: it has the message of the code and no
    status. *)
Definition MulterError_value (code : string) : ErrorValue :=
  {| err_status := None;
     err_statusCode := None;
     err_message :=
       if String.eqb code "LIMIT_FILE_SIZE" then Some "File too large"
       else None |}.

(** [a || b] on a number that may be [undefined]. *)
Definition or_number (a : option Z) (b : Z) : Z :=
  match a with
  | Some n => if n =? 0 then b else n
  | None => b
  end.

(** The error middleware: the response it sends; it throws [err] again
    once the response is out. *)
Definition error_middleware (err : ErrorValue) : Response :=
  let status := or_number (err_status err) (or_number (err_statusCode err) 500) in
  let message :=
    match err_message err with
    | Some m => if String.eqb m "" then "Internal Server Error" else m
    | None => "Internal Server Error"
    end in
  res_end (JsonMessage message) (res_status status res).

(** [logLine] after the length check of the request logger; a line is its
    sequence of UTF-16 code units, and 8230 is the ellipsis. *)
Definition truncate_logLine (logLine : list N) : list N :=
  if (80 <? length logLine)%nat
  then (firstn 79 logLine ++ [8230%N])%list
  else logLine.

(** ** client: the gallery and the viewer *)

(** [`/api/media/${media.id}`], as the viewer and the gallery build it: the
    text that reaches the routes as [req.params.id]. *)
Definition id_in_url (media : MediaFile.t) : string :=
  pretty (MediaFile.id media).

(** The filter buttons of the gallery. *)
Inductive GalleryFilter := FilterAll | FilterPhotos | FilterVideos.

(** [filteredMedia] of [GallerySection]; [mediaItems] is [None] while the
    query has no data. *)
Definition filteredMedia (filter : GalleryFilter)
    (mediaItems : option (list MediaFile.t)) : list MediaFile.t :=
  match mediaItems with
  | None => []
  | Some items =>
      List.filter
        (fun item =>
           match filter with
           | FilterAll => true
           | FilterPhotos => startsWith (MediaFile.fileType item) "image/"
           | FilterVideos => startsWith (MediaFile.fileType item) "video/"
           end)
        items
  end.

Inductive Direction := Prev | Next.

(** The state [handleNavigate] sets: [selectedMedia] and [selectedIndex]. *)
Record Viewer := {
  selectedMedia : option MediaFile.t;
  selectedIndex : Z
}.

(** [array[i]]: [None] is [undefined]. *)
Definition at_index {A} (array : list A) (i : Z) : option A :=
  if i <? 0 then None else nth_error array (Z.to_nat i).

(** [handleNavigate(direction)] over the filtered list; [%] is the
    remainder of the truncated division. *)
Definition handleNavigate (direction : Direction)
    (filtered : list MediaFile.t) (viewer : Viewer) : Viewer :=
  let len := Z.of_nat (length filtered) in
  if len =? 0 then viewer
  else
    let newIndex :=
      match direction with
      | Prev => Z.rem (selectedIndex viewer - 1 + len) len
      | Next => Z.rem (selectedIndex viewer + 1) len
      end in
    {| selectedMedia := at_index filtered newIndex;
       selectedIndex := newIndex |}.

(** ** client: the upload form *)

(** A [File] of the browser. *)
Module ClientFile.
Record t := mk {
  name : string;
  type : string;
  content : bytes
}.
End ClientFile.

Module Toast.
Record t := mk {
  title : string;
  description : string
}.
End Toast.

(** The state of [UploadSection]. *)
Module UploadForm.
Record t := mk {
  files : list ClientFile.t;
  uploadProgress : Z;
  isUploading : bool
}.
End UploadForm.

(** The test of [handleDrop]. *)
Definition is_media_file (file : ClientFile.t) : bool :=
  startsWith (ClientFile.type file) "image/"
  || startsWith (ClientFile.type file) "video/".

Definition handleDrop (droppedFiles : list ClientFile.t) (form : UploadForm.t)
  : UploadForm.t * option Toast.t :=
  let mediaFiles := List.filter is_media_file droppedFiles in
  if (length mediaFiles =? 0)%nat
  then (form,
        Some (Toast.mk "Invalid files" "Please drop only image or video files."))
  else (UploadForm.mk mediaFiles (UploadForm.uploadProgress form)
          (UploadForm.isUploading form),
        None).

(** [target_files] is [e.target.files]. *)
Definition handleFileChange (target_files : option (list ClientFile.t))
    (form : UploadForm.t) : UploadForm.t :=
  match target_files with
  | Some (first :: _) =>
      UploadForm.mk [first] (UploadForm.uploadProgress form)
        (UploadForm.isUploading form)
  | _ => form
  end.

(** The parts of the request body: [formData.append('media', file)] for
    each file. *)
Definition formData (files : list ClientFile.t) : list Part.t :=
  List.map
    (fun file =>
       {| Part.originalname := ClientFile.name file;
          Part.mimetype := ClientFile.type file;
          Part.content := ClientFile.content file |})
    files.

(** The updater the interval passes to [setUploadProgress]. *)
Definition progress_tick (prev : Z) : Z :=
  if prev >=? 95 then 95 else prev + 5.

(** How [await fetch(...)] ends: it resolves whatever the status of the
    response, and rejects when no response arrives. *)
Inductive Fetch := Resolves (status : Z) | Rejects.

(** [handleUpload], up to the toast; the form is as it is then, before the
    timer resets it. *)
Definition handleUpload (fetch : list Part.t -> Fetch) (form : UploadForm.t)
  : UploadForm.t * Toast.t :=
  let files := UploadForm.files form in
  if (length files =? 0)%nat
  then (form,
        Toast.mk "No files to upload"
          "Please select or capture media files first.")
  else
    match fetch (formData files) with
    | Resolves _ =>
        (UploadForm.mk files 100 true,
         Toast.mk "Upload successful"
           (pretty (length files) ++ " media file(s) uploaded."))
    | Rejects =>
        (UploadForm.mk files 0 false,
         Toast.mk "Upload failed"
           "There was an error uploading your media. Please try again.")
    end.

(** ** Requests, histories and invariants

    What the further properties of the code are stated with. *)

(** [`${id}_${fileName}`], the key of a blob inside [mediaDir]: the second
    argument of [path.join] in [filePath]. *)
Definition blobKey (id : Z) (fileName : string) : string :=
  pretty id ++ "_" ++ fileName.

Definition all_decimal_digits (s : string) : bool :=
  forallb is_decimal_digit (list_ascii_of_string s).

Definition no_slash (s : string) : bool :=
  forallb (fun c => negb (Ascii.eqb c "/")) (list_ascii_of_string s).

(** A file name without a path separator, [/] or the backslash. *)
Definition plain_name (fileName : string) : bool :=
  forallb (fun c => negb (Ascii.eqb c "/" || Ascii.eqb c (ascii_of_nat 92)))
    (list_ascii_of_string fileName).

Definition no_underscore (s : string) : bool :=
  forallb (fun c => negb (Ascii.eqb c "_")) (list_ascii_of_string s).

(** [fileType] is one the upload filter lets through. *)
Definition media_type (fileType : string) : bool :=
  startsWith fileType "image/" || startsWith fileType "video/".

(** The ids of the elements of [results] that have one, in order. *)
Definition success_ids (results : list UploadResult.t) : list Z :=
  flat_map
    (fun result =>
       match UploadResult.id result with Some id => [id] | None => [] end)
    results.

(** The users [createUser] makes of [insertUsers] when it numbers them from
    [first]. *)
Fixpoint numbered_users (first : Z) (insertUsers : list InsertUser.t)
  : list User.t :=
  match insertUsers with
  | [] => []
  | insertUser :: rest =>
      spread_user_with_id insertUser first :: numbered_users (first + 1) rest
  end.

(** The viewer shows the item of the list at its index. *)
Definition shows (filtered : list MediaFile.t) (viewer : Viewer) : Prop :=
  0 <= selectedIndex viewer < Z.of_nat (length filtered)
  /\ selectedMedia viewer = at_index filtered (selectedIndex viewer)
  /\ exists item, selectedMedia viewer = Some item.

Section Invariants.
Context {Disk Cloud : Type} {P : Platform Disk Cloud}.

Local Abbreviation W := (@World Disk Cloud).

Implicit Types (w : W) (r : MediaFile.t) (data : bytes).

(** [POST /api/media/upload] with the parts of the field [media]: the
    middleware [upload.array] and then the handler. [None] when the
    middleware ends the request with an error, which the handler never
    sees. *)
Definition post_upload (route : option (list File.t) -> M W Response)
    (parts : list Part.t) w : option (Completion Response * W) :=
  match upload_array parts with
  | MulterFiles files => Some (route (Some files) w)
  | MulterError _ => None
  end.

(** [POST /api/media/upload] with the parts of the field [media], whatever
    [upload.array] makes of them: it calls the handler, or it passes its
    error to the error middleware of [server/index.ts]. *)
Definition upload_request (route : option (list File.t) -> M W Response)
    (parts : list Part.t) : M W Response :=
  match upload_array parts with
  | MulterFiles files => route (Some files)
  | MulterError code => ret (error_middleware (MulterError_value code))
  end.

(** The batch as specified: whenever a part passes the filter, the answer
    is 201 with the results. *)
Definition batch_answers_201_as_specified
    (route : option (list File.t) -> M W Response) (parts : list Part.t) w
  : Prop :=
  List.filter fileFilter parts <> [] ->
  exists results w',
    upload_request route parts w
    = (Normal
         (res_end (JsonUpload "Files processed" results) (res_status 201 res)),
       w').

(** What the [catch] block of a read route does with [res] as it is when
    the error arrives: it logs the error and answers 500. *)
Definition caught (label message : string) (error : thrown) (r : Response) w
  : Completion Response * W :=
  (Normal (res_end (JsonMessage message) (res_status 500 r)),
   with_console (console w ++ [[Str label; Err error]]) w).

(** [createUser] for each element of [insertUsers], in order. *)
Fixpoint create_users (insertUsers : list InsertUser.t) w : list User.t * W :=
  match insertUsers with
  | [] => ([], w)
  | insertUser :: rest =>
      match createUser insertUser w with
      | (Normal user, w1) =>
          let (created, w2) := create_users rest w1 in (user :: created, w2)
      | (Throw _, w1) => ([], w1)
      end
  end.

(** What the invariant of the blobs asks of the disk: a file written
    without an error is there and reads back as written; writing or
    unlinking a path, successfully or not, leaves every other path as it
    was; an unlink that throws leaves its own path as it was; and
    [path.join] keeps the keys of two blobs apart when neither file name
    has a path separator in it. ([path.join] normalises its result: a file
    name with [/../] in it reaches the blob of another record.) *)
Record faithful_disk : Prop := {
  written_is_read : write_then_read;
  write_elsewhere :
    forall path other data (d d' : Disk) result,
      writeFileSync path data d = (result, d') ->
      other <> path ->
      existsSync other d' = existsSync other d
      /\ readFileSync other d' = readFileSync other d;
  unlink_elsewhere :
    forall path other (d d' : Disk) result,
      unlinkSync path d = (result, d') ->
      other <> path ->
      existsSync other d' = existsSync other d
      /\ readFileSync other d' = readFileSync other d;
  unlink_failed :
    forall path (d d' : Disk) e,
      unlinkSync path d = (Throw e, d') ->
      existsSync path d' = existsSync path d
      /\ readFileSync path d' = readFileSync path d;
  join_keeps_blob_keys_apart :
    forall id1 id2 fileName1 fileName2,
      plain_name fileName1 = true ->
      plain_name fileName2 = true ->
      filePath id1 fileName1 = filePath id2 fileName2 ->
      blobKey id1 fileName1 = blobKey id2 fileName2
}.

(** The record [r] is registered under a plain file name and its blob
    holds [data]. *)
Definition serves w r data : Prop :=
  JsMap.get (MediaFile.id r) (media (storage w)) = Some r
  /\ MediaFile.id r < mediaCurrentId (storage w)
  /\ plain_name (MediaFile.fileName r) = true
  /\ existsSync (filePath (MediaFile.id r) (MediaFile.fileName r)) (disk w)
     = true
  /\ readFileSync (filePath (MediaFile.id r) (MediaFile.fileName r)) (disk w)
     = Normal data.

(** The records the successful [createMedia] calls of a history returned,
    each with the bytes it was created with. *)
Fixpoint created_blobs (history : list (@Call Disk * Outcome))
  : list (MediaFile.t * bytes) :=
  match history with
  | [] => []
  | (CreateMedia _ fileData, Created (Normal r)) :: rest =>
      (r, fileData) :: created_blobs rest
  | _ :: rest => created_blobs rest
  end.

(** Nothing but the process changes the disk. *)
Definition undisturbed (calls : list (@Call Disk)) : bool :=
  forallb (fun c => match c with DiskChanged _ => false | _ => true end) calls.

(** Every record of the registry has a plain file name. *)
Definition plain_registry w : Prop :=
  Forall (fun r => plain_name (MediaFile.fileName r) = true)
    (JsMap.values (media (storage w))).

(** Every file name given to [createMedia] is plain. *)
Definition plain_names (calls : list (@Call Disk)) : bool :=
  forallb
    (fun c =>
       match c with
       | CreateMedia insertMedia _ =>
           plain_name (InsertMedia.fileName insertMedia)
       | _ => true
       end)
    calls.

(** What one turn of an upload loop does to the counter, and which id it
    reports. *)
Definition step_counts (step : File.t -> M W UploadResult.t) : Prop :=
  forall file w,
    exists result w',
      step file w = (Normal result, w')
      /\ mediaCurrentId (storage w) <= mediaCurrentId (storage w')
      /\ (registry_ok (storage w) -> registry_ok (storage w'))
      /\ forall id,
           UploadResult.id result = Some id ->
           mediaCurrentId (storage w) <= id < mediaCurrentId (storage w').

(** One turn of an upload loop on a file with a plain name keeps the blobs
    that are served, and a turn that reports an id has stored the buffer of
    its file under that id. *)
Definition step_stores (step : File.t -> M W UploadResult.t) : Prop :=
  forall file w,
    plain_name (File.originalname file) = true ->
    exists result w',
      step file w = (Normal result, w')
      /\ (forall r data, serves w r data -> serves w' r data)
      /\ forall id,
           UploadResult.id result = Some id ->
           exists r,
             MediaFile.id r = id
             /\ MediaFile.fileName r = File.originalname file
             /\ MediaFile.fileType r = File.mimetype file
             /\ serves w' r (File.buffer file).

(** Every record of the registry has a type the upload filter accepts. *)
Definition only_media w : Prop :=
  Forall (fun r => media_type (MediaFile.fileType r) = true)
    (JsMap.values (media (storage w))).

End Invariants.

(** ** Facts about [JsMap] *)

Lemma jsmap_get_set_eq {V} (k : Z) (v : V) (m : JsMap.t V) :
  JsMap.get k (JsMap.set k v m) = Some v.
Proof.
  induction m as [|[k' v'] m IH]; simpl.
  - now rewrite Z.eqb_refl.
  - destruct (Z.eqb k' k) eqn:E; simpl; rewrite E; auto.
Qed.

Lemma jsmap_get_set_ne {V} (k j : Z) (v : V) (m : JsMap.t V) :
  k <> j -> JsMap.get j (JsMap.set k v m) = JsMap.get j m.
Proof.
  intros Hne. induction m as [|[k' v'] m IH]; simpl.
  - destruct (Z.eqb_spec k j); congruence.
  - destruct (Z.eqb_spec k' k) as [->|Hk]; simpl.
    + destruct (Z.eqb_spec k j); congruence.
    + destruct (Z.eqb k' j); auto.
Qed.

Lemma jsmap_get_delete_eq {V} (k : Z) (m : JsMap.t V) :
  JsMap.get k (JsMap.delete k m) = None.
Proof.
  unfold JsMap.delete. induction m as [|[k' v'] m IH]; simpl; auto.
  destruct (Z.eqb k' k) eqn:E; simpl; auto. now rewrite E.
Qed.

Lemma jsmap_get_delete_ne {V} (k j : Z) (m : JsMap.t V) :
  k <> j -> JsMap.get j (JsMap.delete k m) = JsMap.get j m.
Proof.
  intros Hne. unfold JsMap.delete.
  induction m as [|[k' v'] m IH]; simpl; auto.
  destruct (Z.eqb_spec k' k) as [->|Hk]; simpl.
  - destruct (Z.eqb_spec k j); congruence.
  - now rewrite IH.
Qed.

Lemma jsmap_get_In {V} (k : Z) (v : V) (m : JsMap.t V) :
  JsMap.get k m = Some v -> In (k, v) m.
Proof.
  induction m as [|[k' v'] m IH]; simpl; [discriminate|].
  destruct (Z.eqb_spec k' k) as [->|Hk]; intros E.
  - left. congruence.
  - right. auto.
Qed.

Lemma jsmap_get_None {V} (k : Z) (m : JsMap.t V) :
  JsMap.get k m = None <-> ~ In k (JsMap.keys m).
Proof.
  unfold JsMap.keys. induction m as [|[k' v'] m IH]; simpl.
  - tauto.
  - destruct (Z.eqb_spec k' k) as [->|Hk].
    + split; [discriminate|]. intros Hn. exfalso. apply Hn. now left.
    + rewrite IH. tauto.
Qed.

(** A new key goes to the end. *)
Lemma jsmap_set_fresh {V} (k : Z) (v : V) (m : JsMap.t V) :
  JsMap.get k m = None -> JsMap.set k v m = (m ++ [(k, v)])%list.
Proof.
  induction m as [|[k' v'] m IH]; simpl; auto.
  destruct (Z.eqb k' k); [discriminate|]. intros E. now rewrite IH.
Qed.

(** ** Facts about [parseInt] *)

Lemma digit_not_white_space (c : ascii) :
  is_decimal_digit c = true -> is_white_space c = false.
Proof.
  unfold is_decimal_digit, is_white_space. cbv zeta.
  intros Hd. apply andb_prop in Hd as [Hlo Hhi].
  apply N.leb_le in Hlo, Hhi.
  repeat (apply orb_false_intro); apply N.eqb_neq; lia.
Qed.

Lemma digit_not_hex_mark (c : ascii) :
  is_decimal_digit c = true ->
  Ascii.eqb c "x" || Ascii.eqb c "X" = false.
Proof.
  intros Hd. apply orb_false_intro; apply Ascii.eqb_neq; intros ->;
    discriminate Hd.
Qed.

(** A numeric string is never taken for [NaN]: the routes answer it by its
    value. *)
Lemma numeric_is_parsed (s : string) :
  is_numeric s = true -> exists n, parseInt s = Some n.
Proof.
  unfold is_numeric. destruct s as [|c rest]; [discriminate|].
  simpl. intros Hd. apply andb_prop in Hd as [Hc Hrest].
  unfold parseInt. simpl. rewrite (digit_not_white_space c Hc).
  destruct c as [[] [] [] [] [] [] [] []]; try discriminate Hc;
    try (simpl; eauto).
  destruct rest as [|x rest']; [simpl; eauto|].
  simpl in Hrest. apply andb_prop in Hrest as [Hx _].
  rewrite (digit_not_hex_mark x Hx). simpl. eauto.
Qed.

(** ** Properties of the registry and of the routes *)

Section Properties.
Context {Disk Cloud : Type} {P : Platform Disk Cloud}.

Local Abbreviation W := (@World Disk Cloud).

Implicit Types (w : W) (id : Z) (m : MediaFile.t).

(** [getMediaFile] never throws and never changes the registry or the
    disk. *)
Lemma getMediaFile_returns id w :
  exists r w',
    getMediaFile id w = (Normal r, w')
    /\ storage w' = storage w /\ disk w' = disk w.
Proof.
  unfold getMediaFile, bind, media_get, try_catch, fs_existsSync,
    fs_readFileSync, console_error, ret.
  destruct (JsMap.get id (media (storage w))) as [m|]; [|eauto].
  destruct (existsSync _ (disk w)); simpl; [|eauto].
  destruct (readFileSync _ (disk w)); simpl; eauto.
Qed.

(** What [getMediaFile] returns, case by case. *)
Lemma getMediaFile_cases id w :
  fst (getMediaFile id w) =
    Normal
      match JsMap.get id (media (storage w)) with
      | None => None
      | Some m =>
          if existsSync (filePath id (MediaFile.fileName m)) (disk w) then
            match readFileSync (filePath id (MediaFile.fileName m)) (disk w) with
            | Normal data => Some (data, m)
            | Throw _ => None
            end
          else None
      end.
Proof.
  unfold getMediaFile, bind, media_get, try_catch, fs_existsSync,
    fs_readFileSync, console_error, ret.
  destruct (JsMap.get id (media (storage w))) as [m|]; [|reflexivity].
  destruct (existsSync _ (disk w)); simpl; [|reflexivity].
  destruct (readFileSync _ (disk w)); reflexivity.
Qed.

(** C9. [getMediaFile(id)] returns [undefined] exactly when no record has
    that id, or the record is there and its blob is missing
    ([existsSync] is false) or unreadable ([readFileSync] throws); in every
    other case it returns the bytes read together with the record. It never
    throws. *)
Theorem getMediaFile_not_found_iff id w :
  (fst (getMediaFile id w) = Normal None <->
     JsMap.get id (media (storage w)) = None
     \/ exists m,
          JsMap.get id (media (storage w)) = Some m
          /\ (existsSync (filePath id (MediaFile.fileName m)) (disk w) = false
              \/ exists e,
                   readFileSync (filePath id (MediaFile.fileName m)) (disk w)
                   = Throw e))
  /\ (fst (getMediaFile id w) <> Normal None ->
      exists m data,
        JsMap.get id (media (storage w)) = Some m
        /\ readFileSync (filePath id (MediaFile.fileName m)) (disk w)
           = Normal data
        /\ fst (getMediaFile id w) = Normal (Some (data, m))).
Proof.
  rewrite getMediaFile_cases.
  destruct (JsMap.get id (media (storage w))) as [m|] eqn:Hget;
    [destruct (existsSync _ (disk w)) eqn:Hex;
     [destruct (readFileSync _ (disk w)) as [data|e] eqn:Hrd|]|].
  - split; [split; [discriminate|]|intros _; eauto].
    intros [?|(m' & Hm' & [?|[e He]])]; congruence.
  - split; [split; [|reflexivity]|congruence]. intros _. right. eauto.
  - split; [split; [|reflexivity]|congruence]. intros _. right. eauto.
  - split; [split; auto|congruence].
Qed.

(** [createMedia], case by case on what the write does: the id is taken
    from the counter first, and the record is registered only after the
    write returned. *)
Lemma createMedia_cases (im : InsertMedia.t) (data : bytes) w :
  createMedia im data w =
    let id := mediaCurrentId (storage w) in
    let r := spread_with_id im id in
    let s := set_mediaCurrentId (id + 1) (storage w) in
    match writeFileSync (filePath id (InsertMedia.fileName im)) data (disk w) with
    | (Normal _, d) =>
        (Normal r,
         with_storage (set_media (JsMap.set id r (media s)) s)
           (with_disk d (with_storage s w)))
    | (Throw e, d) => (Throw e, with_disk d (with_storage s w))
    end.
Proof.
  unfold createMedia, bind, mediaCurrentId_post_incr, fs_writeFileSync,
    media_set, ret. simpl.
  destruct (writeFileSync _ data (disk w)) as [[[]|e] d]; reflexivity.
Qed.

(** [deleteMedia], case by case on what the disk does. *)
Lemma deleteMedia_cases id w :
  deleteMedia id w =
    match JsMap.get id (media (storage w)) with
    | None => (Normal false, w)
    | Some m =>
        let path := filePath id (MediaFile.fileName m) in
        let s := set_media (JsMap.delete id (media (storage w))) (storage w) in
        if existsSync path (disk w) then
          match unlinkSync path (disk w) with
          | (Normal _, d) => (Normal true, with_storage s (with_disk d w))
          | (Throw e, d) =>
              (Normal false,
               with_console
                 (console w ++ [[Str "Error deleting media:"; Err e]])
                 (with_disk d w))
          end
        else (Normal true, with_storage s w)
    end.
Proof.
  unfold deleteMedia, bind, media_get, try_catch, fs_existsSync,
    fs_unlinkSync, media_delete, console_error, ret.
  destruct (JsMap.get id (media (storage w))) as [m|]; [|reflexivity].
  destruct (existsSync _ (disk w)); simpl; [|reflexivity].
  destruct (unlinkSync _ (disk w)) as [[[]|e] d]; reflexivity.
Qed.

(** C1, as the program has it. [deleteMedia(id)] never throws. It returns
    [false] and changes nothing when no record has the id. Otherwise it
    unlinks the blob if the blob exists. When the blob is absent or the
    unlink returns, the registry entry of [id] is removed (the other entries
    stay) and the result is [true]. When the unlink throws, the error is
    logged with [console.error] and not propagated, the registry is left as
    it was, the entry of [id] included, and the result is [false]. *)
Theorem deleteMedia_outcome id w :
  exists result w',
    deleteMedia id w = (Normal result, w')
    /\ match JsMap.get id (media (storage w)) with
       | None => result = false /\ w' = w
       | Some m =>
           let path := filePath id (MediaFile.fileName m) in
           let removed :=
             result = true
             /\ JsMap.get id (media (storage w')) = None
             /\ (forall j, j <> id ->
                   JsMap.get j (media (storage w'))
                   = JsMap.get j (media (storage w)))
             /\ console w' = console w in
           if existsSync path (disk w) then
             match fst (unlinkSync path (disk w)) with
             | Normal _ =>
                 removed /\ disk w' = snd (unlinkSync path (disk w))
             | Throw e =>
                 result = false
                 /\ storage w' = storage w
                 /\ JsMap.get id (media (storage w')) = Some m
                 /\ console w'
                    = (console w ++ [[Str "Error deleting media:"; Err e]])%list
             end
           else removed /\ disk w' = disk w
       end.
Proof.
  rewrite deleteMedia_cases.
  destruct (JsMap.get id (media (storage w))) as [m|] eqn:Hget;
    [|eauto].
  cbv zeta.
  destruct (existsSync _ (disk w)).
  - destruct (unlinkSync _ (disk w)) as [[[]|e] d]; simpl;
      do 2 eexists; (split; [reflexivity|]); simpl.
    + repeat split; auto using jsmap_get_delete_eq.
      intros j Hj. now apply jsmap_get_delete_ne.
    + auto.
  - do 2 eexists. split; [reflexivity|]. simpl.
    repeat split; auto using jsmap_get_delete_eq.
    intros j Hj. now apply jsmap_get_delete_ne.
Qed.

(** C4. When the file system keeps what it is given ([write_then_read]) and
    [createMedia(m, b)] returns a record, the record is [m] with an [id]
    added and every other field as passed in ([uploadDate] included), and
    [getMediaFile] on that id, called next, returns exactly the bytes [b]
    with that record. *)
Theorem createMedia_getMediaFile_round_trip
    (im : InsertMedia.t) (data : bytes) w (r : MediaFile.t) w' :
  write_then_read ->
  createMedia im data w = (Normal r, w') ->
  r = spread_with_id im (MediaFile.id r)
  /\ MediaFile.fileName r = InsertMedia.fileName im
  /\ MediaFile.fileType r = InsertMedia.fileType im
  /\ MediaFile.fileSize r = InsertMedia.fileSize im
  /\ MediaFile.uploadDate r = InsertMedia.uploadDate im
  /\ MediaFile.metadata r = InsertMedia.metadata im
  /\ getMediaFile (MediaFile.id r) w' = (Normal (Some (data, r)), w').
Proof.
  intros Hfs. rewrite createMedia_cases. cbv zeta.
  destruct (writeFileSync _ data (disk w)) as [[[]|e] d] eqn:Hw;
    [|discriminate].
  intros [= <- <-]. simpl.
  repeat split.
  apply Hfs in Hw as [Hex Hrd].
  unfold getMediaFile, bind, media_get, try_catch, fs_existsSync,
    fs_readFileSync, ret. simpl.
  rewrite jsmap_get_set_eq. simpl. rewrite Hex. simpl. rewrite Hrd.
  reflexivity.
Qed.

(** *** Histories *)

(** What one call does to the registry and its counter. *)
Lemma call_effect (c : Call) w :
  let s := storage w in
  let n := mediaCurrentId s in
  match fst (call c w) with
  | Created (Normal r) =>
      exists im data,
        c = CreateMedia im data
        /\ r = spread_with_id im n
        /\ storage (snd (call c w))
           = set_media (JsMap.set n r (media s)) (set_mediaCurrentId (n + 1) s)
  | Created (Throw _) =>
      storage (snd (call c w)) = set_mediaCurrentId (n + 1) s
  | Deleted (Normal true) =>
      exists id,
        c = DeleteMedia id
        /\ JsMap.get id (media s) <> None
        /\ storage (snd (call c w)) = set_media (JsMap.delete id (media s)) s
  | _ => storage (snd (call c w)) = s
  end.
Proof.
  destruct c as [|id|im data|id|id|d]; simpl; try reflexivity.
  - rewrite createMedia_cases. cbv zeta.
    destruct (writeFileSync _ data (disk w)) as [[[]|e] d]; simpl; eauto.
  - rewrite deleteMedia_cases.
    destruct (JsMap.get id (media (storage w))) as [m|] eqn:Hget;
      [|reflexivity].
    cbv zeta. destruct (existsSync _ (disk w)).
    + destruct (unlinkSync _ (disk w)) as [[[]|e] d']; simpl; auto.
      exists id. rewrite Hget. auto.
    + simpl. exists id. rewrite Hget. auto.
  - destruct (getMediaFile_returns id w) as (r & w' & -> & Hs & _).
    simpl. auto.
Qed.

Lemma registry_ok_fresh (s : MemStorage) :
  registry_ok s -> JsMap.get (mediaCurrentId s) (media s) = None.
Proof.
  intros [Hall _]. apply jsmap_get_None. unfold JsMap.keys.
  rewrite List.in_map_iff. intros ([k v] & Hk & Hin). simpl in Hk. subst k.
  rewrite List.Forall_forall in Hall. apply Hall in Hin. simpl in Hin. lia.
Qed.

Lemma jsmap_keys_delete {V} (k : Z) (m : JsMap.t V) :
  JsMap.keys (JsMap.delete k m)
  = List.filter (fun j => negb (Z.eqb j k)) (JsMap.keys m).
Proof.
  unfold JsMap.keys, JsMap.delete.
  induction m as [|[k' v] m IH]; simpl; auto.
  destruct (Z.eqb k' k); simpl; now rewrite IH.
Qed.

Lemma registry_ok_boot : registry_ok new_MemStorage.
Proof. split; constructor. Qed.

(** Every call keeps the registry consistent. *)
Lemma registry_ok_call (c : Call) w :
  registry_ok (storage w) -> registry_ok (storage (snd (call c w))).
Proof.
  intros Hok. pose proof (call_effect c w) as He. cbv zeta in He.
  destruct (fst (call c w)) as [r|r|[r|e]|[[]|e]|r|];
    try (now rewrite He).
  - destruct He as (im & data & _ & -> & ->).
    pose proof (registry_ok_fresh _ Hok) as Hfresh.
    destruct Hok as [Hall Hnd].
    unfold registry_ok. simpl. rewrite jsmap_set_fresh by assumption.
    split.
    + apply List.Forall_app. split.
      * eapply List.Forall_impl; [|exact Hall]. simpl. intros kv [? ?].
        split; [assumption|lia].
      * repeat constructor. simpl. lia.
    + unfold JsMap.keys. rewrite List.map_app. simpl.
      apply List.NoDup_app.
      * exact Hnd.
      * apply List.NoDup_cons; [intros []|constructor].
      * intros k Hk [<-|[]]. apply jsmap_get_None in Hfresh. auto.
  - rewrite He. destruct Hok as [Hall Hnd]. split; simpl; [|assumption].
    eapply List.Forall_impl; [|exact Hall]. simpl. intros kv [? ?].
    split; [assumption|lia].
  - destruct He as (id & _ & _ & ->). destruct Hok as [Hall Hnd].
    split; simpl.
    + unfold JsMap.delete. rewrite List.Forall_forall in *.
      intros kv Hin. apply List.filter_In in Hin as [Hin _]. auto.
    + rewrite jsmap_keys_delete. now apply List.NoDup_filter.
Qed.

Lemma registry_ok_run (calls : list Call) w :
  registry_ok (storage w) -> registry_ok (storage (snd (run calls w))).
Proof.
  revert w. induction calls as [|c calls IH]; intros w Hok; simpl; auto.
  pose proof (registry_ok_call c w Hok) as H1.
  destruct (call c w) as [o w1]. simpl in H1.
  specialize (IH w1 H1). destruct (run calls w1) as [h w2]. exact IH.
Qed.

(** The counter never goes back, and the ids a history hands out lie
    between the counter before and the counter after, in increasing
    order. *)
Lemma run_created_ids (calls : list Call) w :
  mediaCurrentId (storage w) <= mediaCurrentId (storage (snd (run calls w)))
  /\ Forall
       (fun i =>
          mediaCurrentId (storage w) <= i
          < mediaCurrentId (storage (snd (run calls w))))
       (created_ids (fst (run calls w)))
  /\ StronglySorted Z.lt (created_ids (fst (run calls w))).
Proof.
  revert w. induction calls as [|c calls IH]; intros w; simpl.
  - repeat split; try constructor. lia.
  - pose proof (call_effect c w) as He. cbv zeta in He.
    destruct (call c w) as [o w1]. simpl in He.
    specialize (IH w1). destruct (run calls w1) as [h w2]. simpl in *.
    destruct IH as (Hle & Hall & Hsort).
    assert (Hw1 : mediaCurrentId (storage w) <= mediaCurrentId (storage w1)
                  /\ match o with
                     | Created (Normal r) =>
                         MediaFile.id r = mediaCurrentId (storage w)
                         /\ mediaCurrentId (storage w1)
                            = mediaCurrentId (storage w) + 1
                     | _ => True
                     end).
    { destruct o as [r|r|[r|e]|[[]|e]|r|]; try (rewrite He; split; [lia|auto]).
      - destruct He as (im & data & _ & -> & ->). simpl. split; [lia|auto].
      - rewrite He. simpl. split; [lia|auto].
      - destruct He as (id & _ & _ & ->). simpl. split; [lia|auto]. }
    destruct Hw1 as [Hle1 Ho].
    assert (Hall' : Forall
              (fun i => mediaCurrentId (storage w) <= i
                        < mediaCurrentId (storage w2)) (created_ids h)).
    { eapply List.Forall_impl; [|exact Hall]. simpl. intros; lia. }
    unfold created_ids in *.
    destruct o as [r|r|[r|e]|r|r|]; simpl;
      try (split; [lia|split; assumption]).
    destruct Ho as [Hid Hn]. split; [lia|]. split.
    + constructor; [lia|assumption].
    + constructor; [assumption|].
      eapply List.Forall_impl; [|exact Hall]. simpl. intros; lia.
Qed.

Lemma StronglySorted_lt_NoDup (l : list Z) :
  StronglySorted Z.lt l -> List.NoDup l.
Proof.
  induction 1 as [|a l Hs IH Hall]; constructor; auto.
  intros Hin. rewrite List.Forall_forall in Hall. apply Hall in Hin. lia.
Qed.

Lemma registry_ok_ids (s : MemStorage) :
  registry_ok s ->
  List.map MediaFile.id (JsMap.values (media s)) = JsMap.keys (media s).
Proof.
  intros [Hall _]. unfold JsMap.values, JsMap.keys.
  induction Hall as [|[k r] m [Hid _] _ IH]; simpl in *; congruence.
Qed.

(** C3. In every history of the registry from start-up (calls of its
    methods in any order, deletions and failed writes included, and
    whatever happens to the disk), the ids of the records that
    [createMedia] returned are strictly increasing in the order of the
    calls: each is greater than every id handed out before it, so none is
    handed out twice, also after its record was deleted. The ids start at 1,
    and the records in the registry have pairwise different ids. *)
Theorem media_ids_unique_and_increasing
    (d : Disk) (c : Cloud) (calls : list Call) :
  let h := fst (run calls (boot d c)) in
  let w := snd (run calls (boot d c)) in
  StronglySorted Z.lt (created_ids h)
  /\ List.NoDup (created_ids h)
  /\ Forall (fun i => 1 <= i < mediaCurrentId (storage w)) (created_ids h)
  /\ List.NoDup (List.map MediaFile.id (JsMap.values (media (storage w)))).
Proof.
  cbv zeta.
  destruct (run_created_ids calls (boot d c)) as (_ & Hall & Hsort).
  repeat split; auto using StronglySorted_lt_NoDup.
  pose proof (registry_ok_run calls (boot d c) registry_ok_boot) as Hok.
  rewrite registry_ok_ids by assumption. apply Hok.
Qed.

(** An id below the counter that is not in the registry stays out of it. *)
Lemma retired_call (c : Call) w id :
  id < mediaCurrentId (storage w) ->
  JsMap.get id (media (storage w)) = None ->
  id < mediaCurrentId (storage (snd (call c w)))
  /\ JsMap.get id (media (storage (snd (call c w)))) = None.
Proof.
  intros Hlt Hnone. pose proof (call_effect c w) as He. cbv zeta in He.
  destruct (fst (call c w)) as [r|r|[r|e]|[[]|e]|r|];
    try (now rewrite He).
  - destruct He as (im & data & _ & -> & ->). simpl. split; [lia|].
    rewrite jsmap_get_set_ne by lia. assumption.
  - rewrite He. simpl. split; [lia|assumption].
  - destruct He as (id' & _ & _ & ->). simpl. split; [assumption|].
    destruct (Z.eq_dec id' id) as [->|Hne].
    + apply jsmap_get_delete_eq.
    + now rewrite jsmap_get_delete_ne.
Qed.

Lemma retired_run (calls : list Call) w id :
  id < mediaCurrentId (storage w) ->
  JsMap.get id (media (storage w)) = None ->
  JsMap.get id (media (storage (snd (run calls w)))) = None.
Proof.
  revert w. induction calls as [|c calls IH]; intros w Hlt Hnone; simpl; auto.
  destruct (retired_call c w id Hlt Hnone) as [Hlt1 Hnone1].
  destruct (call c w) as [o w1]. simpl in *.
  specialize (IH w1 Hlt1 Hnone1). destruct (run calls w1) as [h w2].
  exact IH.
Qed.

(** C2. At any point of a history of the registry, when the write of the
    blob throws, [createMedia] throws the same error and registers nothing:
    the registry map is the map from before the call, [getAllMedia] and
    [getMediaById] answer as before, and in every continuation of the
    history the id the call had taken is the id of no record, neither for
    [getMediaById] nor in the list of [getAllMedia]. *)
Theorem createMedia_write_failure_registers_nothing
    (d : Disk) (c : Cloud) (before : list Call)
    (im : InsertMedia.t) (data : bytes) (e : thrown) (d' : Disk) :
  let w := snd (run before (boot d c)) in
  let id := mediaCurrentId (storage w) in
  writeFileSync (filePath id (InsertMedia.fileName im)) data (disk w)
  = (Throw e, d') ->
  exists w',
    createMedia im data w = (Throw e, w')
    /\ media (storage w') = media (storage w)
    /\ fst (getAllMedia w') = fst (getAllMedia w)
    /\ (forall j, fst (getMediaById j w') = fst (getMediaById j w))
    /\ forall later : list Call,
         let w'' := snd (run later w') in
         fst (getMediaById id w'') = Normal None
         /\ exists rs,
              fst (getAllMedia w'') = Normal rs
              /\ Forall (fun r => MediaFile.id r <> id) rs.
Proof.
  cbv zeta. intros Hw.
  set (w := snd (run before (boot d c))) in *.
  pose proof (registry_ok_run before (boot d c) registry_ok_boot) as Hok.
  fold w in Hok.
  eexists. rewrite createMedia_cases. cbv zeta. rewrite Hw.
  split; [reflexivity|]. simpl.
  do 3 (split; [reflexivity|]).
  intros later.
  set (w' := with_disk d' _).
  assert (Hok' : registry_ok (storage w')).
  { destruct Hok as [Hall Hnd]. split; simpl; [|assumption].
    eapply List.Forall_impl; [|exact Hall]. simpl. intros kv [? ?].
    split; [assumption|lia]. }
  assert (Hnone : JsMap.get (mediaCurrentId (storage w))
                    (media (storage (snd (run later w')))) = None).
  { apply retired_run; simpl; [lia|]. now apply registry_ok_fresh. }
  split.
  - unfold getMediaById, media_get. simpl. now rewrite Hnone.
  - eexists. split; [reflexivity|].
    pose proof (registry_ok_run later w' Hok') as Hok''.
    apply jsmap_get_None in Hnone.
    rewrite <- registry_ok_ids in Hnone by assumption.
    apply List.Forall_forall. intros r Hin Heq. apply Hnone.
    rewrite <- Heq. now apply List.in_map.
Qed.

Lemma filter_all {A} (f : A -> bool) (l : list A) :
  Forall (fun x => f x = true) l -> List.filter f l = l.
Proof.
  induction 1 as [|x l Hx _ IH]; simpl; auto. now rewrite Hx, IH.
Qed.

Lemma filter_both {A} (f g : A -> bool) (l : list A) :
  List.filter (fun x => f x && g x) l = List.filter g (List.filter f l).
Proof.
  induction l as [|x l IH]; simpl; auto.
  destruct (f x); simpl; [destruct (g x)|]; now rewrite IH.
Qed.

(** Deleting a key drops the records filed under it. *)
Lemma jsmap_values_delete (k : Z) (ms : JsMap.t MediaFile.t) :
  Forall (fun kv => MediaFile.id (snd kv) = fst kv) ms ->
  JsMap.values (JsMap.delete k ms)
  = List.filter (fun r => negb (Z.eqb k (MediaFile.id r))) (JsMap.values ms).
Proof.
  unfold JsMap.values, JsMap.delete.
  induction 1 as [|[k' r] ms Hid _ IH]; simpl in *; auto.
  rewrite Hid, (Z.eqb_sym k k').
  destruct (Z.eqb k' k); simpl; now rewrite IH.
Qed.

(** The registry after a history: the records it held before and the
    records created since, in that order, without those deleted since. *)
Lemma run_values (calls : list Call) w :
  registry_ok (storage w) ->
  JsMap.values (media (storage (snd (run calls w))))
  = List.filter
      (fun r => negb (was_deleted (MediaFile.id r) (fst (run calls w))))
      (JsMap.values (media (storage w))
       ++ created_records (fst (run calls w)))%list.
Proof.
  revert w. induction calls as [|c calls IH]; intros w Hok; simpl.
  - rewrite app_nil_r. symmetry. apply filter_all.
    apply List.Forall_forall. reflexivity.
  - pose proof (call_effect c w) as He. cbv zeta in He.
    pose proof (registry_ok_call c w Hok) as Hok1.
    pose proof (run_created_ids calls (snd (call c w))) as (_ & Hids & _).
    destruct (call c w) as [o w1]. simpl in He, Hok1, Hids.
    specialize (IH w1 Hok1). destruct (run calls w1) as [h w2].
    simpl in *. rewrite IH. clear IH.
    destruct o as [r|r|[r|e]|[[]|e]|r|].
    + rewrite He. now destruct c.
    + rewrite He. now destruct c.
    + destruct He as (im & data & -> & -> & ->). simpl.
      rewrite jsmap_set_fresh by now apply registry_ok_fresh.
      unfold JsMap.values. rewrite List.map_app, <- app_assoc. reflexivity.
    + rewrite He. now destruct c.
    + destruct He as (id & -> & Hin & Hs). rewrite Hs in *. simpl in *.
      rewrite jsmap_values_delete.
      2:{ destruct Hok as [Hall _]. eapply List.Forall_impl; [|exact Hall].
          simpl. tauto. }
      assert (Hlt : id < mediaCurrentId (storage w)).
      { destruct (JsMap.get id (media (storage w))) as [m|] eqn:Hget;
          [|congruence].
        apply jsmap_get_In in Hget. destruct Hok as [Hall _].
        rewrite List.Forall_forall in Hall. apply Hall in Hget. simpl in Hget.
        lia. }
      rewrite <- (filter_all (fun r => negb (Z.eqb id (MediaFile.id r)))
                    (created_records h)) at 1.
      * rewrite <- List.filter_app, <- filter_both.
        apply List.filter_ext. intros r. now rewrite negb_orb.
      * unfold created_ids in Hids. rewrite List.Forall_map in Hids.
        eapply List.Forall_impl; [|exact Hids]. simpl. intros r Hr.
        apply negb_true_iff, Z.eqb_neq. lia.
    + rewrite He. now destruct c.
    + rewrite He. now destruct c.
    + rewrite He. now destruct c.
    + rewrite He. now destruct c.
Qed.

Lemma run_creates_only (uploads : list (InsertMedia.t * bytes)) w :
  let calls := List.map (fun u => CreateMedia (fst u) (snd u)) uploads in
  (forall id, was_deleted id (fst (run calls w)) = false)
  /\ (all_created (fst (run calls w)) = true ->
      created_records (fst (run calls w))
      = numbered (mediaCurrentId (storage w)) (List.map fst uploads)).
Proof.
  cbv zeta. revert w.
  induction uploads as [|[im data] uploads IH]; intros w; simpl; auto.
  pose proof (call_effect (CreateMedia im data) w) as He. cbv zeta in He.
  simpl in He.
  destruct (createMedia im data w) as [[r|e] w1]; simpl in He;
    specialize (IH w1); destruct (run _ w1) as [h w2]; simpl in *;
    destruct IH as [IHd IHc]; (split; [assumption|]); [|discriminate].
  intros Hall. destruct He as (im' & data' & [= <- <-] & -> & Hs).
  rewrite IHc by assumption. rewrite Hs. reflexivity.
Qed.

(** C5. [getAllMedia] returns the records of the registry in the order of
    their creation. After any history from start-up it returns the records
    the successful [createMedia] calls returned, oldest first, without
    those deleted since. In particular, after [n] calls of [createMedia]
    that all returned and no deletion, it returns the [n] records, with the
    ids 1 to [n], in the order of the calls. *)
Theorem getAllMedia_creation_order (d : Disk) (c : Cloud) :
  (forall calls : list Call,
     let h := fst (run calls (boot d c)) in
     let w := snd (run calls (boot d c)) in
     fst (getAllMedia w)
     = Normal
         (List.filter (fun r => negb (was_deleted (MediaFile.id r) h))
            (created_records h)))
  /\ (forall uploads : list (InsertMedia.t * bytes),
        let calls := List.map (fun u => CreateMedia (fst u) (snd u)) uploads in
        let h := fst (run calls (boot d c)) in
        let w := snd (run calls (boot d c)) in
        all_created h = true ->
        fst (getAllMedia w) = Normal (numbered 1 (List.map fst uploads))).
Proof.
  assert (Hgen : forall calls : list Call,
            JsMap.values (media (storage (snd (run calls (boot d c)))))
            = List.filter
                (fun r =>
                   negb (was_deleted (MediaFile.id r)
                           (fst (run calls (boot d c)))))
                (created_records (fst (run calls (boot d c))))).
  { intros calls. now rewrite run_values by apply registry_ok_boot. }
  split; cbv zeta.
  - intros calls. unfold getAllMedia. simpl. now rewrite Hgen.
  - intros uploads Hall. unfold getAllMedia. simpl. rewrite Hgen.
    destruct (run_creates_only uploads (boot d c)) as [Hdel Hrec].
    rewrite Hrec by assumption. apply f_equal, filter_all.
    apply List.Forall_forall. intros r _. now rewrite Hdel.
Qed.

(** *** The read routes *)

Lemma getMediaFile_eq id w :
  exists w',
    getMediaFile id w
    = (Normal
         match JsMap.get id (media (storage w)) with
         | None => None
         | Some m =>
             if existsSync (filePath id (MediaFile.fileName m)) (disk w) then
               match
                 readFileSync (filePath id (MediaFile.fileName m)) (disk w)
               with
               | Normal data => Some (data, m)
               | Throw _ => None
               end
             else None
         end, w').
Proof.
  destruct (getMediaFile_returns id w) as (r & w' & Heq & _).
  pose proof (getMediaFile_cases id w) as Hc. rewrite Heq in Hc. simpl in Hc.
  injection Hc as ->. eauto.
Qed.

Lemma getMediaFile_found id m data w :
  JsMap.get id (media (storage w)) = Some m ->
  existsSync (filePath id (MediaFile.fileName m)) (disk w) = true ->
  readFileSync (filePath id (MediaFile.fileName m)) (disk w) = Normal data ->
  getMediaFile id w = (Normal (Some (data, m)), w).
Proof.
  intros Hget Hex Hrd.
  unfold getMediaFile, bind, media_get, try_catch, fs_existsSync,
    fs_readFileSync, ret.
  rewrite Hget, Hex. simpl. now rewrite Hrd.
Qed.

(** The read routes, case by case. *)
Lemma get_media_cases (id_param : string) w :
  get_media id_param w =
    match parseInt id_param with
    | None =>
        (Normal (res_end (JsonMessage "Invalid ID format") (res_status 400 res)),
         w)
    | Some id =>
        match getMediaFile id w with
        | (Normal (Some (data, m)), w') =>
            match res_setHeader "Content-Type" (MediaFile.fileType m) res with
            | Normal r => (Normal (res_end (SendBuffer data) r), w')
            | Throw error =>
                caught "Error serving media:" "Failed to serve media file"
                  error res w'
            end
        | (Normal None, w') =>
            (Normal (res_end (JsonMessage "Media not found") (res_status 404 res)),
             w')
        | (Throw error, w') =>
            caught "Error serving media:" "Failed to serve media file"
              error res w'
        end
    end.
Proof.
  unfold get_media, handle, try_catch, bind, on_world, on_res, setHeader,
    console_error, caught.
  destruct (parseInt id_param) as [id|]; [|reflexivity]. cbn [fst snd].
  destruct (getMediaFile id w) as [[[[data m]|]|e] w']; cbn [fst snd];
    try reflexivity.
  destruct (res_setHeader _ _ res); reflexivity.
Qed.

Lemma download_media_cases (id_param : string) w :
  download_media id_param w =
    match parseInt id_param with
    | None =>
        (Normal (res_end (JsonMessage "Invalid ID format") (res_status 400 res)),
         w)
    | Some id =>
        match getMediaFile id w with
        | (Normal (Some (data, m)), w') =>
            match res_setHeader "Content-Type" (MediaFile.fileType m) res with
            | Normal r1 =>
                match
                  res_setHeader "Content-Disposition"
                    ("attachment; filename=" ++ dq ++ MediaFile.fileName m
                     ++ dq) r1
                with
                | Normal r2 => (Normal (res_end (SendBuffer data) r2), w')
                | Throw error =>
                    caught "Error downloading media:"
                      "Failed to download media file" error r1 w'
                end
            | Throw error =>
                caught "Error downloading media:"
                  "Failed to download media file" error res w'
            end
        | (Normal None, w') =>
            (Normal (res_end (JsonMessage "Media not found") (res_status 404 res)),
             w')
        | (Throw error, w') =>
            caught "Error downloading media:" "Failed to download media file"
              error res w'
        end
    end.
Proof.
  unfold download_media, handle, try_catch, bind, on_world, on_res, setHeader,
    console_error, caught.
  destruct (parseInt id_param) as [id|]; [|reflexivity]. cbn [fst snd].
  destruct (getMediaFile id w) as [[[[data m]|]|e] w']; cbn [fst snd];
    try reflexivity.
  destruct (res_setHeader _ _ res) as [r1|e1]; cbn [fst snd]; [|reflexivity].
  destruct (res_setHeader _ _ r1); reflexivity.
Qed.

Lemma thumbnail_media_cases (id_param : string) w :
  thumbnail_media id_param w =
    match parseInt id_param with
    | None =>
        (Normal (res_end (JsonMessage "Invalid ID format") (res_status 400 res)),
         w)
    | Some id =>
        match JsMap.get id (media (storage w)) with
        | None =>
            (Normal (res_end (JsonMessage "Media not found") (res_status 404 res)),
             w)
        | Some m =>
            if startsWith (MediaFile.fileType m) "video/" then
              (Normal
                 {| statusCode := 200;
                    headers := [("Content-Type", "image/svg+xml")];
                    body := SendText (placeholderSvg (MediaFile.fileName m)) |},
               w)
            else
              match getMediaFile id w with
              | (Normal (Some (data, _)), w') =>
                  match
                    res_setHeader "Content-Type" (MediaFile.fileType m) res
                  with
                  | Normal r => (Normal (res_end (SendBuffer data) r), w')
                  | Throw error =>
                      caught "Error serving thumbnail:"
                        "Failed to serve thumbnail" error res w'
                  end
              | (Normal None, w') =>
                  (Normal
                     (res_end (JsonMessage "Media file not found")
                        (res_status 404 res)),
                   w')
              | (Throw error, w') =>
                  caught "Error serving thumbnail:" "Failed to serve thumbnail"
                    error res w'
              end
        end
    end.
Proof.
  unfold thumbnail_media, handle, try_catch, bind, on_world, on_res,
    setHeader, getMediaById, media_get, console_error, caught.
  destruct (parseInt id_param) as [id|]; [|reflexivity]. cbn [fst snd].
  destruct (JsMap.get id (media (storage w))) as [m|]; [|reflexivity].
  destruct (startsWith (MediaFile.fileType m) "video/"); [reflexivity|].
  cbn [fst snd].
  destruct (getMediaFile id w) as [[[[data m']|]|e] w']; cbn [fst snd];
    try reflexivity.
  destruct (res_setHeader _ _ res); reflexivity.
Qed.

(** C7, as the program has it. The get, download and thumbnail routes
    answer 400 to every id string that [parseInt] turns into [NaN], that is
    a string with no digit after its leading white space, sign and [0x]; and
    they answer 404 to every id string whose parsed value is not an id of
    the registry. A string that only starts with digits is read as those
    digits. *)
Theorem invalid_and_unknown_ids (id_param : string) w :
  (parseInt id_param = None -> read_routes_answer 400 id_param w)
  /\ (forall id,
        parseInt id_param = Some id ->
        JsMap.get id (media (storage w)) = None ->
        read_routes_answer 404 id_param w).
Proof.
  unfold read_routes_answer.
  rewrite get_media_cases, download_media_cases, thumbnail_media_cases.
  split.
  - intros Hnan. rewrite Hnan. simpl. eauto 10.
  - intros id Hid Hnone.
    destruct (getMediaFile_eq id w) as [w' Hf]. rewrite Hnone in Hf.
    rewrite Hid, Hf, Hnone. simpl. eauto 10.
Qed.

(** C6, as the program has it. For a registered record whose [fileType]
    starts with [video/], the thumbnail route answers a plain [GET] with
    200, [Content-Type: image/svg+xml; charset=utf-8] and a text body in
    which the [fileName] of the record occurs, and changes nothing. For a
    registered record of another type whose blob exists and can be read:
    when the [fileType] is a legal header value, the thumbnail route and
    the direct get answer every request alike, a plain [GET] with 200, the
    [fileType] as [Content-Type] ([application/octet-stream] when it is
    empty) and the bytes of the blob as body; when it is not,
    [res.setHeader] throws and both answer 500, each with its own
    message. *)
Theorem thumbnail_media_answers (id_param : string) id m w :
  parseInt id_param = Some id ->
  JsMap.get id (media (storage w)) = Some m ->
  (startsWith (MediaFile.fileType m) "video/" = true ->
   exists text,
     contains text (MediaFile.fileName m)
     /\ respond (thumbnail_media id_param) plain_get w
        = (Normal
             {| wire_status := 200;
                wire_Content_Type := Some "image/svg+xml; charset=utf-8";
                wire_Content_Disposition := None;
                wire_body := SendText text |},
           w))
  /\ (startsWith (MediaFile.fileType m) "video/" = false ->
      forall data,
        existsSync (filePath id (MediaFile.fileName m)) (disk w) = true ->
        readFileSync (filePath id (MediaFile.fileName m)) (disk w)
        = Normal data ->
        (legal_header_value (MediaFile.fileType m) = true ->
         (forall req,
            respond (thumbnail_media id_param) req w
            = respond (get_media id_param) req w)
         /\ respond (get_media id_param) plain_get w
            = (Normal
                 {| wire_status := 200;
                    wire_Content_Type :=
                      Some (if String.eqb (MediaFile.fileType m) ""
                            then "application/octet-stream"
                            else MediaFile.fileType m);
                    wire_Content_Disposition := None;
                    wire_body := SendBuffer data |},
               w))
        /\ (legal_header_value (MediaFile.fileType m) = false ->
            let answers_500 route message :=
              exists w',
                respond route plain_get w
                = (Normal
                     {| wire_status := 500;
                        wire_Content_Type :=
                          Some "application/json; charset=utf-8";
                        wire_Content_Disposition := None;
                        wire_body := JsonMessage message |},
                   w') in
            answers_500 (thumbnail_media id_param) "Failed to serve thumbnail"
            /\ answers_500 (get_media id_param) "Failed to serve media file")).
Proof.
  intros Hid Hget. unfold respond.
  rewrite thumbnail_media_cases, get_media_cases, Hid, Hget. split.
  - intros ->. exists (placeholderSvg (MediaFile.fileName m)). split.
    + unfold contains, placeholderSvg. eauto.
    + reflexivity.
  - intros -> data Hex Hrd.
    rewrite (getMediaFile_found id m data w Hget Hex Hrd).
    unfold res_setHeader. split.
    + intros ->. split; [reflexivity|].
      unfold send, sent_type, getHeader. cbn.
      now destruct (String.eqb (MediaFile.fileType m) "").
    + intros ->. cbv zeta. unfold caught. split; eexists; reflexivity.
Qed.

(** *** The upload routes *)

(** A loop whose body never throws runs to its end, and pushes one element
    per file, in the order of the files. *)
Lemma for_each_file_returns
    (step : File.t -> M W UploadResult.t)
    (Q : File.t -> UploadResult.t -> Prop) :
  (forall file w, exists r w', step file w = (Normal r, w') /\ Q file r) ->
  forall files acc w,
    exists rs w',
      for_each_file step files acc w = (Normal (acc ++ rs)%list, w')
      /\ Forall2 Q files rs.
Proof.
  intros Hstep. induction files as [|file files IH]; intros acc w; simpl.
  - exists [], w. rewrite app_nil_r. split; [reflexivity|constructor].
  - destruct (Hstep file w) as (r & w1 & Hr & HQ).
    destruct (IH (acc ++ [r])%list w1) as (rs & w2 & Hrs & HQs).
    exists (r :: rs), w2. unfold bind. rewrite Hr, Hrs, <- app_assoc.
    split; [reflexivity|now constructor].
Qed.

(** The loop over [before ++ file :: after] is the loop over [before], the
    body on [file], and the loop over [after]. *)
Lemma for_each_file_split
    (step : File.t -> M W UploadResult.t)
    (before : list File.t) (file : File.t) (after : list File.t)
    (acc acc1 : list UploadResult.t) (r : UploadResult.t) w w1 w2 :
  for_each_file step before acc w = (Normal acc1, w1) ->
  step file w1 = (Normal r, w2) ->
  for_each_file step (before ++ file :: after) acc w
  = for_each_file step after (acc1 ++ [r])%list w2.
Proof.
  revert acc w. induction before as [|f before IH]; intros acc w; simpl.
  - intros [= <- <-] Hr. unfold bind. now rewrite Hr.
  - unfold bind. destruct (step f w) as [[r0|e] w0]; [|discriminate].
    intros Hb Hr. now apply IH.
Qed.

Lemma upload_file_returns (file : File.t) w :
  exists r w',
    upload_file file w = (Normal r, w')
    /\ UploadResult.fileName r = File.originalname file
    /\ (is_success r \/ is_error r).
Proof.
  unfold upload_file, bind, Date_toISOString, try_catch, lift, console_error,
    ret.
  destruct (insertMediaSchema_parse _) as [[]|e]; simpl.
  - rewrite createMedia_cases. cbv zeta.
    destruct (writeFileSync _ _ _) as [[[]|e] d]; simpl;
      do 2 eexists; (split; [reflexivity|]); simpl; split; auto.
    + left. repeat split; eauto.
    + right. repeat split; eauto.
  - do 2 eexists. split; [reflexivity|]. simpl. split; auto.
    right. repeat split; eauto.
Qed.

(** The body of the mirroring loop, case by case on what the schema,
    Cloudinary and [createMedia] do. *)
Lemma upload_file_mirrored_cases (file : File.t) w :
  upload_file_mirrored file w =
    let w0 := with_clock (S (clock w)) w in
    let mediaData := mediaData_of file (toISOString (clock w)) in
    let failed error w' :=
      (Normal (result_error file error),
       with_console
         (console w'
          ++ [[Str "Error processing file:"; Str (File.originalname file);
               Err error]])
         w') in
    match insertMediaSchema_parse mediaData with
    | Throw error => failed error w0
    | Normal _ =>
        match upload_stream (File.buffer file) (cloud w) with
        | (CloudFailed error, c) => failed error (with_cloud c w0)
        | (CloudNoResult, c) =>
            failed (ErrorObject "No result from Cloudinary") (with_cloud c w0)
        | (CloudUploaded url, c) =>
            match
              createMedia (set_cloudinaryUrl url mediaData) (File.buffer file)
                (with_cloud c w0)
            with
            | (Normal mediaRecord, w') =>
                (Normal (result_success mediaRecord (Some url)), w')
            | (Throw error, w') => failed error w'
            end
        end
    end.
Proof.
  unfold upload_file_mirrored, bind, Date_toISOString, try_catch, lift,
    cloudinary_upload, console_error, ret. simpl.
  destruct (insertMediaSchema_parse _) as [[]|e]; simpl; [|reflexivity].
  destruct (upload_stream _ (cloud w)) as [[e| |url] c]; simpl;
    try reflexivity.
  destruct (createMedia _ _ _) as [[r|e] w']; reflexivity.
Qed.

Lemma upload_file_mirrored_returns (file : File.t) w :
  exists r w',
    upload_file_mirrored file w = (Normal r, w')
    /\ UploadResult.fileName r = File.originalname file
    /\ (is_success r \/ is_error r).
Proof.
  rewrite upload_file_mirrored_cases. cbv zeta.
  assert (Herr : forall e, is_error (result_error file e)).
  { intros e. repeat split; simpl; eauto. }
  destruct (insertMediaSchema_parse _) as [[]|e]; [|eauto 10].
  destruct (upload_stream _ (cloud w)) as [[e| |url] c]; eauto 10.
  rewrite createMedia_cases. cbv zeta.
  destruct (writeFileSync _ _ _) as [[[]|e] d]; simpl; [|eauto 10].
  do 2 eexists. split; [reflexivity|]. simpl. split; auto.
  left. repeat split; simpl; eauto.
Qed.

Lemma upload_handler_loop
    (step : File.t -> M W UploadResult.t) (files : list File.t)
    (rs : list UploadResult.t) w w' :
  files <> [] ->
  for_each_file step files [] w = (Normal rs, w') ->
  upload_handler step (Some files) w
  = (Normal (res_end (JsonUpload "Files processed" rs) (res_status 201 res)),
     w').
Proof.
  intros Hne Hloop. unfold upload_handler, try_catch, bind, ret.
  destruct files as [|file files]; [congruence|]. now rewrite Hloop.
Qed.

Lemma upload_array_cases (parts : list Part.t) :
  upload_array parts
  = if forallb (fun p => Z.of_nat (length (Part.content p)) <? fileSizeLimit)
         (List.filter fileFilter parts)
    then MulterFiles (List.map memoryStorage (List.filter fileFilter parts))
    else MulterError "LIMIT_FILE_SIZE".
Proof. reflexivity. Qed.

Lemma upload_request_batch
    (step : File.t -> M W UploadResult.t) (parts : list Part.t) w :
  (forall file w,
     exists r w',
       step file w = (Normal r, w')
       /\ UploadResult.fileName r = File.originalname file
       /\ (is_success r \/ is_error r)) ->
  List.filter fileFilter parts <> [] ->
  (forallb (fun p => Z.of_nat (length (Part.content p)) <? fileSizeLimit)
     (List.filter fileFilter parts) = true ->
   exists results w',
     upload_request (upload_handler step) parts w
     = (Normal
          (res_end (JsonUpload "Files processed" results) (res_status 201 res)),
        w')
     /\ Forall2
          (fun part r =>
             UploadResult.fileName r = Part.originalname part
             /\ (is_success r \/ is_error r))
          (List.filter fileFilter parts) results)
  /\ (forallb (fun p => Z.of_nat (length (Part.content p)) <? fileSizeLimit)
        (List.filter fileFilter parts) = false ->
      upload_request (upload_handler step) parts w
      = (Normal (res_end (JsonMessage "File too large") (res_status 500 res)),
         w)).
Proof.
  intros Hstep Hne. unfold upload_request. rewrite upload_array_cases. split.
  - intros ->.
    destruct (for_each_file_returns step _ Hstep
                (List.map memoryStorage (List.filter fileFilter parts)) [] w)
      as (rs & w' & Hloop & HQ).
    exists rs, w'. split.
    + apply upload_handler_loop; [|assumption].
      destruct (List.filter fileFilter parts); [congruence|discriminate].
    + clear Hloop Hne. revert rs HQ.
      induction (List.filter fileFilter parts) as [|part accepted IH];
        intros rs HQ; inversion HQ; subst; constructor; auto.
  - intros ->. reflexivity.
Qed.

(** One accepted part that reaches the limit: the error middleware
    answers. *)
Lemma upload_request_at_the_limit
    (route : option (list File.t) -> M W Response) (part : Part.t) w :
  fileFilter part = true ->
  fileSizeLimit <= Z.of_nat (length (Part.content part)) ->
  upload_request route [part] w
  = (Normal (res_end (JsonMessage "File too large") (res_status 500 res)), w).
Proof.
  intros Hfilter Hlen. unfold upload_request. rewrite upload_array_cases.
  cbn [List.filter]. rewrite Hfilter. cbn [forallb].
  destruct (Z.ltb_spec (Z.of_nat (length (Part.content part))) fileSizeLimit);
    [lia|reflexivity].
Qed.

(** C8, as the program has it. Take a batch of which at least one part
    passes the filter. When every accepted part is below [limits.fileSize],
    the upload route answers 201 with a [results] array that has exactly
    one element per accepted part, in the order of the parts, under the name
    of the part: marked [success] with an [id], or marked [error] with a
    [message]. This holds whatever the schema and the disk do, so also when
    every file fails; a part the filter refused has no element. When an
    accepted part reaches the limit, the handler is not called: the error
    middleware answers 500 [File too large] and nothing is stored. The route
    that mirrors to Cloudinary answers in the same way. *)
Theorem upload_batch_answers_201 (parts : list Part.t) w :
  List.filter fileFilter parts <> [] ->
  let accepted := List.filter fileFilter parts in
  let below_the_limit :=
    forallb (fun p => Z.of_nat (length (Part.content p)) <? fileSizeLimit)
      accepted in
  let one_entry_per_accepted_part (results : list UploadResult.t) :=
    Forall2
      (fun part r =>
         UploadResult.fileName r = Part.originalname part
         /\ (is_success r \/ is_error r))
      accepted results
    /\ length results = length accepted in
  let answers (route : option (list File.t) -> M W Response) :=
    (below_the_limit = true ->
     exists results w',
       upload_request route parts w
       = (Normal
            (res_end (JsonUpload "Files processed" results)
               (res_status 201 res)),
          w')
       /\ one_entry_per_accepted_part results)
    /\ (below_the_limit = false ->
        upload_request route parts w
        = (Normal
             (res_end (JsonMessage "File too large") (res_status 500 res)),
           w)) in
  answers upload_media /\ answers upload_media_mirrored.
Proof.
  intros Hne. cbv zeta.
  destruct (upload_request_batch upload_file parts w upload_file_returns Hne)
    as [Hplain Hplain_large].
  destruct (upload_request_batch upload_file_mirrored parts w
              upload_file_mirrored_returns Hne)
    as [Hmirror Hmirror_large].
  split; (split; [|assumption]); intros Hsmall.
  - destruct (Hplain Hsmall) as (rs & w' & Hr & HQ).
    exists rs, w'. repeat split; auto.
    symmetry. eapply Forall2_length; eauto.
  - destruct (Hmirror Hsmall) as (rs & w' & Hr & HQ).
    exists rs, w'. repeat split; auto.
    symmetry. eapply Forall2_length; eauto.
Qed.

(** C10. In the route that mirrors to Cloudinary, the upload to Cloudinary
    is awaited before anything is stored locally. Take any batch and any
    file of it: the loop reaches the file, its body returns the element [r]
    that stands for the file in the [results] of the 201 answer, and
    - when the upload to Cloudinary does not succeed, [r] is marked
      [error], and the registry (its counter included) and the disk are
      left as the body of the loop found them: no record is created and no
      blob is written;
    - when the schema accepts the file and Cloudinary answers with a URL,
      nothing was stored locally up to then, the URL is put in the
      [metadata] under [cloudinaryUrl], and only then is [createMedia]
      called, on that value: the record it registers, when it returns,
      carries the URL, and [r] is the success element with that URL. *)
Theorem mirror_precedes_local_persistence
    (before : list File.t) (file : File.t) (after : list File.t) w :
  exists (rs_before rs_after : list UploadResult.t) (r : UploadResult.t)
         (w0 w1 w' : W),
    for_each_file upload_file_mirrored before [] w = (Normal rs_before, w0)
    /\ length rs_before = length before
    /\ upload_file_mirrored file w0 = (Normal r, w1)
    /\ upload_media_mirrored (Some (before ++ file :: after)%list) w
       = (Normal
            (res_end
               (JsonUpload "Files processed" (rs_before ++ r :: rs_after)%list)
               (res_status 201 res)),
          w')
    /\ ((forall url,
           fst (upload_stream (File.buffer file) (cloud w0))
           <> CloudUploaded url) ->
        is_error r /\ storage w1 = storage w0 /\ disk w1 = disk w0)
    /\ (forall url c,
          insertMediaSchema_parse
            (mediaData_of file (toISOString (clock w0))) = Normal tt ->
          upload_stream (File.buffer file) (cloud w0) = (CloudUploaded url, c) ->
          let mediaData :=
            set_cloudinaryUrl url
              (mediaData_of file (toISOString (clock w0))) in
          let w_mirrored := with_cloud c (with_clock (S (clock w0)) w0) in
          let with_url :=
            Some (JObj [("originalName", JStr (File.originalname file));
                        ("cloudinaryUrl", JStr url)]) in
          storage w_mirrored = storage w0
          /\ disk w_mirrored = disk w0
          /\ InsertMedia.metadata mediaData = with_url
          /\ match createMedia mediaData (File.buffer file) w_mirrored with
             | (Normal mediaRecord, w1') =>
                 r = result_success mediaRecord (Some url)
                 /\ w1 = w1'
                 /\ MediaFile.metadata mediaRecord = with_url
                 /\ JsMap.get (MediaFile.id mediaRecord) (media (storage w1))
                    = Some mediaRecord
             | (Throw _, _) => is_error r
             end).
Proof.
  pose proof upload_file_mirrored_returns as Hstep.
  destruct (for_each_file_returns upload_file_mirrored _ Hstep before [] w)
    as (rs_before & w0 & Hbefore & HQ).
  destruct (Hstep file w0) as (r & w1 & Hr & _).
  destruct (for_each_file_returns upload_file_mirrored _ Hstep after
              (rs_before ++ [r])%list w1) as (rs_after & w' & Hafter & _).
  simpl in Hbefore.
  exists rs_before, rs_after, r, w0, w1, w'.
  split; [assumption|]. split; [symmetry; eapply Forall2_length; eauto|].
  split; [assumption|]. split.
  { apply upload_handler_loop; [now destruct before|].
    rewrite (for_each_file_split _ _ _ _ _ _ _ _ _ _ Hbefore Hr), Hafter.
    now rewrite <- app_assoc. }
  assert (Herr : forall e, is_error (result_error file e)).
  { intros e. repeat split; simpl; eauto. }
  rewrite upload_file_mirrored_cases in Hr. cbv zeta in Hr. split.
  - intros Hfail.
    destruct (insertMediaSchema_parse _) as [[]|e].
    + destruct (upload_stream _ (cloud w0)) as [[e| |url] c];
        [| |now contradiction (Hfail url)];
        injection Hr as <- <-; auto.
    + injection Hr as <- <-. auto.
  - intros url c Hparse Hup. cbv zeta. rewrite Hparse, Hup in Hr.
    do 3 (split; [reflexivity|]).
    rewrite createMedia_cases in *. cbv zeta in *.
    destruct (writeFileSync _ _ _) as [[[]|e] d]; simpl in *;
      injection Hr as <- <-; auto.
    repeat split. simpl. apply jsmap_get_set_eq.
Qed.

End Properties.

(** ** The model at work on the simulated platform *)

Example parseInt_digits : parseInt "42" = Some 42.
Proof. reflexivity. Qed.

Example parseInt_reads_a_prefix : parseInt " -12abc" = Some (-12).
Proof. reflexivity. Qed.

Example parseInt_hexadecimal : parseInt "0x1F" = Some 31.
Proof. reflexivity. Qed.

Example parseInt_no_digit : parseInt "abc" = None /\ parseInt "" = None.
Proof. split; reflexivity. Qed.

(** The simulated disk keeps what it is given. *)
Lemma sim_write_then_read : @write_then_read Sim.Disk Sim.Cloud Sim.platform.
Proof.
  intros path data d d'. simpl. unfold Sim.sim_writeFileSync.
  destruct (Sim.full d); [discriminate|].
  assert (Hok : Sim.sim_existsSync path
                  {| Sim.nodes := <[path := Sim.Regular data]> (Sim.nodes d);
                     Sim.full := false |} = true
                /\ Sim.sim_readFileSync path
                     {| Sim.nodes := <[path := Sim.Regular data]> (Sim.nodes d);
                        Sim.full := false |} = Normal data).
  { unfold Sim.sim_existsSync, Sim.sim_readFileSync. simpl.
    now rewrite lookup_insert_eq. }
  destruct (Sim.nodes d !! path) as [[old|old]|];
    try discriminate; now intros [= <-].
Qed.

(** C1: on a blob that cannot be unlinked, [deleteMedia] returns [false]
    and keeps the record. *)
Lemma deleteMedia_keeps_record_when_unlink_throws :
  ~ deleteMedia_as_specified 1 Sim.one_photo_locked.
Proof.
  unfold deleteMedia_as_specified.
  assert (Hget : JsMap.get 1 (media (storage Sim.one_photo_locked))
                 = Some (spread_with_id Sim.photo 1)) by reflexivity.
  rewrite Hget.
  assert (Hdel : fst (deleteMedia 1 Sim.one_photo_locked) = Normal false)
    by (vm_compute; reflexivity).
  rewrite Hdel. intros [Htrue _]. discriminate Htrue.
Qed.

(** C2 on the simulated platform: the second [createMedia] finds the disk
    full. *)
Lemma createMedia_write_failure_witness :
  exists w',
    createMedia Sim.photo Sim.photo_bytes
      (snd (run [CreateMedia Sim.clip Sim.clip_bytes;
                 DiskChanged Sim.full_disk] Sim.fresh))
    = (Throw Sim.ENOSPC, w')
    /\ fst (getAllMedia w') = Normal [spread_with_id Sim.clip 1]
    /\ fst (getMediaById 2 w') = Normal None.
Proof.
  destruct (createMedia_write_failure_registers_nothing (P := Sim.platform)
              Sim.empty_disk []
              [CreateMedia Sim.clip Sim.clip_bytes; DiskChanged Sim.full_disk]
              Sim.photo Sim.photo_bytes Sim.ENOSPC Sim.full_disk
              ltac:(vm_compute; reflexivity))
    as (w' & Hthrow & _ & Hall & _ & Hlater).
  exists w'. split; [exact Hthrow|]. split; [exact Hall|].
  exact (proj1 (Hlater [])).
Defined.

(** C4 on the simulated platform. *)
Lemma round_trip_witness :
  getMediaFile 1 Sim.one_photo
  = (Normal (Some (Sim.photo_bytes, spread_with_id Sim.photo 1)),
     Sim.one_photo).
Proof.
  exact (proj2 (proj2 (proj2 (proj2 (proj2 (proj2
           (createMedia_getMediaFile_round_trip (P := Sim.platform)
              Sim.photo Sim.photo_bytes Sim.fresh
              (spread_with_id Sim.photo 1) Sim.one_photo
              sim_write_then_read eq_refl))))))).
Defined.

(** C5 on the simulated platform: two uploads, listed in the order of their
    creation. *)
Lemma getAllMedia_creation_order_witness :
  fst (getAllMedia Sim.album)
  = Normal [spread_with_id Sim.photo 1; spread_with_id Sim.clip 2].
Proof.
  exact (proj2 (getAllMedia_creation_order (P := Sim.platform) Sim.empty_disk [])
           [(Sim.photo, Sim.photo_bytes); (Sim.clip, Sim.clip_bytes)]
           eq_refl).
Defined.

(** C6: the blob of record 1 exists and cannot be read; the direct get and
    the thumbnail answer with different bodies. *)
Lemma image_thumbnail_differs_when_blob_unreadable :
  ~ image_thumbnail_as_specified "1" Sim.one_photo_locked.
Proof.
  intros Hspec.
  specialize (Hspec 1 (spread_with_id Sim.photo 1)
                eq_refl eq_refl eq_refl eq_refl
                (res_end (JsonMessage "Media file not found")
                   (res_status 404 res))
                (res_end (JsonMessage "Media not found")
                   (res_status 404 res))
                eq_refl eq_refl).
  discriminate Hspec.
Qed.

(** C6 on the simulated platform: the thumbnail of the video, and the
    thumbnail of the photo. *)
Lemma thumbnail_media_witness :
  (exists text,
     contains text "dance.mp4"
     /\ respond (thumbnail_media "2") plain_get Sim.album
        = (Normal
             {| wire_status := 200;
                wire_Content_Type := Some "image/svg+xml; charset=utf-8";
                wire_Content_Disposition := None;
                wire_body := SendText text |},
           Sim.album))
  /\ respond (thumbnail_media "1") plain_get Sim.album
     = respond (get_media "1") plain_get Sim.album
  /\ respond (get_media "1") plain_get Sim.album
     = (Normal
          {| wire_status := 200;
             wire_Content_Type := Some "image/jpeg";
             wire_Content_Disposition := None;
             wire_body := SendBuffer Sim.photo_bytes |},
        Sim.album).
Proof.
  split.
  - exact (proj1 (thumbnail_media_answers (P := Sim.platform) "2" 2
                    (spread_with_id Sim.clip 2) Sim.album eq_refl eq_refl)
             eq_refl).
  - destruct (proj1
                (proj2 (thumbnail_media_answers (P := Sim.platform) "1" 1
                          (spread_with_id Sim.photo 1) Sim.album
                          eq_refl eq_refl)
                   eq_refl Sim.photo_bytes
                   ltac:(vm_compute; reflexivity)
                   ltac:(vm_compute; reflexivity))
                eq_refl) as [Hsame Hget].
    split; [exact (Hsame plain_get)|exact Hget].
Defined.

(** A file name with a line feed in it, uploaded through the route: the
    direct get serves the file, and the download answers 500, because
    [res.setHeader] refuses the [Content-Disposition]. *)
Example line_feed_in_a_file_name :
  let file :=
    {| File.originalname := "a" ++ nl ++ "b.jpg";
       File.mimetype := "image/jpeg";
       File.size := 3;
       File.buffer := Sim.photo_bytes |} in
  let w := Sim.after (upload_media (Some [file])) Sim.fresh in
  (exists r, fst (get_media "1" w) = Normal r /\ statusCode r = 200)
  /\ (exists r,
        fst (download_media "1" w) = Normal r
        /\ statusCode r = 500
        /\ body r = JsonMessage "Failed to download media file").
Proof. vm_compute. split; eexists; repeat split. Qed.

(** A record whose [fileType] has a line feed in it: the three read routes
    answer 500. *)
Example line_feed_in_a_fileType :
  let odd :=
    {| InsertMedia.fileName := "beach.jpg";
       InsertMedia.fileType := "image/" ++ nl ++ "jpeg";
       InsertMedia.fileSize := 3;
       InsertMedia.uploadDate := "2025-06-14T12:00:00.000Z";
       InsertMedia.metadata := None |} in
  read_routes_answer 500 "1"
    (Sim.after (createMedia odd Sim.photo_bytes) Sim.fresh).
Proof. vm_compute. repeat split; eexists; split; reflexivity. Qed.

(** C7: ["1x"] is not numeric, and it is read as the id 1. *)
Lemma non_numeric_id_is_not_always_400 :
  ~ non_numeric_is_400_as_specified "1x" Sim.fresh.
Proof.
  intros Hspec. destruct (Hspec eq_refl) as [(r & Hr & Hcode) _].
  assert (Hget : fst (get_media "1x" Sim.fresh)
                 = Normal (res_end (JsonMessage "Media not found")
                             (res_status 404 res))) by reflexivity.
  rewrite Hget in Hr. injection Hr as <-. discriminate Hcode.
Qed.

(** C7 on the simulated platform. *)
Lemma invalid_and_unknown_ids_witness :
  read_routes_answer 400 "abc" Sim.album
  /\ read_routes_answer 404 "7" Sim.album.
Proof.
  split.
  - exact (proj1 (invalid_and_unknown_ids (P := Sim.platform) "abc" Sim.album) eq_refl).
  - exact (proj2 (invalid_and_unknown_ids (P := Sim.platform) "7" Sim.album) 7 eq_refl eq_refl).
Defined.

Lemma large_photo_is_accepted : fileFilter Sim.large_photo = true.
Proof. reflexivity. Qed.

Lemma large_photo_reaches_the_limit :
  fileSizeLimit <= Z.of_nat (length (Part.content Sim.large_photo)).
Proof.
  change (Part.content Sim.large_photo)
    with (List.repeat x00 (Z.to_nat fileSizeLimit)).
  rewrite List.repeat_length, Z2Nat.id; [apply Z.le_refl|].
  unfold fileSizeLimit. lia.
Qed.

Lemma large_photo_is_a_batch :
  List.filter fileFilter [Sim.large_photo] <> [].
Proof. cbn [List.filter]. rewrite large_photo_is_accepted. discriminate. Qed.

(** C8: a photo of exactly [limits.fileSize] bytes passes the filter, and
    the answer is 500. *)
Lemma part_at_the_limit_is_answered_500 :
  ~ batch_answers_201_as_specified upload_media [Sim.large_photo] Sim.fresh.
Proof.
  intros Hspec.
  destruct (Hspec large_photo_is_a_batch) as (results & w' & Hanswer).
  pose proof (upload_request_at_the_limit upload_media Sim.large_photo
                Sim.fresh large_photo_is_accepted
                large_photo_reaches_the_limit) as H500.
  rewrite H500 in Hanswer.
  apply (f_equal fst) in Hanswer. cbn [fst] in Hanswer.
  inversion Hanswer.
Qed.

(** C8 on the simulated platform: the text file is dropped, and on a full
    disk both remaining files fail; the answer is 201 all the same. *)
Lemma upload_batch_witness :
  exists results w',
    upload_request upload_media Sim.batch (boot Sim.full_disk [])
    = (Normal
         (res_end (JsonUpload "Files processed" results) (res_status 201 res)),
       w')
    /\ length results = 2%nat.
Proof.
  destruct (proj1
              (proj1 (upload_batch_answers_201 (P := Sim.platform) Sim.batch
                        (boot Sim.full_disk []) ltac:(discriminate)))
              eq_refl)
    as (results & w' & Hr & _ & Hlen).
  exists results, w'. split; [exact Hr|exact Hlen].
Defined.

(** C10 on the simulated platform: Cloudinary gives no result for the photo
    and a URL for the video. The photo leaves no trace; the video becomes
    record 1, with the URL in its metadata. *)
Example mirrored_upload_of_two_files :
  let files := List.map memoryStorage (List.filter fileFilter Sim.batch) in
  let url := "https://res.cloudinary.com/demo/video/upload/dance.mp4" in
  let w := boot Sim.empty_disk [CloudNoResult; CloudUploaded url] in
  let '(answer, w') := upload_media_mirrored (Some files) w in
  answer
  = Normal
      (res_end
         (JsonUpload "Files processed"
            [ {| UploadResult.id := None;
                 UploadResult.fileName := "beach.jpg";
                 UploadResult.cloudinaryUrl := None;
                 UploadResult.status := "error";
                 UploadResult.message := Some "No result from Cloudinary" |};
              {| UploadResult.id := Some 1;
                 UploadResult.fileName := "dance.mp4";
                 UploadResult.cloudinaryUrl := Some url;
                 UploadResult.status := "success";
                 UploadResult.message := None |} ])
         (res_status 201 res))
  /\ List.map MediaFile.metadata (JsMap.values (media (storage w')))
     = [Some (JObj [("originalName", JStr "dance.mp4");
                    ("cloudinaryUrl", JStr url)])]
  /\ existsSync (filePath 1 "beach.jpg") (disk w') = false
  /\ existsSync (filePath 1 "dance.mp4") (disk w') = true.
Proof. vm_compute. repeat split. Qed.

(** Deleting record 1 of the album twice: [true], then [false]. *)
Example deleteMedia_twice :
  let '(first, w1) := deleteMedia 1 Sim.album in
  let '(second, w2) := deleteMedia 1 w1 in
  first = Normal true
  /\ second = Normal false
  /\ fst (getAllMedia w2) = Normal [spread_with_id Sim.clip 2].
Proof. vm_compute. repeat split. Qed.

(** * Further properties of the code *)

(** ** Ids in URLs and in storage keys

    The registry writes an id into the key of a blob with [`${id}`], and the
    client writes it into the URLs [/api/media/${media.id}]; the routes read
    it back with [parseInt]. *)

Lemma string_app_nil_r (s : string) : s ++ "" = s.
Proof.
  induction s as [|c s IH]; [reflexivity|].
  change (String c s ++ "") with (String c (s ++ "")). congruence.
Qed.

Lemma string_app_assoc (a b c : string) : (a ++ b) ++ c = a ++ (b ++ c).
Proof.
  induction a as [|x a IH]; [reflexivity|].
  change ((String x a ++ b) ++ c) with (String x ((a ++ b) ++ c)).
  change (String x a ++ b ++ c) with (String x (a ++ b ++ c)). congruence.
Qed.

Lemma all_decimal_digits_app (a b : string) :
  all_decimal_digits (a ++ b) = all_decimal_digits a && all_decimal_digits b.
Proof.
  unfold all_decimal_digits. induction a as [|c a IH]; simpl; auto.
  rewrite IH. now rewrite andb_assoc.
Qed.

Lemma pretty_N_char_digit (m : N) :
  (m < 10)%N ->
  is_decimal_digit (pretty_N_char m) = true
  /\ digit_value (pretty_N_char m) = Some (Z.of_N m).
Proof.
  intros Hm.
  assert (Hcases : (m = 0 \/ m = 1 \/ m = 2 \/ m = 3 \/ m = 4 \/ m = 5
                    \/ m = 6 \/ m = 7 \/ m = 8 \/ m = 9)%N) by lia.
  repeat (destruct Hcases as [->|Hcases]; [split; reflexivity|]).
  subst m. split; reflexivity.
Qed.

(** The numeral of [x] in front of [s]: decimal digits only, whose value
    is [x]. *)
Lemma pretty_N_go_numeral (x : N) (s : string) :
  exists p,
    pretty_N_go x s = p ++ s
    /\ all_decimal_digits p = true
    /\ ((0 < x)%N -> p <> "")
    /\ forall acc rest,
         fold_left (fun a d => a * 10 + d)
           (leading_digits 10 (p ++ rest)) acc
         = fold_left (fun a d => a * 10 + d) (leading_digits 10 rest)
             (acc * 10 ^ Z.of_nat (String.length p) + Z.of_N x).
Proof.
  revert s. induction (N.lt_wf_0 x) as [x _ IH]. intros s.
  destruct (N.eq_dec x 0%N) as [->|Hx].
  - exists "". rewrite pretty_N_go_0. repeat split; try (intros; lia).
    intros acc rest. simpl. f_equal. lia.
  - rewrite pretty_N_go_step by lia.
    destruct (IH (x `div` 10)%N
                ltac:(apply N.div_lt; lia)
                (String (pretty_N_char (x `mod` 10)) s))
      as (p & Hp & Hdigits & _ & Hval).
    destruct (pretty_N_char_digit (x `mod` 10)%N
                ltac:(apply N.mod_lt; lia)) as [Hc Hv].
    exists (p ++ String (pretty_N_char (x `mod` 10)) "").
    split; [now rewrite Hp, string_app_assoc|].
    split.
    { rewrite all_decimal_digits_app, Hdigits. unfold all_decimal_digits.
      simpl. now rewrite Hc. }
    split.
    { intros _. destruct p; discriminate. }
    intros acc rest. rewrite string_app_assoc, Hval.
    change (String (pretty_N_char (x `mod` 10)) "" ++ rest)
      with (String (pretty_N_char (x `mod` 10)) rest).
    pose proof (N.mod_lt x 10 ltac:(lia)) as Hm.
    assert (Hl : leading_digits 10
                   (String (pretty_N_char (x `mod` 10)) rest)
                 = Z.of_N (x `mod` 10) :: leading_digits 10 rest).
    { simpl. rewrite Hv. destruct (Z.ltb_spec (Z.of_N (x `mod` 10)) 10);
        [reflexivity|lia]. }
    rewrite Hl. simpl fold_left. f_equal.
    assert (Hlen : String.length
                     (p ++ String (pretty_N_char (x `mod` 10)) "")
                   = S (String.length p)).
    { clear. induction p as [|c p IH]; [reflexivity|].
      change (String c p ++ String (pretty_N_char (x `mod` 10)) "")
        with (String c (p ++ String (pretty_N_char (x `mod` 10)) "")).
      simpl. congruence. }
    rewrite Hlen, Nat2Z.inj_succ, Z.pow_succ_r by lia.
    pose proof (N.div_mod x 10 ltac:(lia)) as Hdm.
    apply (f_equal Z.of_N) in Hdm.
    rewrite N2Z.inj_add, N2Z.inj_mul in Hdm. simpl in Hdm. lia.
Qed.

(** [parseInt] on a string of decimal digits, and on such a string after a
    minus sign. *)
Lemma parseInt_decimal (s : string) :
  s <> "" ->
  all_decimal_digits s = true ->
  parseInt s = Some (digits_value 10 (leading_digits 10 s))
  /\ parseInt (String "-" s) = Some (- digits_value 10 (leading_digits 10 s)).
Proof.
  destruct s as [|c rest]; [congruence|]. intros _ Hd.
  unfold all_decimal_digits in Hd. simpl in Hd.
  apply andb_prop in Hd as [Hc Hrest].
  assert (Hlead : exists d ds,
            leading_digits 10 (String c rest) = d :: ds).
  { simpl. unfold is_decimal_digit in Hc. unfold digit_value.
    apply andb_prop in Hc as [Hlo Hhi]. apply N.leb_le in Hlo, Hhi.
    set (n := Z.of_N (N_of_ascii c)).
    assert (Hn : 48 <= n <= 57) by (subst n; lia).
    destruct (Z.leb_spec 48 n); [|lia]. destruct (Z.leb_spec n 57); [|lia].
    simpl. destruct (Z.ltb_spec (n - 48) 10); [eauto|lia]. }
  destruct Hlead as (d & ds & Hlead).
  assert (Hradix :
            match String c rest with
            | String "0"%char (String x rest') =>
                if Ascii.eqb x "x"%char || Ascii.eqb x "X"%char
                then (16, rest') else (10, String c rest)
            | _ => (10, String c rest)
            end = (10, String c rest)).
  { destruct c as [[] [] [] [] [] [] [] []]; try reflexivity.
    destruct rest as [|x rest']; [reflexivity|].
    simpl in Hrest. apply andb_prop in Hrest as [Hx _].
    now rewrite (digit_not_hex_mark x Hx). }
  split.
  - unfold parseInt. simpl trim_start.
    rewrite (digit_not_white_space c Hc).
    assert (Hsign :
              match String c rest with
              | String "-"%char r => (-1, r)
              | String "+"%char r => (1, r)
              | _ => (1, String c rest)
              end = (1, String c rest)).
    { destruct c as [[] [] [] [] [] [] [] []]; try reflexivity;
        discriminate Hc. }
    rewrite Hsign, Hradix, Hlead. f_equal; lia.
  - unfold parseInt. simpl trim_start. cbv iota beta.
    rewrite Hradix, Hlead. f_equal; lia.
Qed.

(** The decimal text of a number reads back as the number. *)
Lemma parseInt_pretty (id : Z) : parseInt (pretty id) = Some id.
Proof.
  assert (Hpos : forall p : positive,
            exists s,
              pretty (N.pos p) = s /\ s <> ""
              /\ all_decimal_digits s = true
              /\ digits_value 10 (leading_digits 10 s) = Z.pos p).
  { intros p. unfold pretty, pretty_N.
    destruct (decide (N.pos p = 0%N)) as [|_]; [discriminate|].
    destruct (pretty_N_go_numeral (N.pos p) "") as (s & Hs & Hd & Hne & Hval).
    rewrite string_app_nil_r in Hs. exists s.
    split; [assumption|]. split; [apply Hne; lia|]. split; [assumption|].
    specialize (Hval 0 ""). rewrite string_app_nil_r in Hval.
    unfold digits_value. rewrite Hval. simpl. lia. }
  destruct id as [|p|p]; [reflexivity| |].
  - destruct (Hpos p) as (s & Hs & Hne & Hd & Hv).
    change (pretty (Z.pos p)) with (pretty (N.pos p)). rewrite Hs.
    rewrite (proj1 (parseInt_decimal s Hne Hd)). now rewrite Hv.
  - destruct (Hpos p) as (s & Hs & Hne & Hd & Hv).
    change (pretty (Z.neg p)) with ("-" ++ pretty (N.pos p)). rewrite Hs.
    change ("-" ++ s) with (String "-" s).
    rewrite (proj2 (parseInt_decimal s Hne Hd)). now rewrite Hv.
Qed.

Lemma digits_no_underscore (s : string) :
  all_decimal_digits s = true -> no_underscore s = true.
Proof.
  unfold all_decimal_digits, no_underscore.
  induction s as [|c s IH]; simpl; auto.
  intros Hd. apply andb_prop in Hd as [Hc Hs]. rewrite IH by assumption.
  rewrite andb_true_r. apply negb_true_iff, Ascii.eqb_neq.
  intros ->. discriminate Hc.
Qed.

Lemma pretty_no_underscore (id : Z) : no_underscore (pretty id) = true.
Proof.
  assert (Hpos : forall p : positive,
            no_underscore (pretty (N.pos p)) = true).
  { intros p. unfold pretty, pretty_N.
    destruct (decide (N.pos p = 0%N)) as [|_]; [reflexivity|].
    destruct (pretty_N_go_numeral (N.pos p) "") as (s & Hs & Hd & _).
    rewrite string_app_nil_r in Hs. rewrite Hs.
    now apply digits_no_underscore. }
  destruct id as [|p|p]; [reflexivity|apply Hpos|].
  change (pretty (Z.neg p)) with (String "-" (pretty (N.pos p))).
  unfold no_underscore in *. simpl. apply Hpos.
Qed.

(** Two texts cut at their first underscore. *)
Lemma split_at_underscore (p1 p2 f1 f2 : string) :
  no_underscore p1 = true ->
  no_underscore p2 = true ->
  p1 ++ String "_" f1 = p2 ++ String "_" f2 ->
  p1 = p2 /\ f1 = f2.
Proof.
  unfold no_underscore. revert p2.
  induction p1 as [|c p1 IH]; intros [|c2 p2]; simpl; intros H1 H2 Heq.
  - injection Heq as ->. auto.
  - change ("" ++ String "_" f1) with (String "_" f1) in Heq.
    change (String c2 p2 ++ String "_" f2)
      with (String c2 (p2 ++ String "_" f2)) in Heq.
    injection Heq as <- _. discriminate H2.
  - change ("" ++ String "_" f2) with (String "_" f2) in Heq.
    change (String c p1 ++ String "_" f1)
      with (String c (p1 ++ String "_" f1)) in Heq.
    injection Heq as -> _. discriminate H1.
  - apply andb_prop in H1 as [_ H1]. apply andb_prop in H2 as [_ H2].
    change (String c p1 ++ String "_" f1)
      with (String c (p1 ++ String "_" f1)) in Heq.
    change (String c2 p2 ++ String "_" f2)
      with (String c2 (p2 ++ String "_" f2)) in Heq.
    injection Heq as -> Heq. destruct (IH p2 H1 H2 Heq) as [-> ->]. auto.
Qed.

(** The key [`${id}_${fileName}`] determines both the id and the file
    name. *)
Lemma blobKey_inj (id1 id2 : Z) (f1 f2 : string) :
  blobKey id1 f1 = blobKey id2 f2 -> id1 = id2 /\ f1 = f2.
Proof.
  unfold blobKey. intros Heq.
  change ("_" ++ f1) with (String "_" f1) in Heq.
  change ("_" ++ f2) with (String "_" f2) in Heq.
  apply split_at_underscore in Heq as [Hid Hf];
    auto using pretty_no_underscore.
  split; [|assumption]. now apply (inj pretty).
Qed.

(** X1. The URL the client builds for a record, [/api/media/${media.id}],
    carries an id text that the routes parse back to the id of the record,
    whatever the id is. *)
Theorem id_in_url_parses_back (media : MediaFile.t) :
  parseInt (id_in_url media) = Some (MediaFile.id media).
Proof. apply parseInt_pretty. Qed.

(** In a consistent registry a listed record is found under its id. *)
Lemma registry_ok_get_listed (s : MemStorage) (r : MediaFile.t) :
  registry_ok s ->
  In r (JsMap.values (media s)) ->
  JsMap.get (MediaFile.id r) (media s) = Some r.
Proof.
  intros [Hall Hnd]. unfold JsMap.values, JsMap.keys in *.
  revert Hall Hnd. generalize (mediaCurrentId s).
  induction (media s) as [|[k v] m IH]; intros n Hall Hnd; simpl; [tauto|].
  inversion Hall as [|? ? Hkv Hall']. simpl in Hkv. destruct Hkv as [Hk _].
  inversion Hnd as [|? ? Hnotin Hnd']. simpl in *. clear Hall Hnd.
  intros [Hr|Hin].
  - rewrite <- Hr, Hk. now rewrite Z.eqb_refl.
  - destruct (Z.eqb_spec k (MediaFile.id r)) as [Heq|_]; [|eauto].
    exfalso. apply Hnotin. rewrite Heq.
    apply List.in_map_iff in Hin as ([k' v'] & Hv & Hin). simpl in Hv. subst v'.
    rewrite List.Forall_forall in Hall'. destruct (Hall' _ Hin) as [Hid _].
    simpl in Hid. rewrite Hid.
    apply List.in_map_iff. exists (k', r). auto.
Qed.

(** X2. The keys of the blobs never collide: in a consistent registry, two
    different records have different blob keys [`${id}_${fileName}`],
    whatever their file names are (also when a file name itself starts with
    digits and an underscore). *)
Theorem registry_blob_keys_differ (s : MemStorage) (r1 r2 : MediaFile.t) :
  registry_ok s ->
  In r1 (JsMap.values (media s)) ->
  In r2 (JsMap.values (media s)) ->
  r1 <> r2 ->
  blobKey (MediaFile.id r1) (MediaFile.fileName r1)
  <> blobKey (MediaFile.id r2) (MediaFile.fileName r2).
Proof.
  intros Hok H1 H2 Hne Hkey. apply Hne.
  apply blobKey_inj in Hkey as [Hid _].
  apply (registry_ok_get_listed s) in H1, H2; try assumption.
  rewrite Hid in H1. congruence.
Qed.

Lemma jsmap_values_set_In {V} (k : Z) (v x : V) (m : JsMap.t V) :
  In x (JsMap.values (JsMap.set k v m)) -> x = v \/ In x (JsMap.values m).
Proof.
  unfold JsMap.values.
  induction m as [|[k' v'] m IH]; simpl.
  - intros [<-|[]]. now left.
  - destruct (Z.eqb_spec k' k) as [->|Hne]; simpl.
    + intros [<-|Hin]; auto.
    + intros [<-|Hin]; auto. destruct (IH Hin); auto.
Qed.

Lemma jsmap_values_delete_In {V} (k : Z) (x : V) (m : JsMap.t V) :
  In x (JsMap.values (JsMap.delete k m)) -> In x (JsMap.values m).
Proof.
  unfold JsMap.values, JsMap.delete. rewrite !List.in_map_iff.
  intros (kv & Hx & [Hin _]%List.filter_In). eauto.
Qed.

(** ** The blobs of the registered records *)

Section Blobs.
Context {Disk Cloud : Type} {P : Platform Disk Cloud}.

Local Abbreviation W := (@World Disk Cloud).

Implicit Types (w : W) (r : MediaFile.t) (data : bytes).

Lemma serves_getMediaFile w r data :
  serves w r data ->
  getMediaFile (MediaFile.id r) w = (Normal (Some (data, r)), w).
Proof.
  intros (Hget & _ & _ & Hex & Hrd). now apply getMediaFile_found.
Qed.

Lemma filePath_apart (id1 id2 : Z) (f1 f2 : string) :
  faithful_disk ->
  plain_name f1 = true ->
  plain_name f2 = true ->
  id1 <> id2 ->
  filePath id1 f1 <> filePath id2 f2.
Proof.
  intros Hfd H1 H2 Hne Heq.
  apply (join_keeps_blob_keys_apart Hfd _ _ _ _ H1 H2) in Heq.
  apply (blobKey_inj id1 id2 f1 f2) in Heq as [? _]. contradiction.
Qed.

Lemma createMedia_serves_new (im : InsertMedia.t) data w r w' :
  faithful_disk ->
  plain_name (InsertMedia.fileName im) = true ->
  createMedia im data w = (Normal r, w') ->
  serves w' r data.
Proof.
  intros Hfd Hplain. rewrite createMedia_cases. cbv zeta.
  destruct (writeFileSync _ data (disk w)) as [[[]|e] d] eqn:Hw;
    [|discriminate].
  intros [= <- <-]. apply (written_is_read Hfd) in Hw as [Hex Hrd].
  unfold serves. simpl. rewrite jsmap_get_set_eq. repeat split; auto. lia.
Qed.

Lemma createMedia_keeps (im : InsertMedia.t) (fileData : bytes) w r data :
  faithful_disk ->
  plain_name (InsertMedia.fileName im) = true ->
  serves w r data ->
  serves (snd (createMedia im fileData w)) r data.
Proof.
  intros Hfd Hplain (Hget & Hlt & Hr & Hex & Hrd).
  rewrite createMedia_cases. cbv zeta.
  assert (Hpath : filePath (MediaFile.id r) (MediaFile.fileName r)
                  <> filePath (mediaCurrentId (storage w))
                       (InsertMedia.fileName im)).
  { apply filePath_apart; [assumption..|lia]. }
  destruct (writeFileSync _ fileData (disk w)) as [[[]|e] d] eqn:Hw;
    destruct (write_elsewhere Hfd _ _ _ _ _ _ Hw Hpath) as [Hex' Hrd'];
    unfold serves; simpl; rewrite Hex', Hrd'.
  - rewrite jsmap_get_set_ne by lia. repeat split; auto. lia.
  - repeat split; auto. lia.
Qed.

Lemma plain_registry_get id m w :
  plain_registry w ->
  JsMap.get id (media (storage w)) = Some m ->
  plain_name (MediaFile.fileName m) = true.
Proof.
  unfold plain_registry. rewrite List.Forall_forall.
  intros Hall Hget. apply Hall. apply jsmap_get_In in Hget.
  unfold JsMap.values. apply List.in_map_iff. exists (id, m). auto.
Qed.

Lemma deleteMedia_keeps id w r data :
  faithful_disk ->
  plain_registry w ->
  serves w r data ->
  id <> MediaFile.id r \/ fst (deleteMedia id w) <> Normal true ->
  serves (snd (deleteMedia id w)) r data.
Proof.
  intros Hfd Hreg (Hget & Hlt & Hr & Hex & Hrd) Hcase.
  rewrite deleteMedia_cases in *.
  destruct (JsMap.get id (media (storage w))) as [m|] eqn:Hm;
    [|now repeat split].
  cbv zeta in *.
  destruct (Z.eq_dec id (MediaFile.id r)) as [->|Hne].
  - assert (m = r) by congruence. subst m. rewrite Hex in *.
    destruct Hcase as [Hcase|Hcase]; [congruence|].
    destruct (unlinkSync _ (disk w)) as [[[]|e] d] eqn:Hu;
      [now contradiction Hcase|].
    destruct (unlink_failed Hfd _ _ _ _ Hu) as [Hex' Hrd'].
    unfold serves. simpl. rewrite Hex', Hrd'. auto.
  - assert (Hpath : filePath (MediaFile.id r) (MediaFile.fileName r)
                    <> filePath id (MediaFile.fileName m)).
    { apply filePath_apart; [assumption|assumption| |congruence].
      eapply plain_registry_get; eauto. }
    destruct (existsSync (filePath id (MediaFile.fileName m)) (disk w)).
    + destruct (unlinkSync _ (disk w)) as [[[]|e] d] eqn:Hu;
        destruct (unlink_elsewhere Hfd _ _ _ _ _ Hu Hpath) as [Hex' Hrd'];
        unfold serves; simpl; rewrite Hex', Hrd';
        rewrite ?jsmap_get_delete_ne by assumption; auto.
    + unfold serves. simpl. rewrite jsmap_get_delete_ne by assumption. auto.
Qed.

(** One call keeps the file names of the registry plain. *)
Lemma call_plain (c : Call) w :
  plain_names [c] = true ->
  plain_registry w ->
  plain_registry (snd (call c w)).
Proof.
  unfold plain_registry. intros Hc Hreg.
  destruct c as [|id|im fileData|id|id|d]; simpl in *; try assumption.
  - rewrite andb_true_r in Hc. rewrite createMedia_cases. cbv zeta.
    destruct (writeFileSync _ fileData (disk w)) as [[[]|e] d0]; simpl;
      [|assumption].
    rewrite List.Forall_forall in *.
    intros x [->|Hin]%jsmap_values_set_In; [exact Hc|auto].
  - rewrite deleteMedia_cases.
    destruct (JsMap.get id (media (storage w))) as [m|]; [|assumption].
    cbv zeta.
    assert (Hgone : Forall (fun r => plain_name (MediaFile.fileName r) = true)
                      (JsMap.values (JsMap.delete id (media (storage w))))).
    { rewrite List.Forall_forall in *.
      intros x Hin%jsmap_values_delete_In. auto. }
    destruct (existsSync _ (disk w)); [|exact Hgone].
    destruct (unlinkSync _ (disk w)) as [[[]|e] d0]; simpl; assumption.
  - destruct (getMediaFile_returns id w) as (res & w' & Heq & Hst & _).
    rewrite Heq. simpl. now rewrite Hst.
Qed.

(** One call keeps the blob of a record it does not delete. *)
Lemma call_keeps (c : Call) w r data :
  faithful_disk ->
  undisturbed [c] = true ->
  plain_names [c] = true ->
  plain_registry w ->
  was_deleted (MediaFile.id r) [(c, fst (call c w))] = false ->
  serves w r data ->
  serves (snd (call c w)) r data.
Proof.
  intros Hfd Hc Hplain Hreg Hdel Hs.
  destruct c as [|id|im fileData|id|id|d]; simpl in *.
  - assumption.
  - assumption.
  - rewrite andb_true_r in Hplain.
    pose proof (createMedia_keeps im fileData w r data Hfd Hplain Hs) as Hk.
    now destruct (createMedia im fileData w).
  - pose proof (deleteMedia_keeps id w r data Hfd Hreg Hs) as Hk.
    destruct (deleteMedia id w) as [[[]|e] w']; simpl in *;
      apply Hk; auto; try (right; discriminate).
    left. apply orb_false_elim in Hdel as [Hne _]. now apply Z.eqb_neq.
  - destruct (getMediaFile_returns id w) as (res & w' & Heq & Hst & Hdk).
    rewrite Heq. simpl. destruct Hs as (? & ? & ? & ? & ?).
    unfold serves. rewrite Hst, Hdk. auto.
  - discriminate.
Qed.

Lemma run_serves (calls : list Call) w r data :
  faithful_disk ->
  undisturbed calls = true ->
  plain_names calls = true ->
  plain_registry w ->
  serves w r data \/ In (r, data) (created_blobs (fst (run calls w))) ->
  was_deleted (MediaFile.id r) (fst (run calls w)) = false ->
  serves (snd (run calls w)) r data.
Proof.
  intros Hfd. revert w.
  induction calls as [|c calls IH]; intros w Hund Hplain Hreg Hsrc Hdel;
    simpl in *.
  - destruct Hsrc as [?|[]]. assumption.
  - apply andb_prop in Hund as [Hc Hund].
    apply andb_prop in Hplain as [Hp Hplain].
    pose proof (call_keeps c w r data Hfd) as Hkeep. simpl in Hkeep.
    rewrite Hc, Hp in Hkeep. specialize (Hkeep eq_refl eq_refl Hreg).
    pose proof (call_plain c w) as Hreg1. simpl in Hreg1.
    rewrite Hp in Hreg1. specialize (Hreg1 eq_refl Hreg).
    pose proof (createMedia_serves_new) as Hnew.
    destruct (call c w) as [o w1] eqn:Hcall. simpl in Hkeep, Hreg1.
    specialize (IH w1 Hund Hplain Hreg1). destruct (run calls w1) as [h w2].
    simpl in *. apply IH.
    + assert (Hhead : was_deleted (MediaFile.id r) [(c, o)] = false).
      { destruct c; simpl in *; try reflexivity.
        destruct o as [?|?|?|[[]|?]|?|]; try reflexivity.
        apply orb_false_elim in Hdel as [-> _]. reflexivity. }
      destruct Hsrc as [Hs|Hin]; [left; auto|].
      destruct c as [|id|im fileData|id|id|d]; simpl in Hcall;
        try (now right; destruct o as [?|?|[?|?]|?|?|]).
      destruct (createMedia im fileData w) as [[r0|e] w0] eqn:Hc0;
        injection Hcall as <- <-; simpl in Hin; [|now right].
      destruct Hin as [[= <- <-]|Hin]; [left|now right].
      eapply Hnew; eauto.
    + destruct c; simpl in *; try assumption.
      destruct o as [?|?|?|[[]|?]|?|]; try assumption.
      now apply orb_false_elim in Hdel as [_ ->].
Qed.

Lemma created_blobs_records (calls : list Call) w :
  List.map fst (created_blobs (fst (run calls w)))
  = created_records (fst (run calls w)).
Proof.
  revert w. induction calls as [|c calls IH]; intros w; simpl; auto.
  destruct (call c w) as [o w1] eqn:Hcall. specialize (IH w1).
  destruct (run calls w1) as [h w2]. simpl in *.
  destruct c as [|id|im fileData|id|id|d]; simpl in Hcall.
  - injection Hcall as <- _. assumption.
  - injection Hcall as <- _. assumption.
  - destruct (createMedia im fileData w) as [[r|e] w0];
      injection Hcall as <- _; simpl; congruence.
  - destruct (deleteMedia id w) as [res w0]. injection Hcall as <- _.
    assumption.
  - destruct (getMediaFile id w) as [res w0]. injection Hcall as <- _.
    assumption.
  - injection Hcall as <- _. assumption.
Qed.

(** X3. On a disk that behaves as a file system and is changed by nothing
    but the process, and with file names that have no path separator in
    them, the registry and the blobs stay consistent through every history
    from start-up: each record that [getAllMedia] lists was returned by a
    [createMedia] call of the history, and [getMediaFile] on its id returns
    that record with exactly the bytes it was created with, whatever was
    created, deleted or failed in between. *)
Theorem listed_records_have_their_blobs
    (d : Disk) (c : Cloud) (calls : list Call) (r : MediaFile.t) :
  faithful_disk ->
  undisturbed calls = true ->
  plain_names calls = true ->
  let h := fst (run calls (boot d c)) in
  let w := snd (run calls (boot d c)) in
  In r (JsMap.values (media (storage w))) ->
  exists data,
    In (r, data) (created_blobs h)
    /\ fst (getMediaFile (MediaFile.id r) w) = Normal (Some (data, r)).
Proof.
  intros Hfd Hund Hplain. cbv zeta. intros Hin.
  rewrite run_values in Hin by apply registry_ok_boot. simpl in Hin.
  apply List.filter_In in Hin as [Hin Hdel].
  apply negb_true_iff in Hdel.
  rewrite <- created_blobs_records in Hin.
  apply List.in_map_iff in Hin as ([r' data] & Hr & Hin). simpl in Hr.
  subst r'. exists data. split; [assumption|].
  rewrite (serves_getMediaFile _ r data); [reflexivity|].
  apply run_serves; auto. constructor.
Qed.

End Blobs.

(** ** More about the routes *)

Section Routes.
Context {Disk Cloud : Type} {P : Platform Disk Cloud}.

Local Abbreviation W := (@World Disk Cloud).

Implicit Types (w : W) (r : MediaFile.t) (data : bytes).






End Routes.

Section Writes.
Context {Disk Cloud : Type} {P : Platform Disk Cloud}.

Local Abbreviation W := (@World Disk Cloud).

Implicit Types (w : W) (r : MediaFile.t) (data : bytes).

(** *** Deleting through the route *)

Lemma delete_media_cases (id_param : string) w :
  delete_media id_param w
  = match parseInt id_param with
    | None =>
        (Normal (res_end (JsonMessage "Invalid ID format")
                   (res_status 400 res)), w)
    | Some id =>
        match deleteMedia id w with
        | (Normal true, w') =>
            (Normal (res_end (JsonMessage "Media deleted successfully") res),
             w')
        | (Normal false, w') =>
            (Normal (res_end (JsonMessage "Media not found or already deleted")
                       (res_status 404 res)), w')
        | (Throw e, w') =>
            (Normal (res_end (JsonMessage "Failed to delete media")
                       (res_status 500 res)),
             with_console
               (console w' ++ [[Str "Error deleting media:"; Err e]]) w')
        end
    end.
Proof.
  unfold delete_media, try_catch, bind, console_error, ret.
  destruct (parseInt id_param) as [id|]; [|reflexivity].
  destruct (deleteMedia id w) as [[[]|e] w']; reflexivity.
Qed.

Lemma deleteMedia_result id w :
  exists result w',
    deleteMedia id w = (Normal result, w')
    /\ (result = true -> JsMap.get id (media (storage w')) = None)
    /\ (result = false -> storage w' = storage w)
    /\ (JsMap.get id (media (storage w)) = None ->
        result = false /\ w' = w).
Proof.
  rewrite deleteMedia_cases.
  destruct (JsMap.get id (media (storage w))) as [m|];
    [|do 2 eexists; split; [reflexivity|]; repeat split; intros;
      try discriminate; auto].
  cbv zeta. destruct (existsSync _ (disk w)).
  - destruct (unlinkSync _ (disk w)) as [[[]|e] d];
      do 2 eexists; (split; [reflexivity|]); simpl;
      repeat split; intros; try discriminate; auto using jsmap_get_delete_eq.
  - do 2 eexists. split; [reflexivity|]. simpl.
    repeat split; intros; try discriminate; auto using jsmap_get_delete_eq.
Qed.

(** X6. Deleting through the route is final. [DELETE /api/media/:id]
    answers 400 to an id string that is not a number, and otherwise 200 or
    404, never 500. After a 200 the record is gone: the same request
    repeated answers 404 and changes nothing, and the get, download and
    thumbnail routes answer 404 for that id string. After a 404 the
    registry is as it was. *)
Theorem delete_route_is_final (id_param : string) w :
  exists resp w1,
    delete_media id_param w = (Normal resp, w1)
    /\ match parseInt id_param with
       | None => statusCode resp = 400 /\ w1 = w
       | Some id =>
           (statusCode resp = 200
            /\ JsMap.get id (media (storage w1)) = None
            /\ (exists again,
                  delete_media id_param w1 = (Normal again, w1)
                  /\ statusCode again = 404)
            /\ Forall
                 (fun route : string -> M W Response =>
                    exists answer,
                      fst (route id_param w1) = Normal answer
                      /\ statusCode answer = 404)
                 [get_media; download_media; thumbnail_media])
           \/ (statusCode resp = 404 /\ storage w1 = storage w)
       end.
Proof.
  rewrite delete_media_cases.
  destruct (parseInt id_param) as [id|] eqn:Hid; [|eauto].
  destruct (deleteMedia_result id w) as (result & w1 & Hdel & Htrue & Hfalse & _).
  rewrite Hdel. destruct result.
  - do 2 eexists. split; [reflexivity|]. left.
    specialize (Htrue eq_refl). split; [reflexivity|]. split; [assumption|].
    split.
    + rewrite delete_media_cases, Hid.
      destruct (deleteMedia_result id w1) as (res2 & w2 & Hdel2 & _ & _ & Hnone).
      destruct (Hnone Htrue) as [-> ->]. rewrite Hdel2. eauto.
    + destruct (getMediaFile_eq id w1) as [w' Hf]. rewrite Htrue in Hf.
      constructor; [|constructor; [|constructor; [|constructor]]].
      * rewrite get_media_cases, Hid, Hf. simpl. eauto.
      * rewrite download_media_cases, Hid, Hf. simpl. eauto.
      * rewrite thumbnail_media_cases, Hid, Htrue. simpl. eauto.
  - do 2 eexists. split; [reflexivity|]. right. auto.
Qed.

(** *** Uploading *)

(** X7. A request without an accepted file stores nothing: when the filter
    refuses every part (or there is none) multer hands an empty [req.files]
    to the route, and both upload routes answer 400 "No files uploaded" and
    leave the state, the id counter included, exactly as it was. *)
Theorem upload_without_accepted_file (parts : list Part.t) w :
  List.filter fileFilter parts = [] ->
  upload_array parts = MulterFiles []
  /\ Forall
       (fun route : option (list File.t) -> M W Response =>
          route (Some []) w
          = (Normal (res_end (JsonMessage "No files uploaded")
                       (res_status 400 res)), w))
       [upload_media; upload_media_mirrored].
Proof.
  intros Hnone. split.
  - unfold upload_array. now rewrite Hnone.
  - repeat constructor.
Qed.

Lemma createMedia_counts (im : InsertMedia.t) (fileData : bytes) w :
  mediaCurrentId (storage (snd (createMedia im fileData w)))
  = mediaCurrentId (storage w) + 1
  /\ (registry_ok (storage w) ->
      registry_ok (storage (snd (createMedia im fileData w))))
  /\ forall r,
       fst (createMedia im fileData w) = Normal r ->
       MediaFile.id r = mediaCurrentId (storage w).
Proof.
  split; [|split].
  - rewrite createMedia_cases. cbv zeta.
    now destruct (writeFileSync _ fileData (disk w)) as [[[]|e] d].
  - intros Hok.
    pose proof (registry_ok_call (CreateMedia im fileData) w Hok) as H1.
    simpl in H1. now destruct (createMedia im fileData w).
  - rewrite createMedia_cases. cbv zeta.
    destruct (writeFileSync _ fileData (disk w)) as [[[]|e] d]; simpl;
      [|discriminate]. now intros r [= <-].
Qed.

Lemma upload_file_counts : step_counts upload_file.
Proof.
  intros file w.
  unfold upload_file, bind, Date_toISOString, try_catch, lift, console_error,
    ret.
  destruct (insertMediaSchema_parse _) as [[]|e]; simpl.
  - set (w0 := with_clock (S (clock w)) w).
    destruct (createMedia_counts
                (mediaData_of file (toISOString (clock w)))
                (File.buffer file) w0) as (Hn & Hok & Hid).
    destruct (createMedia _ _ w0) as [[r|e] w1]; simpl in *;
      do 2 eexists; (split; [reflexivity|]); simpl; rewrite Hn;
      (split; [lia|]); (split; [assumption|]); intros id [= <-];
      rewrite (Hid r eq_refl); lia.
  - do 2 eexists. split; [reflexivity|]. simpl.
    split; [lia|]. split; [auto|]. discriminate.
Qed.

Lemma upload_file_mirrored_counts : step_counts upload_file_mirrored.
Proof.
  intros file w. rewrite upload_file_mirrored_cases. cbv zeta.
  destruct (insertMediaSchema_parse _) as [[]|e];
    [|do 2 eexists; split; [reflexivity|]; simpl;
      split; [lia|]; split; [auto|]; discriminate].
  destruct (upload_stream _ (cloud w)) as [[e| |url] c];
    try (do 2 eexists; split; [reflexivity|]; simpl;
         split; [lia|]; split; [auto|]; discriminate).
  set (w0 := with_cloud c (with_clock (S (clock w)) w)).
  destruct (createMedia_counts
              (set_cloudinaryUrl url
                 (mediaData_of file (toISOString (clock w))))
              (File.buffer file) w0) as (Hn & Hok & Hid).
  destruct (createMedia _ _ w0) as [[r|e] w1]; simpl in *;
    do 2 eexists; (split; [reflexivity|]); simpl; rewrite Hn;
    (split; [lia|]); (split; [assumption|]); intros id [= <-];
    rewrite (Hid r eq_refl); lia.
Qed.

Lemma for_each_file_counts (step : File.t -> M W UploadResult.t) :
  step_counts step ->
  forall files acc w,
    exists rs w',
      for_each_file step files acc w = (Normal (acc ++ rs)%list, w')
      /\ length rs = length files
      /\ mediaCurrentId (storage w) <= mediaCurrentId (storage w')
      /\ (registry_ok (storage w) -> registry_ok (storage w'))
      /\ Forall
           (fun id =>
              mediaCurrentId (storage w) <= id < mediaCurrentId (storage w'))
           (success_ids rs)
      /\ StronglySorted Z.lt (success_ids rs).
Proof.
  intros Hstep. induction files as [|file files IH]; intros acc w; simpl.
  - exists [], w. rewrite app_nil_r.
    split; [reflexivity|]. split; [reflexivity|]. split; [lia|].
    split; [auto|]. split; constructor.
  - destruct (Hstep file w) as (r & w1 & Hr & Hle & Hok & Hid).
    destruct (IH (acc ++ [r])%list w1)
      as (rs & w2 & Hrs & Hlen & Hle2 & Hok2 & Hall & Hsort).
    exists (r :: rs), w2. unfold bind. rewrite Hr, Hrs, <- app_assoc.
    split; [reflexivity|]. split; [simpl; congruence|].
    split; [lia|]. split; [auto|].
    assert (Hall' : Forall
              (fun id => mediaCurrentId (storage w) <= id
                         < mediaCurrentId (storage w2)) (success_ids rs)).
    { eapply List.Forall_impl; [|exact Hall]. simpl. intros; lia. }
    unfold success_ids in *. simpl.
    destruct (UploadResult.id r) as [id|]; simpl; [|auto].
    specialize (Hid id eq_refl). split.
    + constructor; [lia|assumption].
    + constructor; [assumption|].
      eapply List.Forall_impl; [|exact Hall]. simpl. intros; lia.
Qed.

(** X8. Both upload routes hand out ids in the order of the files: in the
    answer to a batch, the ids of the stored files are strictly increasing
    along [results], none is below the counter the request found and all
    are below the counter it leaves; and the request keeps the registry
    consistent (every record filed under its own id, below the counter, no
    id twice). *)
Theorem upload_ids_follow_the_files (files : list File.t) w :
  files <> [] ->
  Forall
    (fun route : option (list File.t) -> M W Response =>
       exists results w',
         route (Some files) w
         = (Normal
              (res_end (JsonUpload "Files processed" results)
                 (res_status 201 res)),
            w')
         /\ StronglySorted Z.lt (success_ids results)
         /\ Forall
              (fun id =>
                 mediaCurrentId (storage w) <= id
                 < mediaCurrentId (storage w'))
              (success_ids results)
         /\ (registry_ok (storage w) -> registry_ok (storage w')))
    [upload_media; upload_media_mirrored].
Proof.
  intros Hne. repeat constructor.
  - destruct (for_each_file_counts upload_file upload_file_counts files [] w)
      as (rs & w' & Hloop & _ & _ & Hok & Hall & Hsort).
    exists rs, w'. split; [now apply upload_handler_loop|auto].
  - destruct (for_each_file_counts upload_file_mirrored
                upload_file_mirrored_counts files [] w)
      as (rs & w' & Hloop & _ & _ & Hok & Hall & Hsort).
    exists rs, w'. split; [now apply upload_handler_loop|auto].
Qed.

End Writes.

Section UploadThenGet.
Context {Disk Cloud : Type} {P : Platform Disk Cloud}.

Local Abbreviation W := (@World Disk Cloud).

Implicit Types (w : W) (r : MediaFile.t) (data : bytes).

Lemma serves_same_store w w' r data :
  storage w' = storage w -> disk w' = disk w ->
  serves w r data -> serves w' r data.
Proof. unfold serves. intros -> ->. auto. Qed.

Lemma createMedia_stores (im : InsertMedia.t) (fileData : bytes) w :
  faithful_disk ->
  plain_name (InsertMedia.fileName im) = true ->
  (forall r data,
     serves w r data -> serves (snd (createMedia im fileData w)) r data)
  /\ forall r,
       fst (createMedia im fileData w) = Normal r ->
       r = spread_with_id im (MediaFile.id r)
       /\ serves (snd (createMedia im fileData w)) r fileData.
Proof.
  intros Hfd Hplain. split.
  - intros r data. now apply createMedia_keeps.
  - intros r Hr. destruct (createMedia im fileData w) as [res w'] eqn:Hc.
    simpl in *. subst res. split.
    + rewrite createMedia_cases in Hc. cbv zeta in Hc.
      destruct (writeFileSync _ fileData (disk w)) as [[[]|e] d];
        [|discriminate]. now injection Hc as <- _.
    + eapply createMedia_serves_new; eauto.
Qed.

Lemma upload_file_stores : faithful_disk -> step_stores upload_file.
Proof.
  intros Hfd file w Hplain.
  unfold upload_file, bind, Date_toISOString, try_catch, lift, console_error,
    ret.
  set (w0 := with_clock (S (clock w)) w).
  assert (H0 : forall r data, serves w r data -> serves w0 r data).
  { intros r data. now apply serves_same_store. }
  destruct (insertMediaSchema_parse _) as [[]|e]; simpl.
  - destruct (createMedia_stores
                (mediaData_of file (toISOString (clock w)))
                (File.buffer file) w0 Hfd Hplain) as [Hkeep Hnew].
    destruct (createMedia _ _ w0) as [[r|e] w1]; simpl in *;
      do 2 eexists; (split; [reflexivity|]); simpl; split.
    + intros r0 data Hs. apply Hkeep, H0, Hs.
    + intros id [= <-]. destruct (Hnew r eq_refl) as [Hr Hs].
      exists r. split; [reflexivity|].
      split; [now rewrite Hr|]. split; [now rewrite Hr|assumption].
    + intros r data Hs. eapply serves_same_store; [| |apply Hkeep, H0, Hs];
        reflexivity.
    + discriminate.
  - do 2 eexists. split; [reflexivity|]. simpl. split; [|discriminate].
    intros r data Hs. eapply serves_same_store; [| |apply H0, Hs]; reflexivity.
Qed.

Lemma upload_file_mirrored_stores :
  faithful_disk -> step_stores upload_file_mirrored.
Proof.
  intros Hfd file w Hplain. rewrite upload_file_mirrored_cases. cbv zeta.
  set (w0 := with_clock (S (clock w)) w).
  assert (H0 : forall r data, serves w r data -> serves w0 r data).
  { intros r data. now apply serves_same_store. }
  assert (Hfailed : forall (c : Cloud) (e : thrown),
            forall r data, serves w r data ->
              serves
                (with_console
                   (console (with_cloud c w0)
                    ++ [[Str "Error processing file:";
                         Str (File.originalname file); Err e]])
                   (with_cloud c w0)) r data).
  { intros c e r data Hs.
    eapply serves_same_store; [| |apply H0, Hs]; reflexivity. }
  destruct (insertMediaSchema_parse _) as [[]|e].
  - destruct (upload_stream _ (cloud w)) as [[e| |url] c].
    + do 2 eexists. split; [reflexivity|]. split; [apply Hfailed|discriminate].
    + do 2 eexists. split; [reflexivity|]. split; [apply Hfailed|discriminate].
    + set (w1 := with_cloud c w0).
      assert (H1 : forall r data, serves w r data -> serves w1 r data).
      { intros r data Hs.
        eapply serves_same_store; [| |apply H0, Hs]; reflexivity. }
      destruct (createMedia_stores
                  (set_cloudinaryUrl url
                     (mediaData_of file (toISOString (clock w))))
                  (File.buffer file) w1 Hfd Hplain) as [Hkeep Hnew].
      destruct (createMedia _ _ w1) as [[r|e] w2]; simpl in *;
        do 2 eexists; (split; [reflexivity|]); simpl; split.
      * intros r0 data Hs. apply Hkeep, H1, Hs.
      * intros id [= <-]. destruct (Hnew r eq_refl) as [Hr Hs].
        exists r. split; [reflexivity|].
        split; [now rewrite Hr|]. split; [now rewrite Hr|assumption].
      * intros r data Hs.
        eapply serves_same_store; [| |apply Hkeep, H1, Hs]; reflexivity.
      * discriminate.
  - do 2 eexists. split; [reflexivity|]. split; [|discriminate].
    intros r data Hs. eapply serves_same_store; [| |apply H0, Hs]; reflexivity.
Qed.

Lemma for_each_file_stores (step : File.t -> M W UploadResult.t) :
  step_stores step ->
  forall files acc w,
    Forall (fun file => plain_name (File.originalname file) = true) files ->
    exists rs w',
      for_each_file step files acc w = (Normal (acc ++ rs)%list, w')
      /\ (forall r data, serves w r data -> serves w' r data)
      /\ Forall2
           (fun file result =>
              forall id,
                UploadResult.id result = Some id ->
                exists r,
                  MediaFile.id r = id
                  /\ MediaFile.fileName r = File.originalname file
                  /\ MediaFile.fileType r = File.mimetype file
                  /\ serves w' r (File.buffer file))
           files rs.
Proof.
  intros Hstep. induction files as [|file files IH]; intros acc w Hplain;
    simpl.
  - exists [], w. rewrite app_nil_r.
    split; [reflexivity|]. split; [auto|constructor].
  - inversion Hplain as [|? ? Hfile Hrest]; subst.
    destruct (Hstep file w Hfile) as (result & w1 & Hr & Hkeep & Hnew).
    destruct (IH (acc ++ [result])%list w1 Hrest)
      as (rs & w2 & Hrs & Hkeep2 & HQ).
    exists (result :: rs), w2. unfold bind. rewrite Hr, Hrs, <- app_assoc.
    split; [reflexivity|]. split; [auto|].
    constructor; [|assumption].
    intros id Hid. destruct (Hnew id Hid) as (r & ? & ? & ? & Hs).
    exists r. auto.
Qed.

(** What the get route answers for a record that is served: the bytes of
    the blob under the type of the record, or, when that type is no legal
    header value, 500. *)
Lemma get_media_served w r data :
  serves w r data ->
  get_media (id_in_url r) w
  = if legal_header_value (MediaFile.fileType r) then
      (Normal
         {| statusCode := 200;
            headers := [("Content-Type", MediaFile.fileType r)];
            body := SendBuffer data |},
       w)
    else
      caught "Error serving media:" "Failed to serve media file"
        (ERR_INVALID_CHAR "Content-Type") res w.
Proof.
  intros Hs. rewrite get_media_cases. unfold id_in_url.
  rewrite parseInt_pretty, (serves_getMediaFile w r data Hs).
  unfold res_setHeader.
  now destruct (legal_header_value (MediaFile.fileType r)).
Qed.

(** X9. What was uploaded is what is served. On a disk that behaves as a
    file system, after either upload route answered a batch of files whose
    names have no path separator in them, every element of [results] that
    carries an id names a record that the get route, asked with the text of
    that id, serves from the uploaded file: when the MIME type of the file
    is a legal header value, a plain [GET] is answered 200 with that type
    as [Content-Type] ([application/octet-stream] when it is empty) and
    exactly the bytes of the uploaded file as body; when it is not, the
    answer is 500. The later files of the batch do not disturb the earlier
    ones. *)
Theorem uploaded_files_are_served (files : list File.t) w :
  faithful_disk ->
  files <> [] ->
  Forall (fun file => plain_name (File.originalname file) = true) files ->
  Forall
    (fun route : option (list File.t) -> M W Response =>
       exists results w',
         route (Some files) w
         = (Normal
              (res_end (JsonUpload "Files processed" results)
                 (res_status 201 res)),
            w')
         /\ Forall2
              (fun file result =>
                 forall id,
                   UploadResult.id result = Some id ->
                   if legal_header_value (File.mimetype file) then
                     respond (get_media (pretty id)) plain_get w'
                     = (Normal
                          {| wire_status := 200;
                             wire_Content_Type :=
                               Some (if String.eqb (File.mimetype file) ""
                                     then "application/octet-stream"
                                     else File.mimetype file);
                             wire_Content_Disposition := None;
                             wire_body := SendBuffer (File.buffer file) |},
                        w')
                   else
                     exists answer,
                       fst (get_media (pretty id) w') = Normal answer
                       /\ statusCode answer = 500)
              files results)
    [upload_media; upload_media_mirrored].
Proof.
  intros Hfd Hne Hplain.
  assert (Hroute : forall step,
            step_stores step ->
            exists results w',
              upload_handler step (Some files) w
              = (Normal
                   (res_end (JsonUpload "Files processed" results)
                      (res_status 201 res)),
                 w')
              /\ Forall2
                   (fun file result =>
                      forall id,
                        UploadResult.id result = Some id ->
                        if legal_header_value (File.mimetype file) then
                          respond (get_media (pretty id)) plain_get w'
                          = (Normal
                               {| wire_status := 200;
                                  wire_Content_Type :=
                                    Some (if String.eqb (File.mimetype file) ""
                                          then "application/octet-stream"
                                          else File.mimetype file);
                                  wire_Content_Disposition := None;
                                  wire_body := SendBuffer (File.buffer file) |},
                             w')
                        else
                          exists answer,
                            fst (get_media (pretty id) w') = Normal answer
                            /\ statusCode answer = 500)
                   files results).
  { intros step Hstep.
    destruct (for_each_file_stores step Hstep files [] w Hplain)
      as (rs & w' & Hloop & _ & HQ).
    exists rs, w'. split; [now apply upload_handler_loop|].
    eapply Forall2_impl; [exact HQ|]. simpl.
    intros file result Hserved id Hid.
    destruct (Hserved id Hid) as (r & <- & _ & Htype & Hs).
    pose proof (get_media_served w' r _ Hs) as Hget.
    unfold id_in_url in Hget. rewrite Htype in Hget.
    unfold respond. rewrite Hget.
    destruct (legal_header_value (File.mimetype file)).
    - unfold send, sent_type, getHeader. cbn.
      now destruct (String.eqb (File.mimetype file) "").
    - unfold caught. eexists. split; reflexivity. }
  constructor; [|constructor; [|constructor]].
  - apply Hroute, upload_file_stores, Hfd.
  - apply Hroute, upload_file_mirrored_stores, Hfd.
Qed.

End UploadThenGet.

(** ** The user registry *)

Section Users.
Context {Disk Cloud : Type} {P : Platform Disk Cloud}.

Local Abbreviation W := (@World Disk Cloud).

Implicit Types (w : W).

Lemma createUser_cases (insertUser : InsertUser.t) w :
  createUser insertUser w =
    let s := storage w in
    let id := userCurrentId s in
    let user := spread_user_with_id insertUser id in
    (Normal user,
     with_storage
       (set_users (JsMap.set id user (users s)) (set_userCurrentId (id + 1) s))
       w).
Proof. reflexivity. Qed.

(** X10. [createUser] and [getUser] round-trip, in every state:
    [createUser] never throws, gives the user the id the counter showed and
    every field as passed in, and advances the counter by one; [getUser] on
    that id then returns the user; the users registered under other ids,
    the media registry, its counter and the disk are untouched. *)
Theorem createUser_getUser_round_trip (insertUser : InsertUser.t) w :
  exists user w',
    createUser insertUser w = (Normal user, w')
    /\ user = spread_user_with_id insertUser (userCurrentId (storage w))
    /\ userCurrentId (storage w') = userCurrentId (storage w) + 1
    /\ getUser (User.id user) w' = (Normal (Some user), w')
    /\ (forall id,
          id <> User.id user ->
          fst (getUser id w') = fst (getUser id w))
    /\ media (storage w') = media (storage w)
    /\ mediaCurrentId (storage w') = mediaCurrentId (storage w)
    /\ disk w' = disk w.
Proof.
  rewrite createUser_cases. cbv zeta. do 2 eexists.
  split; [reflexivity|]. split; [reflexivity|]. split; [reflexivity|].
  unfold getUser. simpl. rewrite jsmap_get_set_eq.
  split; [reflexivity|]. split; [|auto].
  intros id Hne. now rewrite jsmap_get_set_ne by congruence.
Qed.

Lemma create_users_values (insertUsers : list InsertUser.t) w :
  Forall (fun kv => fst kv < userCurrentId (storage w)) (users (storage w)) ->
  fst (create_users insertUsers w)
  = numbered_users (userCurrentId (storage w)) insertUsers
  /\ JsMap.values (users (storage (snd (create_users insertUsers w))))
     = (JsMap.values (users (storage w))
        ++ numbered_users (userCurrentId (storage w)) insertUsers)%list.
Proof.
  revert w. induction insertUsers as [|iu rest IH]; intros w Hlt.
  - simpl. now rewrite app_nil_r.
  - cbn [create_users numbered_users]. rewrite createUser_cases. cbv zeta.
    set (w1 := with_storage _ w).
    assert (Hfresh : JsMap.get (userCurrentId (storage w)) (users (storage w))
                     = None).
    { apply jsmap_get_None. unfold JsMap.keys. rewrite List.in_map_iff.
      intros ([k v] & Hk & Hin). simpl in Hk. subst k.
      rewrite List.Forall_forall in Hlt. apply Hlt in Hin. simpl in Hin. lia. }
    destruct (IH w1) as [Hc Hv].
    { subst w1. simpl. rewrite jsmap_set_fresh by assumption.
      apply List.Forall_app. split.
      - eapply List.Forall_impl; [|exact Hlt]. simpl. intros; lia.
      - repeat constructor. simpl. lia. }
    destruct (create_users rest w1) as [created w2]. simpl in *.
    rewrite Hc, Hv. subst w1. simpl.
    rewrite jsmap_set_fresh by assumption.
    unfold JsMap.values. rewrite List.map_app, <- app_assoc. auto.
Qed.

(** X11. User names are not checked for uniqueness, and the first one
    registered wins. After registering any list of users from start-up,
    [createUser] has accepted every one of them, numbered from 1 in order,
    also those whose [username] was taken; and [getUserByUsername] returns
    the first user of that list with the name asked for, or [undefined]
    when there is none. *)
Theorem getUserByUsername_first_registered
    (d : Disk) (c : Cloud) (insertUsers : list InsertUser.t)
    (username : string) :
  let created := fst (create_users insertUsers (boot d c)) in
  let w := snd (create_users insertUsers (boot d c)) in
  created = numbered_users 1 insertUsers
  /\ length created = length insertUsers
  /\ fst (getUserByUsername username w)
     = Normal
         (List.find (fun user => String.eqb (User.username user) username)
            created).
Proof.
  cbv zeta.
  destruct (create_users_values insertUsers (boot d c)) as [Hc Hv];
    [constructor|].
  simpl in Hc, Hv. split; [assumption|]. split.
  - rewrite Hc. generalize 1. clear.
    induction insertUsers as [|iu rest IH]; intros n; simpl; auto.
  - unfold getUserByUsername. simpl. now rewrite Hv, Hc.
Qed.

End Users.

(** ** client: the gallery and the upload form *)

Lemma at_index_in_range {A} (array : list A) (i : Z) :
  0 <= i < Z.of_nat (length array) -> exists x, at_index array i = Some x.
Proof.
  intros Hi. unfold at_index. destruct (Z.ltb_spec i 0); [lia|].
  destruct (nth_error array (Z.to_nat i)) eqn:Hn; [eauto|].
  apply nth_error_None in Hn. lia.
Qed.

Lemma rem_prev (i len : Z) :
  0 <= i < len ->
  Z.rem (i - 1 + len) len = if i =? 0 then len - 1 else i - 1.
Proof.
  intros Hi. rewrite Z.rem_mod_nonneg by lia.
  destruct (Z.eqb_spec i 0) as [->|].
  - replace (0 - 1 + len) with (len - 1) by lia. apply Z.mod_small. lia.
  - replace (i - 1 + len) with (i - 1 + 1 * len) by lia.
    rewrite Z.mod_add by lia. apply Z.mod_small. lia.
Qed.

Lemma rem_next (i len : Z) :
  0 <= i < len ->
  Z.rem (i + 1) len = if i =? len - 1 then 0 else i + 1.
Proof.
  intros Hi. rewrite Z.rem_mod_nonneg by lia.
  destruct (Z.eqb_spec i (len - 1)) as [->|].
  - replace (len - 1 + 1) with (0 + 1 * len) by lia.
    rewrite Z.mod_add by lia. apply Z.mod_small. lia.
  - apply Z.mod_small. lia.
Qed.

(** X12. Navigating in the viewer wraps around and can be undone. On a
    list that is not empty, from an index that is not negative, [prev] and
    [next] select an index inside the list and the item at that index; from
    an index inside the list, [next] after [prev] and [prev] after [next]
    come back to the same index, [next] on the last item goes to the first
    and [prev] on the first goes to the last. On an empty list nothing
    changes. *)
Theorem handleNavigate_wraps_around
    (filtered : list MediaFile.t) (viewer : Viewer) :
  let len := Z.of_nat (length filtered) in
  (filtered = [] ->
   forall direction, handleNavigate direction filtered viewer = viewer)
  /\ (filtered <> [] -> 0 <= selectedIndex viewer ->
      forall direction,
        shows filtered (handleNavigate direction filtered viewer))
  /\ (0 <= selectedIndex viewer < len ->
      selectedIndex
        (handleNavigate Next filtered (handleNavigate Prev filtered viewer))
      = selectedIndex viewer
      /\ selectedIndex
           (handleNavigate Prev filtered (handleNavigate Next filtered viewer))
         = selectedIndex viewer
      /\ (selectedIndex viewer = len - 1 ->
          selectedIndex (handleNavigate Next filtered viewer) = 0)
      /\ (selectedIndex viewer = 0 ->
          selectedIndex (handleNavigate Prev filtered viewer) = len - 1)).
Proof.
  cbv zeta. split; [|split].
  - intros -> direction. reflexivity.
  - intros Hne Hi direction. unfold handleNavigate.
    assert (Hlen : 0 < Z.of_nat (length filtered))
      by (destruct filtered; [congruence|simpl; lia]).
    destruct (Z.eqb_spec (Z.of_nat (length filtered)) 0) as [|_]; [lia|].
    set (len := Z.of_nat (length filtered)) in *.
    assert (Hrange : forall x, 0 <= x -> 0 <= Z.rem x len < len).
    { intros x Hx. apply Z.rem_bound_pos; lia. }
    assert (Hnew : 0 <= match direction with
                        | Prev => Z.rem (selectedIndex viewer - 1 + len) len
                        | Next => Z.rem (selectedIndex viewer + 1) len
                        end < len).
    { destruct direction; apply Hrange; lia. }
    unfold shows. simpl. split; [exact Hnew|]. split; [reflexivity|].
    now apply at_index_in_range.
  - intros Hi. unfold handleNavigate.
    set (len := Z.of_nat (length filtered)) in *.
    destruct (Z.eqb_spec len 0) as [|_]; [lia|]. cbn [selectedIndex].
    pose proof (rem_prev (selectedIndex viewer) len Hi) as Hprev.
    pose proof (rem_next (selectedIndex viewer) len Hi) as Hnext.
    rewrite Hprev, Hnext.
    destruct (Z.eqb_spec (selectedIndex viewer) 0) as [H0|H0];
      destruct (Z.eqb_spec (selectedIndex viewer) (len - 1)) as [H1|H1].
    + rewrite rem_next, rem_prev by lia.
      rewrite (proj2 (Z.eqb_eq _ _)) by lia.
      rewrite (proj2 (Z.eqb_eq 0 0)) by lia. lia.
    + rewrite rem_next, rem_prev by lia.
      rewrite (proj2 (Z.eqb_eq (len - 1) (len - 1))) by lia.
      rewrite (proj2 (Z.eqb_neq (selectedIndex viewer + 1) 0)) by lia. lia.
    + rewrite rem_next, rem_prev by lia.
      rewrite (proj2 (Z.eqb_neq (selectedIndex viewer - 1) (len - 1))) by lia.
      rewrite (proj2 (Z.eqb_eq 0 0)) by lia. lia.
    + rewrite rem_next, rem_prev by lia.
      rewrite (proj2 (Z.eqb_neq (selectedIndex viewer - 1) (len - 1))) by lia.
      rewrite (proj2 (Z.eqb_neq (selectedIndex viewer + 1) 0)) by lia. lia.
Qed.

Lemma startsWith_image_not_video (s : string) :
  startsWith s "image/" = true -> startsWith s "video/" = false.
Proof.
  destruct s as [|c s]; [discriminate|].
  unfold startsWith.
  change (String.prefix "image/" (String c s))
    with (if ascii_dec "i" c then String.prefix "mage/" s else false).
  destruct (ascii_dec "i" c) as [<-|]; [reflexivity|discriminate].
Qed.

Lemma filter_length_split {A} (f g : A -> bool) (l : list A) :
  Forall (fun x => f x || g x = true) l ->
  (forall x, f x = true -> g x = false) ->
  (length (List.filter f l) + length (List.filter g l))%nat = length l.
Proof.
  intros Hall Hfg. induction Hall as [|x l Hx _ IH]; [reflexivity|]. simpl.
  destruct (f x) eqn:Hf.
  - rewrite (Hfg x Hf). simpl. lia.
  - simpl in Hx. rewrite Hx. simpl. lia.
Qed.

(** X13. The gallery's filters split the list. Whatever [/api/media]
    returned, [all] shows every item in the order received, [photos] and
    [videos] show sub-lists in that order, and no item is under both. When
    every item has an image or video type, as every record the upload
    filter let through has, each item is under exactly one of the two and
    their sizes add up to the size of [all]. Without data ([undefined]) all
    three lists are empty. *)
Theorem gallery_filters_split (items : list MediaFile.t) :
  let all := filteredMedia FilterAll (Some items) in
  let photos := filteredMedia FilterPhotos (Some items) in
  let videos := filteredMedia FilterVideos (Some items) in
  all = items
  /\ (forall filter, filteredMedia filter None = [])
  /\ (forall item, In item photos -> In item videos -> False)
  /\ (forall item, In item photos \/ In item videos ->
        In item items /\ media_type (MediaFile.fileType item) = true)
  /\ (Forall (fun item => media_type (MediaFile.fileType item) = true) items ->
      (forall item, In item items -> In item photos \/ In item videos)
      /\ (length photos + length videos)%nat = length all).
Proof.
  cbv zeta. unfold filteredMedia.
  split.
  { induction items as [|x l IH]; simpl; [reflexivity|]. now rewrite IH. }
  split; [reflexivity|]. split.
  { intros item [_ Hp]%List.filter_In [_ Hv]%List.filter_In.
    apply startsWith_image_not_video in Hp. congruence. }
  split.
  { unfold media_type.
    intros item [[Hin Hp]%List.filter_In|[Hin Hv]%List.filter_In];
      (split; [assumption|]).
    - now rewrite Hp.
    - rewrite Hv. apply orb_true_r. }
  intros Hall. split.
  - intros item Hin. rewrite List.Forall_forall in Hall.
    specialize (Hall item Hin). unfold media_type in Hall.
    apply orb_true_iff in Hall as [Hp|Hv]; [left|right];
      apply List.filter_In; auto.
  - rewrite (filter_length_split _ _ items Hall).
    + clear. induction items as [|x l IH]; simpl; [reflexivity|].
      now rewrite IH.
    + intros x. apply startsWith_image_not_video.
Qed.

Section MediaTypes.
Context {Disk Cloud : Type} {P : Platform Disk Cloud}.

Local Abbreviation W := (@World Disk Cloud).

Implicit Types (w : W).

Lemma createMedia_only_media (im : InsertMedia.t) (fileData : bytes) w :
  media_type (InsertMedia.fileType im) = true ->
  only_media w -> only_media (snd (createMedia im fileData w)).
Proof.
  intros Ht Hw. rewrite createMedia_cases. cbv zeta.
  destruct (writeFileSync _ fileData (disk w)) as [[[]|e] d]; simpl;
    [|exact Hw].
  unfold only_media in *. simpl. rewrite List.Forall_forall in *.
  intros x [->|Hin]%jsmap_values_set_In; [exact Ht|auto].
Qed.

Lemma upload_file_only_media (file : File.t) w :
  media_type (File.mimetype file) = true ->
  only_media w -> only_media (snd (upload_file file w)).
Proof.
  intros Ht Hw.
  unfold upload_file, bind, Date_toISOString, try_catch, lift, console_error,
    ret.
  destruct (insertMediaSchema_parse _) as [[]|e]; simpl; [|exact Hw].
  set (w0 := with_clock (S (clock w)) w).
  pose proof (createMedia_only_media
                (mediaData_of file (toISOString (clock w)))
                (File.buffer file) w0 Ht Hw) as H1.
  now destruct (createMedia _ _ w0) as [[r|e] w1].
Qed.

Lemma upload_file_mirrored_only_media (file : File.t) w :
  media_type (File.mimetype file) = true ->
  only_media w -> only_media (snd (upload_file_mirrored file w)).
Proof.
  intros Ht Hw. rewrite upload_file_mirrored_cases. cbv zeta.
  destruct (insertMediaSchema_parse _) as [[]|e]; [|exact Hw].
  destruct (upload_stream _ (cloud w)) as [[e| |url] c]; try exact Hw.
  set (w0 := with_cloud c (with_clock (S (clock w)) w)).
  pose proof (createMedia_only_media
                (set_cloudinaryUrl url
                   (mediaData_of file (toISOString (clock w))))
                (File.buffer file) w0 Ht Hw) as H1.
  now destruct (createMedia _ _ w0) as [[r|e] w1].
Qed.

Lemma for_each_file_only_media (step : File.t -> M W UploadResult.t) :
  (forall file w,
     media_type (File.mimetype file) = true ->
     only_media w -> only_media (snd (step file w))) ->
  forall files acc w,
    Forall (fun file => media_type (File.mimetype file) = true) files ->
    only_media w -> only_media (snd (for_each_file step files acc w)).
Proof.
  intros Hstep. induction files as [|file files IH]; intros acc w Hall Hw.
  - exact Hw.
  - inversion Hall as [|? ? Hfile Hrest]; subst. simpl. unfold bind.
    pose proof (Hstep file w Hfile Hw) as H1.
    destruct (step file w) as [[r|e] w1]; simpl in *; [|exact H1].
    now apply IH.
Qed.

Lemma upload_handler_only_media (step : File.t -> M W UploadResult.t) :
  (forall file w,
     media_type (File.mimetype file) = true ->
     only_media w -> only_media (snd (step file w))) ->
  forall files w,
    Forall (fun file => media_type (File.mimetype file) = true) files ->
    only_media w -> only_media (snd (upload_handler step (Some files) w)).
Proof.
  intros Hstep [|file files] w Hall Hw; [exact Hw|].
  unfold upload_handler, try_catch, bind, console_error, ret.
  pose proof (for_each_file_only_media step Hstep (file :: files) [] w Hall Hw)
    as H1.
  now destruct (for_each_file step (file :: files) [] w) as [[rs|e] w1].
Qed.

Lemma upload_array_accepts (parts : list Part.t) (files : list File.t) :
  upload_array parts = MulterFiles files ->
  files = List.map memoryStorage (List.filter fileFilter parts)
  /\ Forall (fun file => media_type (File.mimetype file) = true
                         /\ File.size file <= fileSizeLimit
                         /\ File.size file = Z.of_nat (length (File.buffer file)))
       files.
Proof.
  unfold upload_array.
  destruct (forallb _ _) eqn:Hsize; [|discriminate]. intros [= <-].
  split; [reflexivity|]. rewrite forallb_forall in Hsize.
  rewrite List.Forall_forall. intros file (p & <- & Hp)%List.in_map_iff.
  pose proof (Hsize p Hp) as Hle.
  apply List.filter_In in Hp as [_ Hp]. simpl.
  split; [exact Hp|]. split; [lia|reflexivity].
Qed.

Lemma deleteMedia_only_media id w :
  only_media w -> only_media (snd (deleteMedia id w)).
Proof.
  intros Hw. rewrite deleteMedia_cases.
  destruct (JsMap.get id (media (storage w))) as [r|]; [|exact Hw].
  cbv zeta. destruct (existsSync _ (disk w)).
  - destruct (unlinkSync _ (disk w)) as [[[]|e] d]; simpl; [|exact Hw].
    unfold only_media in *. simpl.
    rewrite List.Forall_forall in *. intros x Hin%jsmap_values_delete_In. auto.
  - simpl. unfold only_media in *. simpl.
    rewrite List.Forall_forall in *. intros x Hin%jsmap_values_delete_In. auto.
Qed.

(** X14. Only images and videos get into the registry through the upload
    routes. What [upload.array] hands to a handler has passed the filter
    and the size limit, with [size] the length of the buffer; and when the
    registry holds only records of an image or video type, so it does after
    an upload request (either route, whichever parts were sent, whatever
    the disk and the mirror do) and after [deleteMedia]. The registry is
    empty at start-up. *)
Theorem registry_holds_only_media (parts : list Part.t) w :
  only_media w ->
  Forall
    (fun route : option (list File.t) -> M W Response =>
       forall answer w',
         post_upload route parts w = Some (answer, w') ->
         only_media w'
         /\ exists files,
              upload_array parts = MulterFiles files
              /\ Forall
                   (fun file => media_type (File.mimetype file) = true
                                /\ File.size file <= fileSizeLimit)
                   files)
    [upload_media; upload_media_mirrored]
  /\ (forall id, only_media (snd (deleteMedia id w)))
  /\ (forall (d : Disk) (c : Cloud), only_media (boot d c)).
Proof.
  intros Hw. split; [|split].
  - assert (Hroute : forall step,
              (forall file w,
                 media_type (File.mimetype file) = true ->
                 only_media w -> only_media (snd (step file w))) ->
              forall answer w',
                post_upload (upload_handler step) parts w = Some (answer, w') ->
                only_media w'
                /\ exists files,
                     upload_array parts = MulterFiles files
                     /\ Forall
                          (fun file => media_type (File.mimetype file) = true
                                       /\ File.size file <= fileSizeLimit)
                          files).
    { intros step Hstep answer w'. unfold post_upload.
      destruct (upload_array parts) as [code|files] eqn:Hparts; [discriminate|].
      destruct (upload_array_accepts parts files Hparts) as [_ Hall].
      intros [= Hrun].
      assert (Htypes : Forall (fun file => media_type (File.mimetype file) = true)
                         files).
      { eapply List.Forall_impl; [|exact Hall]. simpl. tauto. }
      pose proof (upload_handler_only_media step Hstep files w Htypes Hw) as H1.
      rewrite Hrun in H1. split; [exact H1|].
      exists files. split; [reflexivity|].
      eapply List.Forall_impl; [|exact Hall]. simpl. tauto. }
    constructor; [|constructor; [|constructor]].
    + apply Hroute. apply upload_file_only_media.
    + apply Hroute. apply upload_file_mirrored_only_media.
  - intros id. now apply deleteMedia_only_media.
  - intros d c. constructor.
Qed.

End MediaTypes.

(** ** client: the upload form *)

(** X15. The progress bar stops at 95 until the request is over. Starting
    from 0, after [n] ticks of the interval it shows [min (5 n) 95]: it
    never goes back, never passes 95, and from the 19th tick on stays
    there. *)
Theorem progress_waits_at_95 (n : nat) :
  Nat.iter n progress_tick 0 = Z.min (5 * Z.of_nat n) 95
  /\ Nat.iter n progress_tick 0 <= Nat.iter (S n) progress_tick 0 <= 95
  /\ ((19 <= n)%nat <-> Nat.iter n progress_tick 0 = 95).
Proof.
  assert (Hn : forall k, Nat.iter k progress_tick 0 = Z.min (5 * Z.of_nat k) 95).
  { induction k as [|k IH]; [reflexivity|].
    rewrite Nat.iter_succ, IH. unfold progress_tick.
    destruct (Z.geb_spec (Z.min (5 * Z.of_nat k) 95) 95); lia. }
  rewrite !Hn. lia.
Qed.

Lemma formData_accepted (files : list ClientFile.t) :
  List.filter fileFilter (formData (List.filter is_media_file files))
  = formData (List.filter is_media_file files).
Proof.
  induction files as [|file files IH]; [reflexivity|]. simpl.
  destruct (is_media_file file) eqn:Hm; [|exact IH]. simpl.
  unfold fileFilter at 1. simpl. unfold is_media_file in Hm. rewrite Hm.
  now rewrite IH.
Qed.

(** X16. A drop selects what the server will accept. When none of the
    dropped files is an image or a video the selection stays as it was and
    a toast says so; otherwise the selection becomes the dropped images and
    videos, in order, without a toast, and the upload filter of the server
    refuses none of them: [upload.array] hands every one to the handler, or
    ends the request because one is over the size limit. *)
Theorem handleDrop_selects_what_the_filter_accepts
    (droppedFiles : list ClientFile.t) (form : UploadForm.t) :
  let mediaFiles := List.filter is_media_file droppedFiles in
  (mediaFiles = [] ->
   exists toast, handleDrop droppedFiles form = (form, Some toast))
  /\ (mediaFiles <> [] ->
      exists form',
        handleDrop droppedFiles form = (form', None)
        /\ UploadForm.files form' = mediaFiles
        /\ UploadForm.uploadProgress form' = UploadForm.uploadProgress form
        /\ List.filter fileFilter (formData mediaFiles) = formData mediaFiles
        /\ (upload_array (formData mediaFiles)
            = MulterFiles (List.map memoryStorage (formData mediaFiles))
            \/ upload_array (formData mediaFiles)
               = MulterError "LIMIT_FILE_SIZE")).
Proof.
  cbv zeta. unfold handleDrop. split.
  - intros ->. eexists. reflexivity.
  - intros Hne. pose proof (formData_accepted droppedFiles) as Hacc.
    destruct (List.filter is_media_file droppedFiles) as [|file files] eqn:Hf;
      [congruence|].
    cbn [length Nat.eqb]. eexists. split; [reflexivity|]. split; [reflexivity|].
    split; [reflexivity|]. split; [exact Hacc|].
    unfold upload_array. rewrite Hacc.
    destruct (forallb _ _); auto.
Qed.

(** X17. A request log line is never longer than 80 code units: a line of
    at most 80 is logged as it is, a longer one is cut to its first 79 code
    units followed by an ellipsis. *)
Theorem truncate_logLine_bound (logLine : list N) :
  (length (truncate_logLine logLine) <= 80)%nat
  /\ ((length logLine <= 80)%nat -> truncate_logLine logLine = logLine)
  /\ ((80 < length logLine)%nat ->
      length (truncate_logLine logLine) = 80%nat
      /\ firstn 79 (truncate_logLine logLine) = firstn 79 logLine
      /\ nth_error (truncate_logLine logLine) 79 = Some 8230%N).
Proof.
  unfold truncate_logLine.
  destruct (Nat.ltb_spec 80 (length logLine)) as [Hlong|Hshort].
  - assert (Hlen : length (firstn 79 logLine) = 79%nat)
      by (rewrite List.length_firstn; lia).
    split; [rewrite List.length_app, Hlen; simpl; lia|].
    split; [lia|]. intros _.
    split; [rewrite List.length_app, Hlen; reflexivity|]. split.
    + rewrite <- Hlen at 1. rewrite List.firstn_app, Hlen, Nat.sub_diag.
      simpl. rewrite app_nil_r. rewrite <- Hlen at 1.
      now rewrite List.firstn_all.
    + rewrite List.nth_error_app2 by lia. now rewrite Hlen.
  - split; [assumption|]. split; [reflexivity|]. lia.
Qed.

Section UploadFromTheForm.
Context {Disk Cloud : Type} {P : Platform Disk Cloud}.

Local Abbreviation W := (@World Disk Cloud).

Implicit Types (w : W).

(** X18. The file input is not filtered, and the form does not look at the
    status of the response. When the first file picked through the input
    is neither an image nor a video, the selection is that one file; the
    upload request then carries one part, the server (either route) answers
    400 [No files uploaded] and changes nothing, and [handleUpload] sets the
    progress to 100 and announces [1 media file(s) uploaded.] *)
Theorem unfiltered_pick_is_reported_uploaded
    (first : ClientFile.t) (others : list ClientFile.t)
    (form : UploadForm.t) w :
  is_media_file first = false ->
  let picked := handleFileChange (Some (first :: others)) form in
  UploadForm.files picked = [first]
  /\ Forall
       (fun route : option (list File.t) -> M W Response =>
          exists answer,
            post_upload route (formData (UploadForm.files picked)) w
            = Some (Normal answer, w)
            /\ statusCode answer = 400
            /\ body answer = JsonMessage "No files uploaded"
            /\ handleUpload (fun _ => Resolves (statusCode answer)) picked
               = (UploadForm.mk [first] 100 true,
                  Toast.mk "Upload successful" "1 media file(s) uploaded."))
       [upload_media; upload_media_mirrored].
Proof.
  intros Hm. cbv zeta. split; [reflexivity|].
  assert (Hparts : upload_array (formData [first]) = MulterFiles []).
  { unfold upload_array, formData. simpl. unfold fileFilter. simpl.
    unfold is_media_file in Hm. now rewrite Hm. }
  constructor; [|constructor; [|constructor]];
    eexists; unfold post_upload; simpl UploadForm.files;
    rewrite Hparts; (split; [reflexivity|]); repeat split.
Qed.

End UploadFromTheForm.

(** ** Listing and looking up *)

Section Listing.
Context {Disk Cloud : Type} {P : Platform Disk Cloud}.

Local Abbreviation W := (@World Disk Cloud).

Implicit Types (w : W) (r : MediaFile.t).

(** X19. Listing and looking up agree. In a consistent registry,
    [getAllMedia] lists no id twice, [getMediaById] finds under its id
    exactly each record that is listed, and it returns [undefined] exactly
    for the ids that no listed record has; neither changes the state. *)
Theorem getMediaById_finds_what_getAllMedia_lists w :
  registry_ok (storage w) ->
  exists items,
    getAllMedia w = (Normal items, w)
    /\ List.NoDup (List.map MediaFile.id items)
    /\ (forall r,
          In r items <-> getMediaById (MediaFile.id r) w = (Normal (Some r), w))
    /\ (forall id,
          ~ In id (List.map MediaFile.id items)
          <-> getMediaById id w = (Normal None, w)).
Proof.
  intros Hok. exists (JsMap.values (media (storage w))).
  split; [reflexivity|].
  rewrite (registry_ok_ids _ Hok). split; [apply Hok|].
  unfold getMediaById, media_get. split.
  - intros r. split.
    + intros Hin. now rewrite (registry_ok_get_listed _ r Hok Hin).
    + intros [= Hget]. apply jsmap_get_In in Hget.
      unfold JsMap.values. apply List.in_map_iff.
      exists (MediaFile.id r, r). auto.
  - intros id. rewrite <- jsmap_get_None. split.
    + now intros ->.
    + now intros [= ->].
Qed.

End Listing.

(** ** The properties above on the simulated platform *)

Lemma no_slash_app (a b : string) :
  no_slash (a ++ b) = no_slash a && no_slash b.
Proof.
  unfold no_slash. induction a as [|c a IH]; [reflexivity|].
  change (String c a ++ b) with (String c (a ++ b)). simpl.
  now rewrite IH, andb_assoc.
Qed.

Lemma plain_no_slash (fileName : string) :
  plain_name fileName = true -> no_slash fileName = true.
Proof.
  unfold plain_name, no_slash.
  induction fileName as [|c s IH]; [reflexivity|]. simpl.
  intros [Hc Hs]%andb_prop. rewrite IH by assumption.
  now destruct (Ascii.eqb c "/").
Qed.

Lemma digits_no_slash (s : string) :
  all_decimal_digits s = true -> no_slash s = true.
Proof.
  unfold all_decimal_digits, no_slash.
  induction s as [|c s IH]; simpl; auto.
  intros Hd. apply andb_prop in Hd as [Hc Hs]. rewrite IH by assumption.
  rewrite andb_true_r. apply negb_true_iff, Ascii.eqb_neq.
  intros ->. discriminate Hc.
Qed.

Lemma pretty_no_slash (id : Z) : no_slash (pretty id) = true.
Proof.
  assert (Hpos : forall p : positive, no_slash (pretty (N.pos p)) = true).
  { intros p. unfold pretty, pretty_N.
    destruct (decide (N.pos p = 0%N)) as [|_]; [reflexivity|].
    destruct (pretty_N_go_numeral (N.pos p) "") as (s & Hs & Hd & _).
    rewrite string_app_nil_r in Hs. rewrite Hs.
    now apply digits_no_slash. }
  destruct id as [|p|p]; [reflexivity|apply Hpos|].
  change (pretty (Z.neg p)) with (String "-" (pretty (N.pos p))).
  unfold no_slash in *. simpl. apply Hpos.
Qed.

Lemma blobKey_no_slash (id : Z) (fileName : string) :
  plain_name fileName = true -> no_slash (blobKey id fileName) = true.
Proof.
  intros Hplain. unfold blobKey.
  rewrite !no_slash_app, pretty_no_slash, (plain_no_slash _ Hplain).
  reflexivity.
Qed.

(** The key of a blob has an underscore in it: it is not empty, and it is
    neither [.] nor [..]. *)
Lemma blobKey_is_a_name (id : Z) (fileName : string) :
  String.eqb (blobKey id fileName) "" = false
  /\ String.eqb (blobKey id fileName) "." = false
  /\ String.eqb (blobKey id fileName) ".." = false.
Proof.
  assert (Hus : no_underscore (blobKey id fileName) = false).
  { unfold blobKey, no_underscore.
    induction (pretty id) as [|c s IH]; [reflexivity|].
    change (String c s ++ "_" ++ fileName)
      with (String c (s ++ "_" ++ fileName)).
    simpl. rewrite IH. apply andb_false_r. }
  repeat split; apply String.eqb_neq; intros Heq; rewrite Heq in Hus;
    discriminate Hus.
Qed.

Lemma segments_no_slash (current s : string) :
  no_slash s = true -> Sim.segments current s = [current ++ s].
Proof.
  unfold no_slash. revert current.
  induction s as [|c s IH]; intros current; simpl.
  - now rewrite string_app_nil_r.
  - intros [Hc Hs]%andb_prop. apply negb_true_iff in Hc. rewrite Hc.
    rewrite IH by assumption. rewrite string_app_assoc. reflexivity.
Qed.

(** [path.join] puts the key of a blob with a plain file name under
    [mediaDir] as it is. *)
Lemma sim_join_blobKey (id : Z) (fileName : string) :
  plain_name fileName = true ->
  Sim.sim_join "/srv/media_storage" (blobKey id fileName)
  = "/srv/media_storage/" ++ blobKey id fileName.
Proof.
  intros Hplain.
  destruct (blobKey_is_a_name id fileName) as (Hempty & Hdot & Hdotdot).
  pose proof (blobKey_no_slash id fileName Hplain) as Hslash.
  set (key := blobKey id fileName) in *.
  unfold Sim.sim_join. rewrite Hempty.
  assert (Hparts : Sim.segments "" ("/srv/media_storage" ++ "/" ++ key)
                   = [""; "srv"; "media_storage"; key]).
  { transitivity ("" :: "srv" :: "media_storage" :: Sim.segments "" key);
      [reflexivity|].
    now rewrite (segments_no_slash "" key Hslash). }
  rewrite Hparts. cbn [Sim.normalizeString String.eqb Ascii.eqb Bool.eqb orb].
  rewrite Hempty, Hdot, Hdotdot.
  cbn [Sim.normalizeString orb rev app List.last String.concat].
  rewrite Hempty, string_app_nil_r. reflexivity.
Qed.

Lemma string_app_inj_l (p a b : string) : p ++ a = p ++ b -> a = b.
Proof.
  induction p as [|c p IH]; [auto|].
  change (String c p ++ a) with (String c (p ++ a)).
  change (String c p ++ b) with (String c (p ++ b)).
  intros [= H]. auto.
Qed.

(** The simulated disk behaves as a file system. *)
Lemma sim_faithful_disk : @faithful_disk Sim.Disk Sim.Cloud Sim.platform.
Proof.
  split.
  - intros path data d d'. simpl. unfold Sim.sim_writeFileSync.
    destruct (Sim.full d); [discriminate|].
    unfold Sim.sim_existsSync, Sim.sim_readFileSync.
    destruct (Sim.nodes d !! path) as [[old|old]|];
      try discriminate; intros [= <-]; simpl; now rewrite lookup_insert_eq.
  - intros path other data d d' result. simpl.
    unfold Sim.sim_writeFileSync, Sim.sim_existsSync, Sim.sim_readFileSync.
    intros Hw Hne. destruct (Sim.full d); [now injection Hw as _ <-|].
    destruct (Sim.nodes d !! path) as [[old|old]|];
      injection Hw as _ <-; simpl; rewrite ?lookup_insert_ne by congruence;
      auto.
  - intros path other d d' result. simpl.
    unfold Sim.sim_unlinkSync, Sim.sim_existsSync, Sim.sim_readFileSync.
    intros Hu Hne.
    destruct (Sim.nodes d !! path) as [[old|old]|];
      injection Hu as _ <-; simpl; rewrite ?lookup_delete_ne by congruence;
      auto.
  - intros path d d' e. simpl. unfold Sim.sim_unlinkSync.
    destruct (Sim.nodes d !! path) as [[old|old]|];
      try discriminate; intros [= _ <-]; auto.
  - intros id1 id2 f1 f2 H1 H2 Hjoin.
    change (filePath id1 f1)
      with (Sim.sim_join "/srv/media_storage" (blobKey id1 f1)) in Hjoin.
    change (filePath id2 f2)
      with (Sim.sim_join "/srv/media_storage" (blobKey id2 f2)) in Hjoin.
    rewrite !sim_join_blobKey in Hjoin by assumption.
    now apply string_app_inj_l in Hjoin.
Qed.

(** X2 on the album: [1_beach.jpg] and [2_dance.mp4]. *)
Lemma registry_blob_keys_differ_witness :
  blobKey 1 "beach.jpg" <> blobKey 2 "dance.mp4".
Proof.
  exact (registry_blob_keys_differ (storage Sim.album)
           (spread_with_id Sim.photo 1) (spread_with_id Sim.clip 2)
           (registry_ok_run (P := Sim.platform)
              [CreateMedia Sim.photo Sim.photo_bytes;
               CreateMedia Sim.clip Sim.clip_bytes]
              Sim.fresh registry_ok_boot)
           ltac:(vm_compute; auto) ltac:(vm_compute; auto)
           ltac:(discriminate)).
Defined.

(** X3: the photo and the video are stored and the photo is deleted; the
    video is still served with its bytes. *)
Lemma listed_records_have_their_blobs_witness :
  let calls :=
    [CreateMedia Sim.photo Sim.photo_bytes;
     CreateMedia Sim.clip Sim.clip_bytes;
     DeleteMedia 1] in
  exists data,
    In (spread_with_id Sim.clip 2, data)
      (created_blobs (fst (run calls Sim.fresh)))
    /\ fst (getMediaFile 2 (snd (run calls Sim.fresh)))
       = Normal (Some (data, spread_with_id Sim.clip 2)).
Proof.
  exact (listed_records_have_their_blobs (P := Sim.platform) Sim.empty_disk []
           [CreateMedia Sim.photo Sim.photo_bytes;
            CreateMedia Sim.clip Sim.clip_bytes;
            DeleteMedia 1]
           (spread_with_id Sim.clip 2)
           sim_faithful_disk eq_refl eq_refl ltac:(vm_compute; auto)).
Defined.

(** Why X3 asks for plain file names: [path.join] resolves the [..] in the
    name of record 1, and the blob of record 1 is then the one record 2
    writes. *)
Example dot_dot_in_a_file_name_reaches_another_blob :
  let named fileName :=
    {| InsertMedia.fileName := fileName;
       InsertMedia.fileType := "image/jpeg";
       InsertMedia.fileSize := 3;
       InsertMedia.uploadDate := "2025-06-14T12:00:00.000Z";
       InsertMedia.metadata := None |} in
  let w :=
    snd (run [CreateMedia (named "/../2_a") Sim.photo_bytes;
              CreateMedia (named "a") Sim.clip_bytes] Sim.fresh) in
  filePath 1 "/../2_a" = filePath 2 "a"
  /\ fst (getMediaFile 1 w)
     = Normal (Some (Sim.clip_bytes, spread_with_id (named "/../2_a") 1)).
Proof. vm_compute. split; reflexivity. Qed.

(** X7: a request with nothing but a text file. *)
Lemma upload_without_accepted_file_witness :
  let notes :=
    {| Part.originalname := "notes.txt"; Part.mimetype := "text/plain";
       Part.content := [x68; x69] |} in
  upload_array [notes] = MulterFiles []
  /\ upload_media (Some []) Sim.album
     = (Normal (res_end (JsonMessage "No files uploaded") (res_status 400 res)),
        Sim.album).
Proof.
  destruct (upload_without_accepted_file (P := Sim.platform)
              [{| Part.originalname := "notes.txt";
                  Part.mimetype := "text/plain";
                  Part.content := [x68; x69] |}]
              Sim.album eq_refl) as [Hfiles Hroutes].
  split; [exact Hfiles|]. exact (List.Forall_inv Hroutes).
Defined.

(** X8: the batch on the album; the two accepted files become records 3
    and 4. *)
Lemma upload_ids_follow_the_files_witness :
  exists results w',
    upload_media (Some (List.map memoryStorage (List.filter fileFilter Sim.batch)))
      Sim.album
    = (Normal
         (res_end (JsonUpload "Files processed" results) (res_status 201 res)),
       w')
    /\ StronglySorted Z.lt (success_ids results)
    /\ Forall (fun id => 3 <= id < mediaCurrentId (storage w'))
         (success_ids results).
Proof.
  destruct (List.Forall_inv
              (upload_ids_follow_the_files (P := Sim.platform)
                 (List.map memoryStorage (List.filter fileFilter Sim.batch))
                 Sim.album ltac:(discriminate)))
    as (results & w' & Hanswer & Hsorted & Hrange & _).
  exists results, w'. split; [exact Hanswer|]. split; [exact Hsorted|].
  exact Hrange.
Defined.

(** X9: the batch on the album, then the get route for each id. *)
Lemma uploaded_files_are_served_witness :
  let files := List.map memoryStorage (List.filter fileFilter Sim.batch) in
  exists results w',
    upload_media (Some files) Sim.album
    = (Normal
         (res_end (JsonUpload "Files processed" results) (res_status 201 res)),
       w')
    /\ Forall2
         (fun file result =>
            forall id,
              UploadResult.id result = Some id ->
              if legal_header_value (File.mimetype file) then
                respond (get_media (pretty id)) plain_get w'
                = (Normal
                     {| wire_status := 200;
                        wire_Content_Type :=
                          Some (if String.eqb (File.mimetype file) ""
                                then "application/octet-stream"
                                else File.mimetype file);
                        wire_Content_Disposition := None;
                        wire_body := SendBuffer (File.buffer file) |},
                   w')
              else
                exists answer,
                  fst (get_media (pretty id) w') = Normal answer
                  /\ statusCode answer = 500)
         files results.
Proof.
  exact (List.Forall_inv
           (uploaded_files_are_served (P := Sim.platform)
              (List.map memoryStorage (List.filter fileFilter Sim.batch))
              Sim.album sim_faithful_disk ltac:(discriminate)
              ltac:(repeat constructor))).
Defined.

(** X14: the batch on the album. *)
Lemma registry_holds_only_media_witness :
  only_media
    (Sim.after
       (upload_media
          (Some (List.map memoryStorage (List.filter fileFilter Sim.batch))))
       Sim.album).
Proof.
  assert (Hpost :
            post_upload upload_media Sim.batch Sim.album
            = Some
                (fst (upload_media
                        (Some (List.map memoryStorage
                                 (List.filter fileFilter Sim.batch)))
                        Sim.album),
                 Sim.after
                   (upload_media
                      (Some (List.map memoryStorage
                               (List.filter fileFilter Sim.batch))))
                   Sim.album))
    by (vm_compute; reflexivity).
  exact (proj1
           (List.Forall_inv
              (proj1
                 (registry_holds_only_media (P := Sim.platform) Sim.batch
                    Sim.album ltac:(repeat constructor)))
              _ _ Hpost)).
Defined.

(** X18: a text file picked through the input. *)
Lemma unfiltered_pick_is_reported_uploaded_witness :
  let notes := ClientFile.mk "notes.txt" "text/plain" [x68; x69] in
  let form := UploadForm.mk [] 0 false in
  exists answer,
    post_upload upload_media
      (formData (UploadForm.files (handleFileChange (Some [notes]) form)))
      Sim.album
    = Some (Normal answer, Sim.album)
    /\ statusCode answer = 400
    /\ body answer = JsonMessage "No files uploaded"
    /\ handleUpload (fun _ => Resolves (statusCode answer))
         (handleFileChange (Some [notes]) form)
       = (UploadForm.mk [notes] 100 true,
          Toast.mk "Upload successful" "1 media file(s) uploaded.").
Proof.
  exact (List.Forall_inv
           (proj2
              (unfiltered_pick_is_reported_uploaded (P := Sim.platform)
                 (ClientFile.mk "notes.txt" "text/plain" [x68; x69]) []
                 (UploadForm.mk [] 0 false) Sim.album eq_refl))).
Defined.

(** X19 on the album: record 2 is listed and found, and there is no
    record 3. *)
Lemma getMediaById_finds_what_getAllMedia_lists_witness :
  exists items,
    getAllMedia Sim.album = (Normal items, Sim.album)
    /\ (In (spread_with_id Sim.clip 2) items
        <-> getMediaById 2 Sim.album
            = (Normal (Some (spread_with_id Sim.clip 2)), Sim.album))
    /\ (~ In 3 (List.map MediaFile.id items)
        <-> getMediaById 3 Sim.album = (Normal None, Sim.album)).
Proof.
  destruct (getMediaById_finds_what_getAllMedia_lists Sim.album
              (registry_ok_run (P := Sim.platform)
                 [CreateMedia Sim.photo Sim.photo_bytes;
                  CreateMedia Sim.clip Sim.clip_bytes]
                 Sim.fresh registry_ok_boot))
    as (items & Hlist & _ & Hfound & Hmissing).
  exists items. split; [exact Hlist|].
  split; [exact (Hfound (spread_with_id Sim.clip 2))|exact (Hmissing 3)].
Defined.
